(** * Research tool backend: signal gating, JSON recovery and result
      normalisation

    A shallow embedding of the backend of the document-analysis tool
    (the Express server, the analyzer service and the text extraction
    service) together with the properties stated for it.

    JavaScript strings are sequences of UTF-16 code units; they are
    modelled as lists of code units ([N]).  Regular expressions are run by
    a small backtracking matcher that follows the ECMAScript semantics for
    the constructs the sources use.  The network, the generative model, the
    clock and the identifier generator are oracles threaded through an
    explicit world state. *)

From Stdlib Require Import ZArith NArith QArith Qround Qcanon Lia Ascii String DecimalString.
From stdpp Require Import prelude gmap.

Set Warnings "-register-all".

Local Open Scope N_scope.
Local Open Scope nat_scope.
Local Open Scope list_scope.

(** ** JavaScript strings *)

Definition jsstring := list N.

(** A source literal made of ASCII characters. *)
Definition lit (s : string) : jsstring :=
  List.map N_of_ascii (list_ascii_of_string s).

Arguments lit : simpl never.

Definition LF : N := 10%N.
Definition CR : N := 13%N.
Definition TAB : N := 9%N.
Definition SPACE : N := 32%N.

(** The code units matched by [\s], which are also the ones removed by
    [String.prototype.trim] (WhiteSpace and LineTerminator). *)
Definition isWhiteSpace (c : N) : bool :=
  ((9 <=? c) && (c <=? 13) || (c =? 32) || (c =? 160) || (c =? 5760)
   || (8192 <=? c) && (c <=? 8202) || (c =? 8232) || (c =? 8233)
   || (c =? 8239) || (c =? 8287) || (c =? 12288) || (c =? 65279))%N.

Definition isDigit (c : N) : bool := ((48 <=? c) && (c <=? 57))%N.

Fixpoint trimStart (s : jsstring) : jsstring :=
  match s with
  | c :: t => if isWhiteSpace c then trimStart t else s
  | [] => []
  end.

Definition trimEnd (s : jsstring) : jsstring := rev (trimStart (rev s)).

(** [s.trim()] *)
Definition trim (s : jsstring) : jsstring := trimEnd (trimStart s).

Definition str_eqb (a b : jsstring) : bool := bool_decide (a = b).

(** A string is truthy when it is not empty. *)
Definition nonEmpty (s : jsstring) : bool :=
  match s with [] => false | _ :: _ => true end.

Fixpoint startsWith (p s : jsstring) : bool :=
  match p, s with
  | [], _ => true
  | a :: p', b :: s' => (a =? b)%N && startsWith p' s'
  | _ :: _, [] => false
  end.

(** [s.includes(p)] *)
Fixpoint includes (p s : jsstring) : bool :=
  startsWith p s || match s with [] => false | _ :: t => includes p t end.

(** [s.endsWith(p)] *)
Definition endsWith (p s : jsstring) : bool := startsWith (rev p) (rev s).

(** [xs.join(sep)] on an array of strings. *)
Fixpoint join (sep : jsstring) (xs : list jsstring) : jsstring :=
  match xs with
  | [] => []
  | [x] => x
  | x :: rest => x ++ sep ++ join sep rest
  end.

(** [xs.slice(0, e)] for an integer [e], on strings and on arrays: a
    negative end counts from the end of the sequence. *)
Definition slice0 {A} (e : Z) (xs : list A) : list A :=
  if (e <? 0)%Z then take (length xs - Z.to_nat (- e)) xs
  else take (Z.to_nat e) xs.

(** ** Regular expressions

    The fragment of ECMAScript patterns used by the sources: character
    classes, sequencing, greedy optional groups, greedy repetition of a
    class, one capturing group, and the two anchors. *)

Inductive regex : Type :=
| Eps
| Class (p : N -> bool)
| Seq (r1 r2 : regex)
| Opt (r : regex)
| Star (p : N -> bool)
| Cap (r : regex)
| Bol
| Eol.

Definition Plus (p : N -> bool) : regex := Seq (Class p) (Star p).

Definition chr (c : N) : N -> bool := fun x => (x =? c)%N.

(** Canonicalisation of a code unit under the [i] flag without the [u]
    flag: a code unit is replaced by its upper-case form, except that a
    code unit outside ASCII is never mapped into ASCII.  For an ASCII
    pattern letter this leaves exactly its two ASCII cases. *)
Definition asciiUpper (c : N) : N :=
  if ((97 <=? c) && (c <=? 122))%N then (c - 32)%N else c.

Definition chr_i (c : N) : N -> bool :=
  fun x => ((x <? 128) && (asciiUpper x =? asciiUpper c))%N.

Fixpoint str_re (f : N -> N -> bool) (s : jsstring) : regex :=
  match s with
  | [] => Eps
  | c :: t => Seq (Class (f c)) (str_re f t)
  end.

(** A literal sequence, case-sensitive and under the [i] flag. *)
Definition Lit (s : string) : regex := str_re chr (lit s).
Definition Lit_i (s : string) : regex := str_re chr_i (lit s).

(** Greedy repetition of a class with backtracking: the longest run is
    tried first, then shorter ones. *)
Fixpoint star_k {R} (p : N -> bool) (i : nat) (s : jsstring)
    (k : nat -> jsstring -> option R) : option R :=
  match s with
  | c :: t =>
      if p c then
        match star_k p (S i) t k with
        | Some r => Some r
        | None => k i s
        end
      else k i s
  | [] => k i []
  end.

(** The matcher in continuation-passing style.  [i] is the index of the
    current position in the subject string, [s] the rest of the subject
    from there, [cap] the current value of capturing group 1. *)
Fixpoint rmatch {R} (r : regex) (i : nat) (s : jsstring) (cap : option jsstring)
    (k : nat -> jsstring -> option jsstring -> option R) : option R :=
  match r with
  | Eps => k i s cap
  | Class p =>
      match s with
      | c :: t => if p c then k (S i) t cap else None
      | [] => None
      end
  | Seq a b => rmatch a i s cap (fun i' s' cap' => rmatch b i' s' cap' k)
  | Opt a =>
      match rmatch a i s cap
              (fun i' s' cap' => if i' =? i then None else k i' s' cap') with
      | Some x => Some x
      | None => k i s cap
      end
  | Star p => star_k p i s (fun i' s' => k i' s' cap)
  | Cap a => rmatch a i s cap (fun i' s' _ => k i' s' (Some (take (i' - i) s)))
  | Bol => if i =? 0 then k i s cap else None
  | Eol => match s with [] => k i s cap | _ :: _ => None end
  end.

Record rmatch_result := MatchResult {
  m_start : nat;
  m_end : nat;
  m_cap : option jsstring
}.

(** A match attempt anchored at index [i]. *)
Definition match_at (r : regex) (i : nat) (s : jsstring) : option rmatch_result :=
  rmatch r i s None (fun e _ c => Some (MatchResult i e c)).

(** [RegExp.prototype.exec] without the [g] flag: the leftmost position at
    which the pattern matches.  [s] is the subject from index [i] on. *)
Fixpoint search_from (r : regex) (i : nat) (s : jsstring) : option rmatch_result :=
  match match_at r i s with
  | Some m => Some m
  | None =>
      match s with
      | [] => None
      | _ :: t => search_from r (S i) t
      end
  end.

Definition exec (r : regex) (s : jsstring) : option rmatch_result :=
  search_from r 0 s.

(** [s.match(r)?.[0]] *)
Definition matched (s : jsstring) (m : rmatch_result) : jsstring :=
  take (m_end m - m_start m) (drop (m_start m) s).

(** [s.replace(r, repl)] without the [g] flag, for a replacement text
    without [$] patterns. *)
Definition replace_first (r : regex) (repl : jsstring) (s : jsstring) : jsstring :=
  match exec r s with
  | Some m => take (m_start m) s ++ repl ++ drop (m_end m) s
  | None => s
  end.

(** [s.replace(r, repl)] with the [g] flag.  [skip] counts the code units
    of the current match that remain to be dropped. *)
Fixpoint replace_all_from (r : regex) (repl : jsstring) (i skip : nat)
    (s : jsstring) : jsstring :=
  match skip with
  | S k =>
      match s with
      | [] => []
      | _ :: t => replace_all_from r repl (S i) k t
      end
  | O =>
      match match_at r i s with
      | Some m =>
          repl ++
          match s with
          | [] => []
          | c :: t =>
              if m_end m =? i then c :: replace_all_from r repl (S i) 0 t
              else replace_all_from r repl (S i) (m_end m - i - 1) t
          end
      | None =>
          match s with
          | [] => []
          | c :: t => c :: replace_all_from r repl (S i) 0 t
          end
      end
  end.

Definition replace_all (r : regex) (repl : jsstring) (s : jsstring) : jsstring :=
  replace_all_from r repl 0 0 s.

(** [s.split(r)] for a pattern without capturing groups.  [p] is the end
    of the previous separator, [acc] the piece collected since then. *)
Fixpoint split_from (r : regex) (i p skip : nat) (acc : jsstring)
    (s : jsstring) : list jsstring :=
  match s with
  | [] => [acc]
  | c :: t =>
      match skip with
      | S k => split_from r (S i) p k acc t
      | O =>
          match match_at r i s with
          | Some m =>
              if m_end m =? p then split_from r (S i) p 0 (acc ++ [c]) t
              else if m_end m =? i then acc :: split_from r (S i) i 0 [c] t
              else acc :: split_from r (S i) (m_end m) (m_end m - i - 1) [] t
          | None => split_from r (S i) p 0 (acc ++ [c]) t
          end
      end
  end.

Definition split (r : regex) (s : jsstring) : list jsstring :=
  match s with
  | [] => match match_at r 0 [] with Some _ => [] | None => [[]] end
  | _ :: _ => split_from r 0 0 0 [] s
  end.

(** The patterns of the sources. *)

(** [/\s+/g] *)
Definition re_ws_run : regex := Plus isWhiteSpace.

(** ** The text signal estimator (server, [getSignalLength]) *)

Definition getSignalLength (value : jsstring) : nat :=
  length (replace_all re_ws_run [] value).

(** The same estimate as written in the spec: the number of code units
    that are not white space. *)
Definition nonWhitespaceCount (value : jsstring) : nat :=
  length (List.filter (fun c => negb (isWhiteSpace c)) value).

Definition whitespaceCount (value : jsstring) : nat :=
  length (List.filter isWhiteSpace value).

(** ** JSON values and [JSON.parse]

    A number keeps its lexeme: the sources never inspect a number of a
    parsed value, only its type.  An object lists its own properties;
    setting a name that is already present overwrites its value. *)

Inductive json : Type :=
| JNull
| JBool (b : bool)
| JNumber (lexeme : jsstring)
| JString (s : jsstring)
| JArray (xs : list json)
| JObject (fields : list (jsstring * json)).

Fixpoint obj_set (k : jsstring) (v : json) (fs : list (jsstring * json))
    : list (jsstring * json) :=
  match fs with
  | [] => [(k, v)]
  | (k', v') :: rest =>
      if str_eqb k' k then (k', v) :: rest else (k', v') :: obj_set k v rest
  end.

Fixpoint obj_get (k : jsstring) (fs : list (jsstring * json)) : option json :=
  match fs with
  | [] => None
  | (k', v) :: rest => if str_eqb k' k then Some v else obj_get k rest
  end.

(** [v?.k]: the property [k] of [v], [None] standing for [undefined].  A
    primitive, an array or [undefined] has none of the property names the
    sources read. *)
Definition prop (k : string) (v : option json) : option json :=
  match v with
  | Some (JObject fs) => obj_get (lit k) fs
  | _ => None
  end.

Arguments prop : simpl never.

Inductive token : Type :=
| TLBrace | TRBrace | TLBracket | TRBracket | TColon | TComma
| TStr (s : jsstring) | TNum (lexeme : jsstring)
| TTrue | TFalse | TNull.

Inductive lexmode : Type :=
| LStart
| LStr (acc : jsstring)
| LEsc (acc : jsstring)
| LUni (acc : jsstring) (hex : list N)
| LNum (acc : jsstring)
| LWord (expected : jsstring) (t : token).

Definition isJsonWs (c : N) : bool :=
  ((c =? 9) || (c =? 10) || (c =? 13) || (c =? 32))%N.

Definition hexValue (c : N) : option N :=
  if isDigit c then Some (c - 48)%N
  else if ((97 <=? c) && (c <=? 102))%N then Some (c - 87)%N
  else if ((65 <=? c) && (c <=? 70))%N then Some (c - 55)%N
  else None.

Fixpoint skipDigits (s : jsstring) : jsstring :=
  match s with
  | c :: t => if isDigit c then skipDigits t else s
  | [] => []
  end.

Definition validExponent (s : jsstring) : bool :=
  match s with
  | [] => true
  | e :: t =>
      ((e =? 101) || (e =? 69))%N &&
      let t' := match t with
                | c :: u => if ((c =? 43) || (c =? 45))%N then u else t
                | [] => t
                end in
      match t' with
      | [] => false
      | _ :: _ => forallb isDigit t'
      end
  end.

Definition validFraction (s : jsstring) : bool :=
  match s with
  | 46%N :: d :: t => isDigit d && validExponent (skipDigits t)
  | _ => validExponent s
  end.

(** The JSON number grammar. *)
Definition validNumber (s : jsstring) : bool :=
  let s1 := match s with 45%N :: t => t | _ => s end in
  match s1 with
  | 48%N :: t => validFraction t
  | d :: t => isDigit d && validFraction (skipDigits t)
  | [] => false
  end.

Definition isNumberChar (c : N) : bool :=
  (isDigit c || (c =? 43) || (c =? 45) || (c =? 46) || (c =? 101) || (c =? 69))%N.

(** One code unit read between two tokens. *)
Definition lexStart (c : N) : option (lexmode * list token) :=
  if isJsonWs c then Some (LStart, [])
  else if (c =? 123)%N then Some (LStart, [TLBrace])
  else if (c =? 125)%N then Some (LStart, [TRBrace])
  else if (c =? 91)%N then Some (LStart, [TLBracket])
  else if (c =? 93)%N then Some (LStart, [TRBracket])
  else if (c =? 58)%N then Some (LStart, [TColon])
  else if (c =? 44)%N then Some (LStart, [TComma])
  else if (c =? 34)%N then Some (LStr [], [])
  else if (isDigit c || (c =? 45))%N then Some (LNum [c], [])
  else if (c =? 116)%N then Some (LWord (lit "rue") TTrue, [])
  else if (c =? 102)%N then Some (LWord (lit "alse") TFalse, [])
  else if (c =? 110)%N then Some (LWord (lit "ull") TNull, [])
  else None.

Definition lexEscape (c : N) : option N :=
  if (c =? 34)%N then Some 34%N
  else if (c =? 92)%N then Some 92%N
  else if (c =? 47)%N then Some 47%N
  else if (c =? 98)%N then Some 8%N
  else if (c =? 102)%N then Some 12%N
  else if (c =? 110)%N then Some 10%N
  else if (c =? 114)%N then Some 13%N
  else if (c =? 116)%N then Some 9%N
  else None.

(** One step of the lexer: the next mode and the tokens completed. *)
Definition lexStep (m : lexmode) (c : N) : option (lexmode * list token) :=
  match m with
  | LStart => lexStart c
  | LStr acc =>
      if (c =? 34)%N then Some (LStart, [TStr acc])
      else if (c =? 92)%N then Some (LEsc acc, [])
      else if (c <? 32)%N then None
      else Some (LStr (acc ++ [c]), [])
  | LEsc acc =>
      if (c =? 117)%N then Some (LUni acc [], [])
      else match lexEscape c with
           | Some u => Some (LStr (acc ++ [u]), [])
           | None => None
           end
  | LUni acc hex =>
      match hexValue c with
      | Some h =>
          match hex with
          | [a; b; d] =>
              Some (LStr (acc ++ [(((a * 16 + b) * 16 + d) * 16 + h)%N]), [])
          | _ => Some (LUni acc (hex ++ [h]), [])
          end
      | None => None
      end
  | LNum acc =>
      if isNumberChar c then Some (LNum (acc ++ [c]), [])
      else if validNumber acc then
        match lexStart c with
        | Some (m', ts) => Some (m', TNum acc :: ts)
        | None => None
        end
      else None
  | LWord expected t =>
      match expected with
      | [e] => if (c =? e)%N then Some (LStart, [t]) else None
      | e :: rest => if (c =? e)%N then Some (LWord rest t, []) else None
      | [] => None
      end
  end.

Fixpoint lexFrom (m : lexmode) (s : jsstring) : option (list token) :=
  match s with
  | [] =>
      match m with
      | LStart => Some []
      | LNum acc => if validNumber acc then Some [TNum acc] else None
      | _ => None
      end
  | c :: t =>
      match lexStep m c with
      | Some (m', ts) =>
          match lexFrom m' t with
          | Some rest => Some (ts ++ rest)
          | None => None
          end
      | None => None
      end
  end.

Inductive frame : Type :=
| FArr (elems : list json)
| FObj (fields : list (jsstring * json)) (key : jsstring).

Inductive pstate : Type :=
| PVal (stk : list frame)
| PArr0 (stk : list frame)
| PObj0 (stk : list frame)
| PKey (fields : list (jsstring * json)) (stk : list frame)
| PColon (fields : list (jsstring * json)) (key : jsstring) (stk : list frame)
| PArrNext (elems : list json) (stk : list frame)
| PObjNext (fields : list (jsstring * json)) (stk : list frame)
| PDone (v : json).

(** A complete value [v] is handed to the innermost open container. *)
Definition pushValue (v : json) (stk : list frame) : pstate :=
  match stk with
  | [] => PDone v
  | FArr es :: stk' => PArrNext (es ++ [v]) stk'
  | FObj fs k :: stk' => PObjNext (obj_set k v fs) stk'
  end.

Definition parseValueToken (t : token) (stk : list frame) : option pstate :=
  match t with
  | TStr s => Some (pushValue (JString s) stk)
  | TNum n => Some (pushValue (JNumber n) stk)
  | TTrue => Some (pushValue (JBool true) stk)
  | TFalse => Some (pushValue (JBool false) stk)
  | TNull => Some (pushValue JNull stk)
  | TLBracket => Some (PArr0 stk)
  | TLBrace => Some (PObj0 stk)
  | _ => None
  end.

Definition parseStep (st : pstate) (t : token) : option pstate :=
  match st with
  | PVal stk => parseValueToken t stk
  | PArr0 stk =>
      match t with
      | TRBracket => Some (pushValue (JArray []) stk)
      | _ => parseValueToken t (FArr [] :: stk)
      end
  | PObj0 stk =>
      match t with
      | TRBrace => Some (pushValue (JObject []) stk)
      | TStr k => Some (PColon [] k stk)
      | _ => None
      end
  | PKey fs stk =>
      match t with
      | TStr k => Some (PColon fs k stk)
      | _ => None
      end
  | PColon fs k stk =>
      match t with
      | TColon => Some (PVal (FObj fs k :: stk))
      | _ => None
      end
  | PArrNext es stk =>
      match t with
      | TComma => Some (PVal (FArr es :: stk))
      | TRBracket => Some (pushValue (JArray es) stk)
      | _ => None
      end
  | PObjNext fs stk =>
      match t with
      | TComma => Some (PKey fs stk)
      | TRBrace => Some (pushValue (JObject fs) stk)
      | _ => None
      end
  | PDone _ => None
  end.

Fixpoint parseTokens (st : pstate) (ts : list token) : option json :=
  match ts with
  | [] => match st with PDone v => Some v | _ => None end
  | t :: rest =>
      match parseStep st t with
      | Some st' => parseTokens st' rest
      | None => None
      end
  end.

(** [JSON.parse(text)]; [None] stands for the [SyntaxError] it throws. *)
Definition JSON_parse (text : jsstring) : option json :=
  match lexFrom LStart text with
  | Some ts => parseTokens (PVal []) ts
  | None => None
  end.

(** ** Numbers

    A number is an IEEE-754 double.  The finite ones are given by their
    exact rational value. *)

Inductive jsnum : Type :=
| NaN
| PosInf
| Fin (q : Q).

(** The double nearest to [p / q] (ties to even), for [0 <= p] and
    [0 < q]: 53 bits of precision, exponents down to [-1074], overflow to
    [Infinity] from [2 ^ 1024] on. *)
Definition roundToDouble (p q : Z) : jsnum :=
  if (p =? 0)%Z then Fin (Qmake 0 1)
  else
    let e0 := (Z.log2 p - Z.log2 q)%Z in
    let above :=
      if (0 <=? e0)%Z then (q * 2 ^ e0 <=? p)%Z else (q <=? p * 2 ^ (- e0))%Z in
    let e := if above then e0 else (e0 - 1)%Z in
    let shift := Z.max (e - 52) (-1074) in
    let a := if (shift <? 0)%Z then (p * 2 ^ (- shift))%Z else p in
    let b := if (shift <? 0)%Z then q else (q * 2 ^ shift)%Z in
    let m0 := (a / b)%Z in
    let r := (a mod b)%Z in
    let m :=
      if (2 * r <? b)%Z then m0
      else if (b <? 2 * r)%Z then (m0 + 1)%Z
      else if Z.even m0 then m0 else (m0 + 1)%Z in
    if (shift <? 0)%Z then Fin (Qred (Qmake m (Z.to_pos (2 ^ (- shift)))))
    else if (2 ^ 1024 <=? m * 2 ^ shift)%Z then PosInf
    else Fin (Qmake (m * 2 ^ shift) 1).

Fixpoint digitsValue (acc : Z) (s : jsstring) : Z :=
  match s with
  | [] => acc
  | c :: t => digitsValue (10 * acc + (Z.of_N c - 48)) t
  end.

Fixpoint takeDigits (s : jsstring) : jsstring :=
  match s with
  | c :: t => if isDigit c then c :: takeDigits t else []
  | [] => []
  end.

(** [Number(s)] for an unsigned decimal literal, [digits] or
    [digits.digits]: the only texts the patterns below can capture
    (see [retryIn_capture_decimal] and [retryDelay_capture_digits]).
    Other texts are outside this model and are mapped to [NaN]. *)
Definition Number (s : jsstring) : jsnum :=
  let ip := takeDigits s in
  match ip, skipDigits s with
  | [], _ => NaN
  | _ :: _, [] => roundToDouble (digitsValue 0 ip) 1
  | _ :: _, c :: fp =>
      if (c =? 46)%N && nonEmpty fp && forallb isDigit fp
      then roundToDouble (digitsValue 0 (ip ++ fp)) (10 ^ Z.of_nat (length fp))
      else NaN
  end.

Definition Math_ceil (x : jsnum) : jsnum :=
  match x with
  | Fin q => Fin (Qmake (Qceiling q) 1)
  | _ => x
  end.

Definition Math_max (a b : jsnum) : jsnum :=
  match a, b with
  | NaN, _ | _, NaN => NaN
  | PosInf, _ | _, PosInf => PosInf
  | Fin x, Fin y => if Qle_bool x y then Fin y else Fin x
  end.

Definition num (z : Z) : jsnum := Fin (Qmake z 1).

(** ** Errors *)

Inductive jserror : Type :=
| Error (message : jsstring)
| SyntaxError (message : jsstring).

Definition message (e : jserror) : jsstring :=
  match e with
  | Error m => m
  | SyntaxError m => m
  end.

(** The two errors of the JSON recovery parser. *)
Definition EmptyOutput : jserror := Error (lit "Model returned empty output").
Definition InvalidModelOutput : jserror := Error (lit "LLM output was not valid JSON").

(** ** The analyzer service: JSON recovery *)

(** [/^```(?:json)?\s*/i] *)
Definition re_fence_open : regex :=
  Seq Bol (Seq (Lit_i "```") (Seq (Opt (Lit_i "json")) (Star isWhiteSpace))).

(** [/\s*```$/] *)
Definition re_fence_close : regex :=
  Seq (Star isWhiteSpace) (Seq (Lit "```") Eol).

(** [/\{[\s\S]*\}/] *)
Definition re_braces : regex :=
  Seq (Class (chr 123)) (Seq (Star (fun _ => true)) (Class (chr 125))).

Section JsonRecovery.

(** The text of the [SyntaxError] thrown by [JSON.parse], which depends
    on the engine. *)
Variable syntaxErrorMessage : jsstring -> jsstring.

Definition JSON_parse_throwing (text : jsstring) : jserror + json :=
  match JSON_parse text with
  | Some v => inr v
  | None => inl (SyntaxError (syntaxErrorMessage text))
  end.

Definition parseJsonSafely (raw : jsstring) : jserror + json :=
  let trimmed := trim raw in
  match trimmed with
  | [] => inl EmptyOutput
  | _ :: _ =>
      let withoutFences :=
        replace_first re_fence_close [] (replace_first re_fence_open [] trimmed) in
      match JSON_parse_throwing withoutFences with
      | inr v => inr v
      | inl _ =>
          match exec re_braces withoutFences with
          | None => inl InvalidModelOutput
          | Some m => JSON_parse_throwing (matched withoutFences m)
          end
      end
  end.

End JsonRecovery.

(** ** The analyzer service: result normalisation *)

Record ForwardGuidance := mkForwardGuidance {
  revenue : option jsstring;
  margin : option jsstring;
  capex : option jsstring;
  tax_rate : option jsstring
}.

Record Evidence := mkEvidence {
  quote : jsstring;
  section : jsstring
}.

Record Result := mkResult {
  tone : jsstring;
  tone_summary : option jsstring;
  confidence : jsstring;
  key_positives : list jsstring;
  key_concerns : list jsstring;
  forward_guidance : ForwardGuidance;
  capacity_utilization_trends : option jsstring;
  growth_initiatives : list jsstring;
  evidence_quotes : list Evidence;
  missing_sections : list jsstring
}.

Definition toneAllowed : list jsstring :=
  [lit "optimistic"; lit "cautious"; lit "defensive"; lit "neutral"; lit "pessimistic"].

Definition confidenceAllowed : list jsstring :=
  [lit "high"; lit "medium"; lit "low"].

(** [allowed.includes(v) ? v : dflt] for an array of strings. *)
Definition allowedOr (allowed : list jsstring) (v : option json) (dflt : jsstring)
    : jsstring :=
  match v with
  | Some (JString s) => if existsb (str_eqb s) allowed then s else dflt
  | _ => dflt
  end.

(** [typeof item === "string" ? item.trim() : ""] *)
Definition trimmedStringOrEmpty (item : option json) : jsstring :=
  match item with
  | Some (JString s) => trim s
  | _ => []
  end.

(** [Array.isArray(value) ? value : []] *)
Definition arrayOrEmpty (value : option json) : list json :=
  match value with
  | Some (JArray xs) => xs
  | _ => []
  end.

Definition sentinelEvidence : Evidence :=
  mkEvidence (lit "No direct quote extracted") (lit "N/A").

Section Normalizer.

(** [String.prototype.toLowerCase], whose Unicode case tables belong to
    the engine. *)
Variable toLowerCase : jsstring -> jsstring.

Definition normalizeNullableString (value : option json) : option jsstring :=
  match value with
  | Some (JString s) =>
      let cleaned := trim s in
      if negb (nonEmpty cleaned)
         || str_eqb (toLowerCase cleaned) (lit "null")
         || str_eqb (toLowerCase cleaned) (lit "not mentioned")
      then None
      else Some cleaned
  | _ => None
  end.

Definition normalizeStringArray (value : option json) (max : Z) : list jsstring :=
  slice0 max
    (List.filter nonEmpty
       (List.map (fun item => trimmedStringOrEmpty (Some item)) (arrayOrEmpty value))).

Definition normalizeEvidence (value : option json) : list Evidence :=
  let cleaned :=
    slice0 8
      (List.filter (fun item => 10 <? length (quote item))
         (List.map
            (fun item =>
               mkEvidence (trimmedStringOrEmpty (prop "quote" (Some item)))
                          (trimmedStringOrEmpty (prop "section" (Some item))))
            (arrayOrEmpty value))) in
  match cleaned with
  | _ :: _ => cleaned
  | [] => [sentinelEvidence]
  end.

Definition normalizeResult (input : json) : Result :=
  let i := Some input in
  {| tone := allowedOr toneAllowed (prop "tone" i) (lit "neutral");
     tone_summary := normalizeNullableString (prop "tone_summary" i);
     confidence := allowedOr confidenceAllowed (prop "confidence" i) (lit "low");
     key_positives := normalizeStringArray (prop "key_positives" i) 6;
     key_concerns := normalizeStringArray (prop "key_concerns" i) 6;
     forward_guidance :=
       {| revenue := normalizeNullableString (prop "revenue" (prop "forward_guidance" i));
          margin := normalizeNullableString (prop "margin" (prop "forward_guidance" i));
          capex := normalizeNullableString (prop "capex" (prop "forward_guidance" i));
          tax_rate := normalizeNullableString (prop "tax_rate" (prop "forward_guidance" i)) |};
     capacity_utilization_trends :=
       normalizeNullableString (prop "capacity_utilization_trends" i);
     growth_initiatives := normalizeStringArray (prop "growth_initiatives" i) 6;
     evidence_quotes := normalizeEvidence (prop "evidence_quotes" i);
     missing_sections := normalizeStringArray (prop "missing_sections" i) 12 |}.

End Normalizer.

Definition isNull (v : option jsstring) : bool :=
  match v with None => true | Some _ => false end.

Definition isLikelyUnderfilled (result : Result) : bool :=
  let weakArrays :=
    length (List.filter (fun arr : list jsstring => length arr =? 0)
              [key_positives result; key_concerns result; growth_initiatives result]) in
  let weakGuidance :=
    forallb isNull
      [revenue (forward_guidance result); margin (forward_guidance result);
       capex (forward_guidance result); tax_rate (forward_guidance result)] in
  (2 <=? weakArrays) && weakGuidance.

(** A [Result] as the value it is: the object a client receives, and the
    input of a second normalisation. *)
Definition nullable (v : option jsstring) : json :=
  match v with
  | Some s => JString s
  | None => JNull
  end.

Definition evidenceToJson (e : Evidence) : json :=
  JObject [(lit "quote", JString (quote e)); (lit "section", JString (section e))].

Definition resultToJson (r : Result) : json :=
  JObject
    [(lit "tone", JString (tone r));
     (lit "tone_summary", nullable (tone_summary r));
     (lit "confidence", JString (confidence r));
     (lit "key_positives", JArray (List.map JString (key_positives r)));
     (lit "key_concerns", JArray (List.map JString (key_concerns r)));
     (lit "forward_guidance",
       JObject
         [(lit "revenue", nullable (revenue (forward_guidance r)));
          (lit "margin", nullable (margin (forward_guidance r)));
          (lit "capex", nullable (capex (forward_guidance r)));
          (lit "tax_rate", nullable (tax_rate (forward_guidance r)))]);
     (lit "capacity_utilization_trends", nullable (capacity_utilization_trends r));
     (lit "growth_initiatives", JArray (List.map JString (growth_initiatives r)));
     (lit "evidence_quotes", JArray (List.map evidenceToJson (evidence_quotes r)));
     (lit "missing_sections", JArray (List.map JString (missing_sections r)))].

(** ** The server: configuration, documents and runs *)

Definition Buffer := list N.

Record Config := mkConfig {
  maxInputChars : Z;
  minAnalysisSignal : Z;
  maxMultimodalDocs : Z;
  maxMultimodalBytes : Z;
  enableOcrRecoveryOnAnalyze : bool;
  minTextSignal : Z;
  enableOcrOnUpload : bool;
  GEMINI_API_KEY : option jsstring;
  retryUnderfilled : bool
}.

(** The values used when the environment sets none of them. *)
Definition defaultConfig (apiKey : option jsstring) : Config :=
  {| maxInputChars := 160000;
     minAnalysisSignal := 40;
     maxMultimodalDocs := 3;
     maxMultimodalBytes := 15 * 1024 * 1024;
     enableOcrRecoveryOnAnalyze := false;
     minTextSignal := 120;
     enableOcrOnUpload := false;
     GEMINI_API_KEY := apiKey;
     retryUnderfilled := false |}.

Record File := mkFile {
  originalname : jsstring;
  file_mimetype : jsstring;
  file_size : nat;
  buffer : Buffer
}.

Record Cloudinary := mkCloudinary {
  url : jsstring;
  publicId : jsstring;
  resourceType : jsstring
}.

(** The retained payload.  The base64 text is kept as the bytes it
    encodes: it is empty exactly when they are, and decoding it gives them
    back. *)
Record SourceForAnalysis := mkSource {
  mimeType : jsstring;
  data : Buffer
}.

Record Document := mkDocument {
  doc_id : jsstring;
  doc_name : jsstring;
  doc_mimetype : jsstring;
  doc_size : nat;
  uploadedAt : jsstring;
  text : jsstring;
  textChars : nat;
  textWords : nat;
  cloudinary : Cloudinary;
  sourceForAnalysis : option SourceForAnalysis
}.

Record MaskedDocument := mkMasked {
  m_id : jsstring;
  m_name : jsstring;
  m_mimetype : jsstring;
  m_size : nat;
  m_uploadedAt : jsstring;
  m_cloudinary : Cloudinary;
  m_textChars : nat;
  m_textWords : nat;
  m_textPreview : jsstring
}.

Record Run := mkRun {
  runId : jsstring;
  createdAt : jsstring;
  documentIds : list jsstring;
  documentNames : list jsstring;
  result : Result
}.

(** A part of a request to the generative model. *)
Inductive Part : Type :=
| TextPart (t : jsstring)
| InlineData (mime : jsstring) (payload : Buffer).

Record Detail := mkDetail {
  d_id : jsstring;
  d_name : jsstring;
  d_textChars : nat;
  d_textPreview : jsstring
}.

Inductive Body : Type :=
| ErrorBody (error : jsstring)
| InsufficientBody (error : jsstring) (details : list Detail)
| RateLimitedBody (error : jsstring) (retryAfterSeconds : option jsnum)
| UploadedBody (docs : list MaskedDocument)
| AnalyzedBody (run : jsstring) (res : Result) (docs : list MaskedDocument).

Record Response := mkResponse {
  status : nat;
  body : Body
}.

Record FetchResponse := mkFetchResponse {
  ok : bool;
  http_status : N;
  arrayBuffer : jserror + Buffer
}.

(** What the server takes from its environment.  [W] is the state of the
    outside world; an oracle that reads or changes it returns the new one. *)
Record Runtime (W : Type) := mkRuntime {
  toLowerCase : jsstring -> jsstring;
  syntaxErrorMessage : jsstring -> jsstring;
  utf8Decode : Buffer -> jsstring;
  pdfParse : Buffer -> jserror + jsstring;
  mammothExtractRawText : Buffer -> jserror + jsstring;
  uploadBufferToCloudinary : W -> File -> W * (jserror + Cloudinary);
  fetch : W -> jsstring -> W * (jserror + FetchResponse);
  generateContent : W -> list Part -> W * (jserror + jsstring);
  randomUUID : W -> W * jsstring;
  nowISO : W -> W * jsstring
}.

Arguments toLowerCase {W}.
Arguments syntaxErrorMessage {W}.
Arguments utf8Decode {W}.
Arguments pdfParse {W}.
Arguments mammothExtractRawText {W}.
Arguments uploadBufferToCloudinary {W}.
Arguments fetch {W}.
Arguments generateContent {W}.
Arguments randomUUID {W}.
Arguments nowISO {W}.

Definition maskDocument (doc : Document) : MaskedDocument :=
  {| m_id := doc_id doc;
     m_name := doc_name doc;
     m_mimetype := doc_mimetype doc;
     m_size := doc_size doc;
     m_uploadedAt := uploadedAt doc;
     m_cloudinary := cloudinary doc;
     m_textChars := textChars doc;
     m_textWords := textWords doc;
     m_textPreview := slice0 220 (text doc) |}.

(** [/\r\n/g], [/[ \t]+/g] and [/\n{3,}/g] *)
Definition re_crlf : regex := Seq (Class (chr CR)) (Class (chr LF)).
Definition re_blanks : regex := Plus (fun c => ((c =? SPACE) || (c =? TAB))%N).
Definition re_newlines3 : regex :=
  Seq (Class (chr LF)) (Seq (Class (chr LF)) (Seq (Class (chr LF)) (Star (chr LF)))).

Definition normalizeExtractedText (value : jsstring) : jsstring :=
  trim
    (replace_all re_newlines3 [LF; LF]
       (replace_all re_blanks [SPACE]
          (replace_all re_crlf [LF] value))).

(** The server's state: the two stores and the outside world. *)
Record State (W : Type) := mkState {
  documents : gmap jsstring Document;
  analysisRuns : gmap jsstring Run;
  world : W
}.

Arguments mkState {W}.
Arguments documents {W}.
Arguments analysisRuns {W}.
Arguments world {W}.

(** Computations of the server: they read and change the state and may
    throw. *)
Definition M (W A : Type) : Type := State W -> (jserror + A) * State W.

Definition ret {W A : Type} (a : A) : M W A := fun st => (inr a, st).

Definition throw {W A : Type} (e : jserror) : M W A := fun st => (inl e, st).

Definition bind {W A B : Type} (m : M W A) (k : A -> M W B) : M W B :=
  fun st =>
    match m st with
    | (inr a, st') => k a st'
    | (inl e, st') => (inl e, st')
    end.

(** [try { m } catch (e) { h e }] *)
Definition tryCatch {W A : Type} (m : M W A) (h : jserror -> M W A) : M W A :=
  fun st =>
    match m st with
    | (inr a, st') => (inr a, st')
    | (inl e, st') => h e st'
    end.

Definition getState {W : Type} : M W (State W) := fun st => (inr st, st).

Definition setDocuments {W : Type} (ds : gmap jsstring Document) : M W unit :=
  fun st => (inr tt, mkState ds (analysisRuns st) (world st)).

Definition setAnalysisRuns {W : Type} (rs : gmap jsstring Run) : M W unit :=
  fun st => (inr tt, mkState (documents st) rs (world st)).

(** A call of an oracle. *)
Definition call {W A : Type} (f : W -> W * A) : M W A :=
  fun st =>
    let (w', a) := f (world st) in
    (inr a, mkState (documents st) (analysisRuns st) w').

Definition liftEither {W A : Type} (r : jserror + A) : M W A :=
  match r with
  | inr a => ret a
  | inl e => throw e
  end.

Notation "x <- m ;; k" := (bind m (fun x => k))
  (at level 100, m at next level, right associativity).
Notation "m ;;; k" := (bind m (fun _ => k))
  (at level 100, right associativity).

(** [for (const x of xs) body] *)
Fixpoint forEach {W A : Type} (xs : list A) (body : A -> M W unit) : M W unit :=
  match xs with
  | [] => ret tt
  | x :: rest => body x ;;; forEach rest body
  end.

(** [/retry in\s+(\d+(?:\.\d+)?)s/i] *)
Definition re_retry_in : regex :=
  Seq (Lit_i "retry in")
    (Seq (Plus isWhiteSpace)
       (Seq (Cap (Seq (Plus isDigit) (Opt (Seq (Class (chr_i 46)) (Plus isDigit)))))
          (Class (chr_i 115)))).

(** [/retryDelay\\?":\\?"(\d+)s/i] *)
Definition re_retry_delay : regex :=
  Seq (Lit_i "retryDelay")
    (Seq (Opt (Class (chr_i 92)))
       (Seq (Class (chr_i 34))
          (Seq (Class (chr_i 58))
             (Seq (Opt (Class (chr_i 92)))
                (Seq (Class (chr_i 34))
                   (Seq (Cap (Plus isDigit)) (Class (chr_i 115)))))))).

(** [m?.[1]] when it is truthy. *)
Definition capture1 (m : option rmatch_result) : option jsstring :=
  match m with
  | Some r =>
      match m_cap r with
      | Some (c :: t) => Some (c :: t)
      | _ => None
      end
  | None => None
  end.

Definition extractRetryAfterSeconds (msg : jsstring) : option jsnum :=
  match msg with
  | [] => None
  | _ :: _ =>
      match capture1 (exec re_retry_in msg) with
      | Some n => Some (Math_max (num 1) (Math_ceil (Number n)))
      | None =>
          match capture1 (exec re_retry_delay msg) with
          | Some n => Some (Number n)
          | None => None
          end
      end
  end.

Record Quota := mkQuota {
  quota_message : jsstring;
  quota_retryAfterSeconds : option jsnum
}.

Definition quotaText : jsstring :=
  lit "Gemini API quota/rate limit reached. Retry after the cooldown or use a billed API key/model with higher limits.".

Definition insufficientText : jsstring :=
  lit "No readable transcript content found after extraction and OCR fallback, and source files could not be attached for multimodal analysis.".

Definition decimal (n : N) : jsstring :=
  lit (NilEmpty.string_of_uint (N.to_uint n)).

(** [value || dflt] on strings. *)
Definition orElse (value dflt : jsstring) : jsstring :=
  match value with
  | [] => dflt
  | _ :: _ => value
  end.

(** The double quote, which a literal cannot contain. *)
Definition DQ : jsstring := [34%N].

(** The prompt of the analysis, up to the note on attached files. *)
Definition promptHead : jsstring :=
  lit "You are a forensic financial data extractor." ++ [LF]
  ++ lit "  " ++ [LF]
  ++ lit "Task:" ++ [LF]
  ++ lit "Extract precise financial metrics, guidance numbers, and strategic details from the transcript into strict JSON." ++ [LF]
  ++ lit "Your goal is to find the specific numbers (percentages, currency amounts, basis points) that support the narrative." ++ [LF].

(** The rules and the output schema of the prompt. *)
Definition promptRules : jsstring :=
  [LF]
  ++ [LF]
  ++ lit "CRITICAL RULES:" ++ [LF]
  ++ lit "1. NO GENERIC FLUFF: Do not write " ++ DQ ++ lit "Healthy growth." ++ DQ ++ lit " Write " ++ DQ ++ lit "Volume growth up 5%" ++ DQ ++ lit "." ++ [LF]
  ++ lit "2. FIND THE NUMBERS: If management says " ++ DQ ++ lit "margin expansion," ++ DQ ++ lit " look for the specific bps (e.g., " ++ DQ ++ lit "150-200 bps" ++ DQ ++ lit ")." ++ [LF]
  ++ lit "3. NAMED ENTITIES: Specific brand names (e.g., " ++ DQ ++ lit "4700BC" ++ DQ ++ lit ", " ++ DQ ++ lit "Saffola Gold" ++ DQ ++ lit ") and project names (e.g., " ++ DQ ++ lit "Project SETU" ++ DQ ++ lit ") must be included." ++ [LF]
  ++ lit "4. DO NOT USE NULL: Unless the information is 100% absent. Dig into Q&A sections for details." ++ [LF]
  ++ lit "5. CITATIONS: Include source IDs in brackets like [cite: 12] when available in transcript text." ++ [LF]
  ++ lit "6. OUTPUT: Return strict JSON only. No markdown, no prose." ++ [LF]
  ++ [LF]
  ++ lit "Output Schema (Strict JSON):" ++ [LF]
  ++ lit "{" ++ [LF]
  ++ lit "  " ++ DQ ++ lit "tone" ++ DQ ++ lit ": " ++ DQ ++ lit "optimistic|cautious|neutral|pessimistic" ++ DQ ++ lit "," ++ [LF]
  ++ lit "  " ++ DQ ++ lit "tone_summary" ++ DQ ++ lit ": " ++ DQ ++ lit "Explain the tone using specific context (e.g., 'Optimistic due to rural recovery and GST cuts...')" ++ DQ ++ lit "," ++ [LF]
  ++ lit "  " ++ DQ ++ lit "confidence" ++ DQ ++ lit ": " ++ DQ ++ lit "high|medium|low" ++ DQ ++ lit "," ++ [LF]
  ++ lit "  " ++ [LF]
  ++ lit "  " ++ DQ ++ lit "key_positives" ++ DQ ++ lit ": [" ++ [LF]
  ++ lit "    " ++ DQ ++ lit "Fact + Number + Citation (e.g., 'International business grew double-digits in constant currency [cite: 355]')" ++ DQ ++ lit "," ++ [LF]
  ++ lit "    " ++ DQ ++ lit "Fact + Number + Citation (e.g., 'VAHO market share reached nearly 30% [cite: 323]')" ++ DQ ++ lit "," ++ [LF]
  ++ lit "    " ++ DQ ++ lit "Fact + Number + Citation (e.g., 'Rural distribution expanded via Project SETU [cite: 310]')" ++ DQ ++ [LF]
  ++ lit "  ]," ++ [LF]
  ++ lit "  " ++ [LF]
  ++ lit "  " ++ DQ ++ lit "key_concerns" ++ DQ ++ lit ": [" ++ [LF]
  ++ lit "    " ++ DQ ++ lit "Fact + Context + Citation (e.g., 'Saffola Edible Oil had a soft quarter due to elevated pricing [cite: 325]')" ++ DQ ++ lit "," ++ [LF]
  ++ lit "    " ++ DQ ++ lit "Fact + Context + Citation (e.g., 'Foods portfolio growth paused to rectify profitability [cite: 329]')" ++ DQ ++ [LF]
  ++ lit "  ]," ++ [LF]
  ++ lit "  " ++ [LF]
  ++ lit "  " ++ DQ ++ lit "forward_guidance" ++ DQ ++ lit ": {" ++ [LF]
  ++ lit "    " ++ DQ ++ lit "revenue" ++ DQ ++ lit ": " ++ DQ ++ lit "Extract specific growth targets (e.g., 'Foods business to resume 20-25% growth [cite: 333]')." ++ DQ ++ lit "," ++ [LF]
  ++ lit "    " ++ DQ ++ lit "margin" ++ DQ ++ lit ": " ++ DQ ++ lit "Extract EBITDA/Operating margin targets (e.g., 'Targeting 150-200 bps operating margin expansion [cite: 520]')." ++ DQ ++ lit "," ++ [LF]
  ++ lit "    " ++ DQ ++ lit "capex" ++ DQ ++ lit ": " ++ DQ ++ lit "Extract capital expenditure plans. If truly absent, write 'Not mentioned'." ++ DQ ++ [LF]
  ++ lit "  }," ++ [LF]
  ++ lit "  " ++ [LF]
  ++ lit "  " ++ DQ ++ lit "capacity_utilization_trends" ++ DQ ++ lit ": " ++ DQ ++ lit "Extract details on supply chain, inventory, or manufacturing (e.g., 'Copra prices down 25-30% [cite: 320]')." ++ DQ ++ lit "," ++ [LF]
  ++ lit "  " ++ [LF]
  ++ lit "  " ++ DQ ++ lit "growth_initiatives" ++ DQ ++ lit ": [" ++ [LF]
  ++ lit "    " ++ DQ ++ lit "Strategic Move + Name (e.g., 'Acquired 4700BC to enter gourmet snacking [cite: 341]')" ++ DQ ++ lit "," ++ [LF]
  ++ lit "    " ++ DQ ++ lit "Strategic Move + Name (e.g., 'Scaling Digital-First portfolio to INR 1,000cr ARR [cite: 351]')" ++ DQ ++ [LF]
  ++ lit "  ]," ++ [LF]
  ++ lit "  " ++ [LF]
  ++ lit "  " ++ DQ ++ lit "evidence_quotes" ++ DQ ++ lit ": [" ++ [LF]
  ++ lit "    {" ++ [LF]
  ++ lit "      " ++ DQ ++ lit "quote" ++ DQ ++ lit ": " ++ DQ ++ lit "Verbatim quote (40-60 words) containing a key metric or strategic intent." ++ DQ ++ lit "," ++ [LF]
  ++ lit "      " ++ DQ ++ lit "section" ++ DQ ++ lit ": " ++ DQ ++ lit "Context (e.g., 'Acquisition Strategy' or 'Margin Guidance')" ++ DQ ++ [LF]
  ++ lit "    }" ++ [LF]
  ++ lit "  ]," ++ [LF]
  ++ lit "  " ++ [LF]
  ++ lit "  " ++ DQ ++ lit "missing_sections" ++ DQ ++ lit ": [" ++ [LF]
  ++ lit "    " ++ DQ ++ lit "List specific metrics that were explicitly searched for but not found (e.g., 'Tax rate guidance', 'Exact Capex figure')." ++ DQ ++ [LF]
  ++ lit "  ]" ++ [LF]
  ++ lit "}" ++ [LF]
  ++ [LF].

Section Server.

Context {W : Type}.
Variable rt : Runtime W.
Variable cfg : Config.

(** *** The text extraction service *)

Definition isWeakText (value : jsstring) : bool :=
  let signal := replace_all re_ws_run [] value in
  (Z.of_nat (length signal) <? minTextSignal cfg)%Z.

Definition ocrInstruction : jsstring :=
  lit "Extract all readable text from this PDF exactly as written. Return plain text only. Keep speaker names and line breaks where possible. Do not summarize.".

Definition hasApiKey : bool :=
  match GEMINI_API_KEY cfg with
  | Some (_ :: _) => true
  | _ => false
  end.

Definition extractTextFromPdfBufferWithGemini (buf : Buffer) : M W jsstring :=
  if negb hasApiKey || negb (nonEmpty buf) then ret []
  else
    tryCatch
      (r <- call (fun w =>
               generateContent rt w
                 [TextPart ocrInstruction; InlineData (lit "application/pdf") buf]) ;;
       liftEither r)
      (fun _ => ret []).

Definition extractTextFromBuffer (file : File) : M W jsstring :=
  let name := toLowerCase rt (originalname file) in
  let type := file_mimetype file in
  if endsWith (lit ".txt") name || includes (lit "text/plain") type then
    ret (utf8Decode rt (buffer file))
  else if endsWith (lit ".pdf") name || includes (lit "pdf") type then
    let extracted :=
      match pdfParse rt (buffer file) with
      | inr t => t
      | inl _ => []
      end in
    if isWeakText extracted && enableOcrOnUpload cfg then
      ocrText <- extractTextFromPdfBufferWithGemini (buffer file) ;;
      match ocrText with
      | _ :: _ => ret ocrText
      | [] => ret extracted
      end
    else ret extracted
  else if endsWith (lit ".docx") name
          || includes (lit "wordprocessingml.document") type then
    liftEither (mammothExtractRawText rt (buffer file))
  else
    throw (Error (lit "Unsupported file type for " ++ originalname file
                    ++ lit ". Use PDF, DOCX, or TXT.")).

(** *** The server *)

Definition belowAnalysisSignal (value : jsstring) : bool :=
  (Z.of_nat (getSignalLength value) <? minAnalysisSignal cfg)%Z.

Definition isPdfDoc (doc : Document) : bool :=
  let name := toLowerCase rt (doc_name doc) in
  let mimetype := doc_mimetype doc in
  endsWith (lit ".pdf") name || includes (lit "pdf") mimetype.

Definition isWeakPdfDoc (doc : Document) : bool :=
  let name := toLowerCase rt (doc_name doc) in
  let mimetype := doc_mimetype doc in
  let isPdf := endsWith (lit ".pdf") name || includes (lit "pdf") mimetype in
  isPdf && belowAnalysisSignal (text doc).

Definition downloadBuffer (u : jsstring) : M W (option Buffer) :=
  match u with
  | [] => ret None
  | _ :: _ =>
      r <- call (fun w => fetch rt w u) ;;
      response <- liftEither r ;;
      if negb (ok response) then
        throw (Error (lit "Failed to download file. HTTP "
                        ++ decimal (http_status response)))
      else
        b <- liftEither (arrayBuffer response) ;;
        ret (Some b)
  end.

Definition getDocumentBuffer (doc : Document) : M W (option Buffer) :=
  match sourceForAnalysis doc with
  | Some (mkSource _ (b :: bs)) => ret (Some (b :: bs))
  | _ => downloadBuffer (url (cloudinary doc))
  end.

(** One turn of the recovery loop, on the document object stored under
    [key].  The object is changed in place, then stored again under its
    own identifier. *)
Definition recoverOne (key : jsstring) : M W unit :=
  tryCatch
    (st <- getState ;;
     match documents st !! key with
     | None => ret tt
     | Some doc =>
         fileBuffer <- getDocumentBuffer doc ;;
         match fileBuffer with
         | Some (b :: bs) =>
             ocrText <- extractTextFromPdfBufferWithGemini (b :: bs) ;;
             let normalizedText := normalizeExtractedText ocrText in
             match normalizedText with
             | [] => ret tt
             | _ :: _ =>
                 let doc' :=
                   {| doc_id := doc_id doc;
                      doc_name := doc_name doc;
                      doc_mimetype := doc_mimetype doc;
                      doc_size := doc_size doc;
                      uploadedAt := uploadedAt doc;
                      text := normalizedText;
                      textChars := length normalizedText;
                      textWords :=
                        length (List.filter nonEmpty (split re_ws_run normalizedText));
                      cloudinary := cloudinary doc;
                      sourceForAnalysis := sourceForAnalysis doc |} in
                 st' <- getState ;;
                 setDocuments (<[doc_id doc' := doc']> (<[key := doc']> (documents st')))
             end
         | _ => ret tt
         end
     end)
    (fun _ => ret tt).

Definition lookupAll (ds : gmap jsstring Document) (keys : list jsstring)
    : list Document :=
  omap (fun k => ds !! k) keys.

(** The selected documents are objects of the store, named here by
    their keys. *)
Definition recoverWeakPdfDocuments (selected : list jsstring) : M W unit :=
  st <- getState ;;
  let weakPdfDocs :=
    List.filter
      (fun k => match documents st !! k with
                | Some doc => isWeakPdfDoc doc
                | None => false
                end)
      selected in
  forEach weakPdfDocs recoverOne.

Fixpoint buildDocumentPartsLoop (pdfDocs : list Document) (parts : list Part)
    : M W (list Part) :=
  match pdfDocs with
  | [] => ret parts
  | doc :: rest =>
      parts' <-
        tryCatch
          (fileBuffer <- getDocumentBuffer doc ;;
           match fileBuffer with
           | Some (b :: bs) =>
               if (maxMultimodalBytes cfg <? Z.of_nat (length (b :: bs)))%Z
               then ret parts
               else ret (parts ++ [TextPart (lit "Source Document: " ++ doc_name doc);
                                   InlineData (lit "application/pdf") (b :: bs)])
           | _ => ret parts
           end)
          (fun _ => ret parts) ;;
      buildDocumentPartsLoop rest parts'
  end.

Definition buildDocumentParts (selectedDocs : list Document) : M W (list Part) :=
  let pdfDocs := slice0 (maxMultimodalDocs cfg) (List.filter isPdfDoc selectedDocs) in
  buildDocumentPartsLoop pdfDocs [].

Definition looksLikeQuota (msg : jsstring) : bool :=
  let lower := toLowerCase rt msg in
  includes (lit "429") msg
  || includes (lit "quota exceeded") lower
  || includes (lit "too many requests") lower
  || includes (lit "rate limit") lower.

Definition parseGeminiQuotaError (error : jserror) : option Quota :=
  let msg := message error in
  if negb (looksLikeQuota msg) then None
  else
    Some {| quota_message := quotaText;
            quota_retryAfterSeconds := extractRetryAfterSeconds msg |}.

(** *** The analyzer service *)

Definition buildPrompt (transcriptText : jsstring) (lowSignal hasAttachedDocs : bool)
    : jsstring :=
  promptHead
  ++ (if hasAttachedDocs
      then lit "Use attached source files as primary evidence when transcript text is weak or incomplete."
      else [])
  ++ promptRules
  ++ (if lowSignal
      then lit "Note: The transcript text provided is short. If critical data is missing, explicitly list it in missing_sections."
      else [])
  ++ [LF; LF] ++ lit "Transcript Text:" ++ [LF] ++ transcriptText.

Definition generateStructuredJson (prompt : jsstring) (documentParts : list Part)
    : M W json :=
  r <- call (fun w => generateContent rt w (TextPart prompt :: documentParts)) ;;
  raw <- liftEither r ;;
  liftEither (parseJsonSafely (syntaxErrorMessage rt) raw).

Definition placeholderText : jsstring :=
  lit "No reliable extracted transcript text is available. Analyze the attached source document files directly.".

Definition runOptionBAnalysis (combinedText : jsstring) (documentParts : list Part)
    : M W Result :=
  if negb hasApiKey then throw (Error (lit "GEMINI_API_KEY is missing"))
  else
    let cleanedText := trim combinedText in
    let hasText := 10 <=? length cleanedText in
    let hasDocs := match documentParts with [] => false | _ :: _ => true end in
    if negb hasText && negb hasDocs then
      throw (Error (lit "Transcript extraction returned too little text. Upload a text-based transcript (PDF/DOCX/TXT with selectable text)."))
    else
      let effectiveText := if hasText then cleanedText else placeholderText in
      let prompt :=
        buildPrompt effectiveText (negb hasText || (length cleanedText <? 400)) hasDocs in
      parsed <- generateStructuredJson prompt documentParts ;;
      let result := normalizeResult (toLowerCase rt) parsed in
      if retryUnderfilled cfg && isLikelyUnderfilled result then
        let retryPrompt :=
          prompt ++ [LF; LF]
          ++ lit "Important: Fill all sections with transcript-grounded facts and include citations when present." in
        retryParsed <- generateStructuredJson retryPrompt documentParts ;;
        ret (normalizeResult (toLowerCase rt) retryParsed)
      else ret result.

(** *** The upload endpoint *)

Definition newDocument (file : File) (normalizedText : jsstring) (cloud : Cloudinary)
    (id now : jsstring) : Document :=
  {| doc_id := id;
     doc_name := originalname file;
     doc_mimetype := file_mimetype file;
     doc_size := file_size file;
     uploadedAt := now;
     text := normalizedText;
     textChars := length normalizedText;
     textWords :=
       match normalizedText with
       | [] => 0
       | _ :: _ => length (split re_ws_run normalizedText)
       end;
     cloudinary := cloud;
     sourceForAnalysis :=
       if includes (lit "pdf") (file_mimetype file) && belowAnalysisSignal normalizedText
       then Some {| mimeType := orElse (file_mimetype file) (lit "application/pdf");
                    data := buffer file |}
       else None |}.

Fixpoint uploadLoop (files : list File) (uploaded : list MaskedDocument)
    : M W (list MaskedDocument) :=
  match files with
  | [] => ret uploaded
  | file :: rest =>
      extracted <- extractTextFromBuffer file ;;
      let normalizedText := normalizeExtractedText extracted in
      r <- call (fun w => uploadBufferToCloudinary rt w file) ;;
      cloud <- liftEither r ;;
      id <- call (randomUUID rt) ;;
      now <- call (nowISO rt) ;;
      let doc := newDocument file normalizedText cloud id now in
      st <- getState ;;
      setDocuments (<[id := doc]> (documents st)) ;;;
      uploadLoop rest (uploaded ++ [maskDocument doc])
  end.

Definition upload (files : list File) : M W Response :=
  tryCatch
    (match files with
     | [] => ret (mkResponse 400 (ErrorBody (lit "No files provided")))
     | _ :: _ =>
         uploaded <- uploadLoop files [] ;;
         ret (mkResponse 201 (UploadedBody uploaded))
     end)
    (fun error =>
       ret (mkResponse 500 (ErrorBody (orElse (message error) (lit "Upload failed"))))).

(** *** The analyze endpoint *)

(** [ids.map((id) => documents.get(id)).filter(Boolean)]: the keys that
    name a stored document, in the order of the request. *)
Definition resolveIds (ds : gmap jsstring Document) (ids : list json) : list jsstring :=
  omap (fun j =>
          match j with
          | JString s => match ds !! s with Some _ => Some s | None => None end
          | _ => None
          end) ids.

Definition detailOf (doc : Document) : Detail :=
  {| d_id := doc_id doc;
     d_name := doc_name doc;
     d_textChars := textChars doc;
     d_textPreview := slice0 120 (text doc) |}.

Definition documentBlock (doc : Document) : jsstring :=
  lit "Document: " ++ doc_name doc ++ [LF] ++ text doc.

Definition blockSeparator : jsstring := [LF; LF] ++ lit "---" ++ [LF; LF].

Definition extractedOnlyText (selected : list Document) : jsstring :=
  join [LF; LF] (List.map text selected).

Definition combinedText (selected : list Document) : jsstring :=
  slice0 (maxInputChars cfg) (join blockSeparator (List.map documentBlock selected)).

(** The end of a request that reached the model. *)
Definition finishAnalysis (selected : list Document) (analysisText : jsstring)
    (documentParts : list Part) : M W Response :=
  res <- runOptionBAnalysis analysisText documentParts ;;
  rid <- call (randomUUID rt) ;;
  now <- call (nowISO rt) ;;
  let run :=
    {| runId := rid;
       createdAt := now;
       documentIds := List.map doc_id selected;
       documentNames := List.map doc_name selected;
       result := res |} in
  st <- getState ;;
  setAnalysisRuns (<[rid := run]> (analysisRuns st)) ;;;
  ret (mkResponse 200 (AnalyzedBody rid res (List.map maskDocument selected))).

Definition analyzeBody (reqBody : option json) : M W Response :=
  match prop "documentIds" reqBody with
  | Some (JArray (i :: ids)) =>
      st <- getState ;;
      match resolveIds (documents st) (i :: ids) with
      | [] => ret (mkResponse 404 (ErrorBody (lit "No matching documents found")))
      | k :: ks =>
          (if enableOcrRecoveryOnAnalyze cfg
           then recoverWeakPdfDocuments (k :: ks) else ret tt) ;;;
          st' <- getState ;;
          let selected := lookupAll (documents st') (k :: ks) in
          let extractedOnly := extractedOnlyText selected in
          let weak := belowAnalysisSignal extractedOnly in
          documentParts <- (if weak then buildDocumentParts selected else ret []) ;;
          let combined := combinedText selected in
          let analysisText := if weak then extractedOnly else combined in
          match weak, documentParts with
          | true, [] =>
              ret (mkResponse 400
                     (InsufficientBody insufficientText (List.map detailOf selected)))
          | _, _ => finishAnalysis selected analysisText documentParts
          end
      end
  | _ => ret (mkResponse 400 (ErrorBody (lit "documentIds must be a non-empty array")))
  end.

Definition analyzeCatch (error : jserror) : Response :=
  match parseGeminiQuotaError error with
  | Some quota =>
      mkResponse 429
        (RateLimitedBody (quota_message quota) (quota_retryAfterSeconds quota))
  | None =>
      mkResponse 500 (ErrorBody (orElse (message error) (lit "Analysis failed")))
  end.

Definition analyze (reqBody : option json) : M W Response :=
  tryCatch (analyzeBody reqBody) (fun error => ret (analyzeCatch error)).

(** The text input that [analyzeBody] hands to the analyzer for a
    selection. *)
Definition analysisTextFor (selected : list Document) : jsstring :=
  if belowAnalysisSignal (extractedOnlyText selected)
  then extractedOnlyText selected
  else combinedText selected.

(** The requests that change the stores, and the server run on a
    sequence of them. *)
Inductive Request : Type :=
| PostUpload (files : list File)
| PostAnalyze (reqBody : option json).

Definition serve (req : Request) : M W Response :=
  match req with
  | PostUpload files => upload files
  | PostAnalyze reqBody => analyze reqBody
  end.

Fixpoint serveAll (reqs : list Request) (st : State W) : State W :=
  match reqs with
  | [] => st
  | req :: rest => serveAll rest (snd (serve req st))
  end.

End Server.

(** *** The limits of the upload route

    The route runs its handler behind [upload.array("files", 10)], with
    [limits: { fileSize }] read from [MAX_FILE_SIZE_BYTES]: the handler
    sees a request of at most 10 files, each with fewer bytes than the size
    limit. *)
Definition maxUploadFiles : nat := 10.

Definition defaultMaxFileSizeBytes : Z := 15 * 1024 * 1024.

Definition withinUploadLimits (maxFileSizeBytes : Z) (files : list File) : bool :=
  (length files <=? maxUploadFiles)
  && forallb (fun file => (Z.of_nat (length (buffer file)) <? maxFileSizeBytes)%Z) files.

(** ** The CSV export of a run *)

(** [value ?? "Not mentioned"] *)
Definition valueOrNA (value : option jsstring) : jsstring :=
  match value with
  | Some s => s
  | None => lit "Not mentioned"
  end.

(** [r.test(s)] *)
Definition test (r : regex) (s : jsstring) : bool :=
  match exec r s with
  | Some _ => true
  | None => false
  end.

(** The two patterns of [escapeCsv]: one of the double quote, the comma
    and the line feed; and the double quote. *)
Definition re_csv_special : regex :=
  Class (fun c => ((c =? 34) || (c =? 44) || (c =? 10))%N).
Definition re_dquote : regex := Class (chr 34).

(** The text of a cell, [String(value ?? empty)]: the text itself for a
    text, the empty text for [null] and [undefined]. *)
Definition escapeCsv (value : option jsstring) : jsstring :=
  let stringValue := match value with Some s => s | None => [] end in
  if test re_csv_special stringValue
  then DQ ++ replace_all re_dquote (DQ ++ DQ) stringValue ++ DQ
  else stringValue.

(** The rows pushed by [buildResultCsv], in the order of the pushes.  All
    their cells are texts. *)
Definition csvRows (run : Run) : list (list jsstring) :=
  let r := result run in
  [ [lit "Run ID"; runId run];
    [lit "Created At"; createdAt run];
    [lit "Documents"; join (lit " | ") (documentNames run)];
    [lit "Tone"; tone r];
    [lit "Tone Summary"; valueOrNA (tone_summary r)];
    [lit "Confidence"; confidence r];
    [lit "Guidance - Revenue"; valueOrNA (revenue (forward_guidance r))];
    [lit "Guidance - Margin"; valueOrNA (margin (forward_guidance r))];
    [lit "Guidance - Capex"; valueOrNA (capex (forward_guidance r))];
    [lit "Guidance - Tax Rate"; valueOrNA (tax_rate (forward_guidance r))];
    [lit "Capacity Utilization Trend"; valueOrNA (capacity_utilization_trends r)] ]
  ++ imap (fun i v => [lit "Key Positive " ++ decimal (N.of_nat (i + 1)); v])
       (key_positives r)
  ++ imap (fun i v => [lit "Key Concern " ++ decimal (N.of_nat (i + 1)); v])
       (key_concerns r)
  ++ imap (fun i v => [lit "Growth Initiative " ++ decimal (N.of_nat (i + 1)); v])
       (growth_initiatives r)
  ++ imap (fun i v => [lit "Missing Section " ++ decimal (N.of_nat (i + 1)); v])
       (missing_sections r)
  ++ imap (fun i v =>
             [lit "Evidence " ++ decimal (N.of_nat (i + 1));
              quote v ++ lit " (Source: " ++ section v ++ lit ")"])
       (evidence_quotes r).

Definition buildResultCsv (run : Run) : jsstring :=
  join [LF]
    (List.map
       (fun row => join (lit ",") (List.map (fun cell => escapeCsv (Some cell)) row))
       (csvRows run)).

(** *** The download endpoints: [GET /api/result/:runId] and
    [GET /api/result/:runId/csv] *)

Inductive Download : Type :=
| RunJson (run : Run)
| CsvFile (contentType contentDisposition content : jsstring)
| NotFound (error : jsstring).

Definition getResult {W : Type} (rid : jsstring) (st : State W) : nat * Download :=
  match analysisRuns st !! rid with
  | None => (404, NotFound (lit "Run not found"))
  | Some run => (200, RunJson run)
  end.

Definition getResultCsv {W : Type} (rid : jsstring) (st : State W) : nat * Download :=
  match analysisRuns st !! rid with
  | None => (404, NotFound (lit "Run not found"))
  | Some run =>
      (200,
       CsvFile (lit "text/csv")
         (lit "attachment; filename=option-b-" ++ runId run ++ lit ".csv")
         (buildResultCsv run))
  end.

(** ** The storage service *)

(** The code units that [sanitize] keeps: [a-z], [0-9], [-] and [_]. *)
Definition isPublicIdUnit (c : N) : bool :=
  ((97 <=? c) && (c <=? 122) || isDigit c || (c =? 45) || (c =? 95))%N.

(** [/[^a-z0-9-_]/g] *)
Definition re_unsafe : regex := Class (fun c => negb (isPublicIdUnit c)).

(** [s.split(sep)] for a separator [sep] of one code unit.  [acc] is the
    piece collected since the last separator. *)
Fixpoint splitOn (sep : N) (acc : jsstring) (s : jsstring) : list jsstring :=
  match s with
  | [] => [acc]
  | c :: t => if (c =? sep)%N then acc :: splitOn sep [] t else splitOn sep (acc ++ [c]) t
  end.

(** The options given to the upload stream. *)
Record UploadOptions := mkUploadOptions {
  resource_type : jsstring;
  folder : jsstring;
  public_id : jsstring;
  format : option jsstring;
  use_filename : bool;
  filename_override : jsstring
}.

(** The environment variables of the storage service. *)
Record StorageEnv := mkStorageEnv {
  CLOUDINARY_CLOUD_NAME : option jsstring;
  CLOUDINARY_API_KEY : option jsstring;
  CLOUDINARY_API_SECRET : option jsstring;
  CLOUDINARY_FOLDER : option jsstring
}.

(** An environment variable is truthy when it is set and not empty. *)
Definition isSet (v : option jsstring) : bool :=
  match v with
  | Some (_ :: _) => true
  | _ => false
  end.

Module CloudinaryService.
Section Service.

Context {W : Type}.
Variable toLowerCase : jsstring -> jsstring.
Variable env : StorageEnv.
(** [Date.now()] and the upload stream of the SDK, which answers with the
    stored resource or with an error. *)
Variable dateNow : W -> W * N.
Variable upload_stream : W -> UploadOptions -> Buffer -> W * (jserror + Cloudinary).

Definition sanitize (value : jsstring) : jsstring :=
  replace_all re_unsafe (lit "-") (toLowerCase value).

Definition getExtensionFromName (name : jsstring) : option jsstring :=
  let parts := splitOn 46 [] name in
  if 1 <? length parts then
    match last parts with
    | Some e => Some (toLowerCase e)
    | None => None
    end
  else None.

Definition uploadOptions (now : N) (filename : jsstring) : UploadOptions :=
  {| resource_type := lit "raw";
     folder := match CLOUDINARY_FOLDER env with
               | Some (c :: t) => c :: t
               | _ => lit "research-tool"
               end;
     public_id := decimal now ++ lit "-" ++ sanitize filename;
     format := getExtensionFromName filename;
     use_filename := false;
     filename_override := filename |}.

Definition uploadBufferToCloudinary (w : W) (file : File)
    : W * (jserror + Cloudinary) :=
  if negb (isSet (CLOUDINARY_CLOUD_NAME env))
     || negb (isSet (CLOUDINARY_API_KEY env))
     || negb (isSet (CLOUDINARY_API_SECRET env))
  then (w, inl (Error (lit "Cloudinary credentials are missing in environment variables")))
  else
    let (w1, now) := dateNow w in
    upload_stream w1 (uploadOptions now (originalname file)) (buffer file).

End Service.
End CloudinaryService.

(** The runtime whose storage oracle is the storage service. *)
Definition withStorageService {W : Type} (rt : Runtime W) (env : StorageEnv)
    (dateNow : W -> W * N)
    (upload_stream : W -> UploadOptions -> Buffer -> W * (jserror + Cloudinary))
    : Runtime W :=
  {| toLowerCase := toLowerCase rt;
     syntaxErrorMessage := syntaxErrorMessage rt;
     utf8Decode := utf8Decode rt;
     pdfParse := pdfParse rt;
     mammothExtractRawText := mammothExtractRawText rt;
     uploadBufferToCloudinary :=
       CloudinaryService.uploadBufferToCloudinary (toLowerCase rt) env dateNow
         upload_stream;
     fetch := fetch rt;
     generateContent := generateContent rt;
     randomUUID := randomUUID rt;
     nowISO := nowISO rt |}.

(** ** The selection of documents in the frontend *)

(** [set.add(x)] on a set listed in insertion order. *)
Definition setAdd (s : list jsstring) (x : jsstring) : list jsstring :=
  if existsb (str_eqb x) s then s else s ++ [x].

(** [[...new Set(xs)]] *)
Definition newSet (xs : list jsstring) : list jsstring := fold_left setAdd xs [].

(** The new selection of [toggleDocument]:
    [prev.includes(id) ? prev.filter((v) => v !== id) : [...prev, id]] *)
Definition toggleDocument (id : jsstring) (prev : list jsstring) : list jsstring :=
  if existsb (str_eqb id) prev
  then List.filter (fun v => negb (str_eqb v id)) prev
  else prev ++ [id].

(** The new selection of [handleUpload] after an upload that answered
    with [docs]. *)
Definition selectUploaded (docs : list MaskedDocument) (prev : list jsstring)
    : list jsstring :=
  newSet (prev ++ List.map m_id docs).

(** [canAnalyze] *)
Definition canAnalyze (selectedIds : list jsstring) (isUploading isAnalyzing : bool)
    : bool :=
  (0 <? length selectedIds) && negb isUploading && negb isAnalyzing.

(** The body of the request of [runAnalysis], as the JSON body parser of
    the server reads it: [{ documentIds: selectedIds }]. *)
Definition analysisRequest (selectedIds : list jsstring) : option json :=
  Some (JObject [(lit "documentIds", JArray (List.map JString selectedIds))]).


(** ** A runtime to run the server on concrete requests

    The world counts the identifiers handed out and records the requests
    sent to the model; the network and the model answer by fixed tables.
    Lower-casing is the one of ECMAScript on the code units below 256,
    which is all the concrete requests below contain. *)

Record World := mkWorld {
  issued : nat;
  requests : list (list Part)
}.

Definition lowerUnit (c : N) : N :=
  if ((65 <=? c) && (c <=? 90))%N then (c + 32)%N
  else if ((192 <=? c) && (c <=? 222) && negb (c =? 215))%N then (c + 32)%N
  else c.

Definition toLowerCaseLatin1 (s : jsstring) : jsstring := List.map lowerUnit s.

Definition scriptedRuntime (model : list Part -> jserror + jsstring)
    (net : jsstring -> jserror + FetchResponse) : Runtime World :=
  {| toLowerCase := toLowerCaseLatin1;
     syntaxErrorMessage := fun _ => lit "Unexpected token in JSON";
     utf8Decode := fun b => b;
     pdfParse := fun _ => inr [];
     mammothExtractRawText := fun b => inr b;
     uploadBufferToCloudinary := fun w f =>
       (w, inr (mkCloudinary (lit "https://files.example/" ++ originalname f)
                             (originalname f) (lit "raw")));
     fetch := fun w u => (w, net u);
     generateContent := fun w parts =>
       (mkWorld (issued w) (requests w ++ [parts]), model parts);
     randomUUID := fun w =>
       (mkWorld (S (issued w)) (requests w), lit "id-" ++ decimal (N.of_nat (issued w)));
     nowISO := fun w => (w, lit "2026-01-01T00:00:00.000Z") |}.

Definition offline (_ : jsstring) : jserror + FetchResponse :=
  inl (Error (lit "fetch failed")).

Definition silentModel (_ : list Part) : jserror + jsstring := inr [].

Definition world0 : World := mkWorld 0 [].

(** A stored document with the counts of its text. *)
Definition sampleDocument (id name mimetype body : string) (payload : Buffer)
    : Document :=
  {| doc_id := lit id;
     doc_name := lit name;
     doc_mimetype := lit mimetype;
     doc_size := length payload;
     uploadedAt := lit "2026-01-01T00:00:00.000Z";
     text := lit body;
     textChars := length (lit body);
     textWords := length (List.filter nonEmpty (split re_ws_run (lit body)));
     cloudinary := mkCloudinary [] [] [];
     sourceForAnalysis :=
       match payload with
       | [] => None
       | _ :: _ => Some (mkSource (lit mimetype) payload)
       end |}.

Definition storeOf (docs : list Document) : State World :=
  mkState (list_to_map (List.map (fun d => (doc_id d, d)) docs)) ∅ world0.

Definition requestFor (ids : list string) : option json :=
  Some (JObject [(lit "documentIds", JArray (List.map (fun i => JString (lit i)) ids))]).


(** ** A runtime that records the requests to the model

    [recording rt] answers as [rt] does, on the first component of the
    world, and keeps in the second component the requests made to the
    model so far, oldest first. *)

Definition recording {W : Type} (rt : Runtime W) : Runtime (W * list (list Part)) :=
  {| toLowerCase := toLowerCase rt;
     syntaxErrorMessage := syntaxErrorMessage rt;
     utf8Decode := utf8Decode rt;
     pdfParse := pdfParse rt;
     mammothExtractRawText := mammothExtractRawText rt;
     uploadBufferToCloudinary := fun w f =>
       let (w', r) := uploadBufferToCloudinary rt (fst w) f in ((w', snd w), r);
     fetch := fun w u =>
       let (w', r) := fetch rt (fst w) u in ((w', snd w), r);
     generateContent := fun w parts =>
       let (w', r) := generateContent rt (fst w) parts in ((w', snd w ++ [parts]), r);
     randomUUID := fun w =>
       let (w', r) := randomUUID rt (fst w) in ((w', snd w), r);
     nowISO := fun w =>
       let (w', r) := nowISO rt (fst w) in ((w', snd w), r) |}.

(** The requests made to the model up to a state. *)
Definition sentToModel {W : Type} (st : State (W * list (list Part)))
    : list (list Part) :=
  snd (world st).

(** A state of the recording runtime with no request made yet. *)
Definition unrecorded {W : Type} (st : State W) : State (W * list (list Part)) :=
  mkState (documents st) (analysisRuns st) (world st, []).


(** ** Notions used to state the properties *)

(** The length of the longest prefix of [s] made of code units in [p]. *)
Fixpoint runLength (p : N -> bool) (s : jsstring) : nat :=
  match s with
  | c :: t => if p c then S (runLength p t) else 0
  | [] => 0
  end.

(** [m] leaves the component [f] of the state as it is. *)
Definition keeps {W A X : Type} (f : State W -> X) (m : M W A) : Prop :=
  forall st, f (snd (m st)) = f st.

(** [m] always returns. *)
Definition neverThrows {W A : Type} (m : M W A) : Prop :=
  forall st, exists a, fst (m st) = inr a.

(** The invariant of a stored document. *)
Definition docInvariant (d : Document) : Prop :=
  textChars d = length (text d) /\ (textWords d = 0 <-> text d = []).

Definition storeInvariant (ds : gmap jsstring Document) : Prop :=
  map_Forall (fun _ d => docInvariant d) ds.

(** The first [n] PDF-type documents of a selection, in its order. *)
Fixpoint firstPdfs {W : Type} (rt : Runtime W) (n : nat) (selected : list Document)
    : list Document :=
  match selected with
  | [] => []
  | doc :: rest =>
      if isPdfDoc rt doc then
        match n with
        | 0 => []
        | S n' => doc :: firstPdfs rt n' rest
        end
      else firstPdfs rt n rest
  end.

(** The attachment of a document whose bytes were retrieved. *)
Definition attachmentOf (doc : Document) (bytes : Buffer) : list Part :=
  [TextPart (lit "Source Document: " ++ doc_name doc);
   InlineData (lit "application/pdf") bytes].

(** What one candidate contributes: its attachment when its bytes are
    retrieved, are not empty and fit the byte cap, and nothing otherwise. *)
Definition attachOne {W : Type} (rt : Runtime W) (cfg : Config) (doc : Document)
    : M W (list Part) :=
  fun st =>
    match getDocumentBuffer rt doc st with
    | (inr (Some (b :: bs)), st') =>
        if (Z.of_nat (length (b :: bs)) <=? maxMultimodalBytes cfg)%Z
        then (inr (attachmentOf doc (b :: bs)), st')
        else (inr [], st')
    | (_, st') => (inr [], st')
    end.

(** The candidates are tried one after the other, whatever the earlier
    ones contributed. *)
Fixpoint attachAll {W : Type} (rt : Runtime W) (cfg : Config) (docs : list Document)
    : M W (list Part) :=
  match docs with
  | [] => ret []
  | doc :: rest =>
      fun st =>
        match attachOne rt cfg doc st with
        | (inr ps, st') =>
            match attachAll rt cfg rest st' with
            | (inr qs, st'') => (inr (ps ++ qs), st'')
            | (inl e, st'') => (inl e, st'')
            end
        | (inl e, st') => (inl e, st')
        end
  end.

Definition contributionOf (cfg : Config) (doc : Document) (ps : list Part) : Prop :=
  ps = []
  \/ exists bytes,
       bytes <> []
       /\ (Z.of_nat (length bytes) <= maxMultimodalBytes cfg)%Z
       /\ ps = attachmentOf doc bytes.

(** The state in which the selection is read: the one left by OCR
    recovery when it is enabled. *)
Definition afterRecovery {W : Type} (rt : Runtime W) (cfg : Config)
    (keys : list jsstring) (st : State W) : State W :=
  snd ((if enableOcrRecoveryOnAnalyze cfg
        then recoverWeakPdfDocuments rt cfg keys else ret tt) st).

(** ** Concrete requests *)

Definition keyedConfig : Config := defaultConfig (Some (lit "key")).

Definition recoveringConfig : Config :=
  {| maxInputChars := 160000;
     minAnalysisSignal := 40;
     maxMultimodalDocs := 3;
     maxMultimodalBytes := 15 * 1024 * 1024;
     enableOcrRecoveryOnAnalyze := true;
     minTextSignal := 120;
     enableOcrOnUpload := false;
     GEMINI_API_KEY := Some (lit "key");
     retryUnderfilled := false |}.

(** A model that reads a scanned page when asked for OCR and answers an
    empty object to an analysis. *)
Definition readingModel (parts : list Part) : jserror + jsstring :=
  match parts with
  | [TextPart _; InlineData _ _] => inr (lit "  Revenue grew   5% in Q3 ")
  | _ => inr (lit "{}")
  end.

Definition pdfBytes : Buffer := [37; 80; 68; 70]%N.

Definition scannedPdf : File :=
  mkFile (lit "q3.pdf") (lit "application/pdf") 4 pdfBytes.

Definition transcript : Document :=
  sampleDocument "b" "notes.txt" "text/plain"
    "Revenue grew 5% in the third quarter and margins expanded by 150 bps" [].

Definition weakPdf : Document :=
  sampleDocument "a" "q3.pdf" "application/pdf" "Revenue up 5%" [].

Definition weakPdfWithBytes : Document :=
  sampleDocument "c" "q4.pdf" "application/pdf" "Revenue up 5%" pdfBytes.

Definition recoveredDocument : Document :=
  {| doc_id := lit "id-0";
     doc_name := lit "q3.pdf";
     doc_mimetype := lit "application/pdf";
     doc_size := 4;
     uploadedAt := lit "2026-01-01T00:00:00.000Z";
     text := lit "Revenue grew 5% in Q3";
     textChars := 21;
     textWords := 5;
     cloudinary :=
       mkCloudinary (lit "https://files.example/q3.pdf") (lit "q3.pdf") (lit "raw");
     sourceForAnalysis := Some (mkSource (lit "application/pdf") pdfBytes) |}.

Definition pdfNamed (id name : string) (payload : Buffer) : Document :=
  sampleDocument id name "application/pdf" "" payload.

Definition fourPdfs : list Document :=
  [pdfNamed "p1" "one.pdf" [];
   sampleDocument "t" "notes.txt" "text/plain" "" pdfBytes;
   pdfNamed "p2" "two.pdf" pdfBytes;
   pdfNamed "p3" "three.pdf" pdfBytes;
   pdfNamed "p4" "four.pdf" pdfBytes].

(** The entry kept for an item of [evidence_quotes], if any. *)
Definition keptEvidence (item : json) : option Evidence :=
  match prop "quote" (Some item) with
  | Some (JString q) =>
      if 10 <? length (trim q)
      then Some (mkEvidence (trim q)
                   match prop "section" (Some item) with
                   | Some (JString s) => trim s
                   | _ => []
                   end)
      else None
  | _ => None
  end.

(** What a list of strings must satisfy to be left as it is. *)
Definition cleanString (s : jsstring) : Prop := trim s = s /\ nonEmpty s = true.

(** What a list of evidence entries must satisfy to be left as it is. *)
Definition cleanEvidence (e : Evidence) : Prop :=
  trim (quote e) = quote e /\ 10 < length (quote e) /\ trim (section e) = section e.

(** [s] starts with a text that agrees with [p] code unit by code unit
    under [f]. *)
Fixpoint prefixMatch (f : N -> N -> bool) (p s : jsstring) : bool :=
  match p, s with
  | [], _ => true
  | c :: p', x :: s' => f c x && prefixMatch f p' s'
  | _ :: _, [] => false
  end.

Definition isLetterS (c : N) : bool := ((c =? 115) || (c =? 83))%N.

(** A decimal number followed by the letter s, read at the start of [s]:
    the number of code units read and the number. *)
Definition readSeconds (s : jsstring) : option (nat * jsstring) :=
  match s with
  | d :: t =>
      if isDigit d then
        let n1 := S (runLength isDigit t) in
        match drop n1 s with
        | u :: rest =>
            if isLetterS u then Some (S n1, take n1 s)
            else if (u =? 46)%N then
              match rest with
              | d2 :: t2 =>
                  if isDigit d2 then
                    let n2 := S (runLength isDigit t2) in
                    match drop n2 rest with
                    | v :: _ =>
                        if isLetterS v
                        then Some (S (n1 + 1 + n2), take (n1 + 1 + n2) s)
                        else None
                    | [] => None
                    end
                  else None
              | [] => None
              end
            else None
        | [] => None
        end
      else None
  | [] => None
  end.

(** The phrase [retry in], white space, a decimal number, [s], read at
    the start of [s]. *)
Definition readRetryIn (s : jsstring) : option (nat * jsstring) :=
  if prefixMatch chr_i (lit "retry in") s then
    match drop 8 s with
    | w :: t =>
        if isWhiteSpace w then
          let n := S (runLength isWhiteSpace t) in
          match readSeconds (drop n (drop 8 s)) with
          | Some (len, number) => Some (8 + n + len, number)
          | None => None
          end
        else None
    | [] => None
    end
  else None.

(** The leftmost place of a text where [read] succeeds. *)
Fixpoint firstPhrase (read : jsstring -> option (nat * jsstring)) (s : jsstring)
    : option jsstring :=
  match read s with
  | Some (_, number) => Some number
  | None =>
      match s with
      | [] => None
      | _ :: t => firstPhrase read t
      end
  end.

(** [read] moved [n] code units to the right. *)
Definition shift (n : nat) (o : option (nat * jsstring)) : option (nat * jsstring) :=
  match o with
  | Some (len, x) => Some (n + len, x)
  | None => None
  end.

(** Digits followed by the letter s. *)
Definition readDigitsS (s : jsstring) : option (nat * jsstring) :=
  match s with
  | d :: t =>
      if isDigit d then
        let n := S (runLength isDigit t) in
        match drop n s with
        | u :: _ => if isLetterS u then Some (S n, take n s) else None
        | [] => None
        end
      else None
  | [] => None
  end.

Definition readQuoted (s : jsstring) : option (nat * jsstring) :=
  match s with
  | q :: r => if (q =? 34)%N then shift 1 (readDigitsS r) else None
  | [] => None
  end.

Definition readOptBackslash (next : jsstring -> option (nat * jsstring))
    (s : jsstring) : option (nat * jsstring) :=
  match s with
  | c :: t => if (c =? 92)%N then shift 1 (next t) else next s
  | [] => next []
  end.

Definition readColon (s : jsstring) : option (nat * jsstring) :=
  match s with
  | q :: c :: r =>
      if (q =? 34)%N && (c =? 58)%N
      then shift 2 (readOptBackslash readQuoted r)
      else None
  | _ => None
  end.

(** The field [retryDelay], a double quote, a colon, a double quote,
    digits and [s], with or without a backslash before each double quote,
    read at the start of [s]. *)
Definition readRetryDelay (s : jsstring) : option (nat * jsstring) :=
  if prefixMatch chr_i (lit "retryDelay") s
  then shift 10 (readOptBackslash readColon (drop 10 s))
  else None.

(** What a pattern reads at a position, whatever follows the pattern. *)
Definition reads (r : regex) (read : jsstring -> option (nat * jsstring)) : Prop :=
  forall (R : Type) i s cap (k : nat -> jsstring -> option jsstring -> option R),
    rmatch r i s cap k
    = match read s with
      | Some (len, number) => k (i + len) (drop len s) (Some number)
      | None => None
      end.

(** The texts on which [Number] is modelled: digits, or digits, a dot and
    digits. *)
Definition decimalLiteral (s : jsstring) : bool :=
  match takeDigits s, skipDigits s with
  | _ :: _, [] => true
  | _ :: _, c :: fp => (c =? 46)%N && nonEmpty fp && forallb isDigit fp
  | _, _ => false
  end.

(** A model call that fails on a quota. *)
Definition quotaModel (_ : list Part) : jserror + jsstring :=
  inl (Error (lit "[GoogleGenerativeAI Error]: [429 Too Many Requests] You exceeded your current quota. Please retry in 50.417968038s.")).

(** The index of the last closing brace of a text. *)
Fixpoint lastBrace (s : jsstring) : option nat :=
  match s with
  | [] => None
  | c :: t =>
      match lastBrace t with
      | Some j => Some (S j)
      | None => if (c =? 125)%N then Some 0 else None
      end
  end.

(** The part of a text from its first opening brace to its last closing
    brace. *)
Fixpoint bracedSpan (s : jsstring) : option jsstring :=
  match s with
  | [] => None
  | c :: t =>
      if (c =? 123)%N then
        match lastBrace t with
        | Some j => Some (c :: take (S j) t)
        | None => bracedSpan t
        end
      else bracedSpan t
  end.

(** A text without its opening fence: three backquotes at the start, the
    tag [json] in any case when it follows them, and the white space after
    these. *)
Definition stripOpenFence (s : jsstring) : jsstring :=
  if prefixMatch chr_i (lit "```") s then
    let r := drop 3 s in
    trimStart (if prefixMatch chr_i (lit "json") r then drop 4 r else r)
  else s.

(** A text without its closing fence: three backquotes at the end and the
    white space before them. *)
Definition stripCloseFence (s : jsstring) : jsstring :=
  if endsWith (lit "```") s then trimEnd (take (length s - 3) s) else s.

(** The text is white space followed by three backquotes. *)
Definition fenceTail (s : jsstring) : bool :=
  str_eqb (drop (runLength isWhiteSpace s) s) (lit "```").

(** The part of a text before the leftmost place from which the text is
    white space followed by three backquotes. *)
Fixpoint cutCloseFence (s : jsstring) : option jsstring :=
  if fenceTail s then Some []
  else
    match s with
    | [] => None
    | c :: t => option_map (cons c) (cutCloseFence t)
    end.

(** ** Further notions used to state the properties *)

(** A reader of comma-separated values with the quoting of RFC 4180: a
    cell that starts with a double quote runs to the next double quote
    that is not doubled, and a doubled double quote in it stands for one;
    a comma ends a cell and a line feed ends a row. *)
Inductive csvMode : Type :=
| CellStart
| Unquoted
| Quoted
| QuoteSeen.

Fixpoint readCsvFrom (mode : csvMode) (rows : list (list jsstring))
    (row : list jsstring) (cell : jsstring) (s : jsstring) : list (list jsstring) :=
  match s with
  | [] => rows ++ [row ++ [cell]]
  | c :: t =>
      let outside :=
        if (c =? 44)%N then readCsvFrom CellStart rows (row ++ [cell]) [] t
        else if (c =? 10)%N then readCsvFrom CellStart (rows ++ [row ++ [cell]]) [] [] t
        else readCsvFrom Unquoted rows row (cell ++ [c]) t in
      match mode with
      | CellStart => if (c =? 34)%N then readCsvFrom Quoted rows row cell t else outside
      | Unquoted => outside
      | Quoted =>
          if (c =? 34)%N then readCsvFrom QuoteSeen rows row cell t
          else readCsvFrom Quoted rows row (cell ++ [c]) t
      | QuoteSeen =>
          if (c =? 34)%N then readCsvFrom Quoted rows row (cell ++ [c]) t else outside
      end
  end.

Definition readCsv (s : jsstring) : list (list jsstring) :=
  readCsvFrom CellStart [] [] [] s.

(** What follows a cell: the end of the text, a comma or a line feed. *)
Definition cellBoundary (t : jsstring) : Prop :=
  match t with
  | [] => True
  | c :: _ => c = 44%N \/ c = 10%N
  end.

(** The line written for a row. *)
Definition csvLine (row : list jsstring) : jsstring :=
  join (lit ",") (List.map (fun cell => escapeCsv (Some cell)) row).

(** A blank: a space or a tab. *)
Definition isBlank (c : N) : bool := ((c =? SPACE) || (c =? TAB))%N.

(** A text in which every run of code units in [p] is replaced by the one
    code unit [x].  [prev] tells that the code unit before belongs to the
    current run. *)
Fixpoint squeeze (p : N -> bool) (x : N) (prev : bool) (s : jsstring) : jsstring :=
  match s with
  | [] => []
  | c :: t =>
      if p c then (if prev then squeeze p x true t else x :: squeeze p x true t)
      else c :: squeeze p x false t
  end.

(** A text in which every run of line feeds is cut down to its first two.
    [seen] counts the line feeds of the current run read so far. *)
Fixpoint capLineFeeds (seen : nat) (s : jsstring) : jsstring :=
  match s with
  | [] => []
  | c :: t =>
      if (c =? LF)%N then
        if seen <? 2 then c :: capLineFeeds (S seen) t else capLineFeeds (S seen) t
      else c :: capLineFeeds 0 t
  end.

(** A text in which every carriage return followed by a line feed is
    replaced by a line feed.  [skip] tells that the current code unit is
    the line feed of a pair already replaced. *)
Fixpoint joinLineEnds (skip : bool) (s : jsstring) : jsstring :=
  match s with
  | [] => []
  | c :: t =>
      if skip then joinLineEnds false t
      else if (c =? CR)%N && startsWith [LF] t then LF :: joinLineEnds true t
      else c :: joinLineEnds false t
  end.

(** Every document of a store is filed under its own identifier. *)
Definition keyedDocuments (ds : gmap jsstring Document) : Prop :=
  map_Forall (fun k d => doc_id d = k) ds.

(** A document with the three fields that OCR recovery overwrites. *)
Definition withRecoveredText (doc : Document) (txt : jsstring) : Document :=
  {| doc_id := doc_id doc;
     doc_name := doc_name doc;
     doc_mimetype := doc_mimetype doc;
     doc_size := doc_size doc;
     uploadedAt := uploadedAt doc;
     text := txt;
     textChars := length txt;
     textWords := length (List.filter nonEmpty (split re_ws_run txt));
     cloudinary := cloudinary doc;
     sourceForAnalysis := sourceForAnalysis doc |}.

(** What OCR recovery does to a store: no key is added or removed, and
    the document under a key is left as it is or, for the keys in
    [allowed], is given a new text that is normalised and not empty. *)
Definition recoveredStore (allowed : jsstring -> Prop)
    (ds ds' : gmap jsstring Document) : Prop :=
  forall k,
    match ds !! k with
    | None => ds' !! k = None
    | Some d =>
        exists d',
          ds' !! k = Some d'
          /\ (d' = d
              \/ (allowed k
                  /\ exists ocr,
                       normalizeExtractedText ocr <> []
                       /\ d' = withRecoveredText d (normalizeExtractedText ocr)))
    end.

(** The entry of the upload response for a file: the name, type and size
    of the file, the length and the first 220 code units of a normalised
    text, and an identifier under which the store [ds] holds a document. *)
Definition uploadedAs (ds : gmap jsstring Document) (file : File)
    (m : MaskedDocument) : Prop :=
  m_name m = originalname file
  /\ m_mimetype m = file_mimetype file
  /\ m_size m = file_size file
  /\ is_Some (ds !! m_id m)
  /\ exists extracted,
       m_textChars m = length (normalizeExtractedText extracted)
       /\ m_textPreview m = take 220 (normalizeExtractedText extracted).

(** A nullable text of a normalised result: absent, or trimmed, not empty
    and neither of the two texts that stand for an absent value. *)
Definition cleanNullable (toLowerCase : jsstring -> jsstring)
    (v : option jsstring) : Prop :=
  match v with
  | None => True
  | Some s =>
      cleanString s
      /\ toLowerCase s <> lit "null"
      /\ toLowerCase s <> lit "not mentioned"
  end.

(** A list of a normalised result: at most [max] texts, each trimmed and
    not empty. *)
Definition cleanList (max : nat) (l : list jsstring) : Prop :=
  length l <= max /\ Forall cleanString l.

(** The shape of a normalised result. *)
Definition wellFormedResult (toLowerCase : jsstring -> jsstring) (r : Result) : Prop :=
  In (tone r) toneAllowed
  /\ In (confidence r) confidenceAllowed
  /\ cleanNullable toLowerCase (tone_summary r)
  /\ cleanNullable toLowerCase (revenue (forward_guidance r))
  /\ cleanNullable toLowerCase (margin (forward_guidance r))
  /\ cleanNullable toLowerCase (capex (forward_guidance r))
  /\ cleanNullable toLowerCase (tax_rate (forward_guidance r))
  /\ cleanNullable toLowerCase (capacity_utilization_trends r)
  /\ cleanList 6 (key_positives r)
  /\ cleanList 6 (key_concerns r)
  /\ cleanList 6 (growth_initiatives r)
  /\ cleanList 12 (missing_sections r)
  /\ Forall cleanEvidence (evidence_quotes r)
  /\ 1 <= length (evidence_quotes r) <= 8.

(** What holds of a stored run: it is filed under its own identifier, it
    lists as many names as identifiers, at least one, every identifier
    names a document of the store [ds], and its result is normalised. *)
Definition runInvariant (toLowerCase : jsstring -> jsstring)
    (ds : gmap jsstring Document) (k : jsstring) (r : Run) : Prop :=
  runId r = k
  /\ documentIds r <> []
  /\ length (documentNames r) = length (documentIds r)
  /\ Forall (fun id => is_Some (ds !! id)) (documentIds r)
  /\ wellFormedResult toLowerCase (result r).

Definition serverInvariant {W : Type} (rt : Runtime W) (st : State W) : Prop :=
  keyedDocuments (documents st)
  /\ map_Forall (runInvariant (toLowerCase rt) (documents st)) (analysisRuns st).

(** The number of words of a text: the places where a code unit that is
    not white space starts the text or follows white space.  [inWord]
    tells that the code unit before belongs to a word. *)
Fixpoint wordsFrom (inWord : bool) (s : jsstring) : nat :=
  match s with
  | [] => 0
  | c :: t =>
      if isWhiteSpace c then wordsFrom false t
      else (if inWord then 0 else 1) + wordsFrom true t
  end.

Definition wordCount (s : jsstring) : nat := wordsFrom false s.

(** The pieces of a text between its runs of white space.  [inSep] tells
    that the code unit before belongs to a run, [acc] is the piece
    collected since the last run. *)
Fixpoint pieces (inSep : bool) (acc : jsstring) (s : jsstring) : list jsstring :=
  match s with
  | [] => [acc]
  | c :: t =>
      if isWhiteSpace c then (if inSep then pieces true acc t else acc :: pieces true [] t)
      else pieces false (acc ++ [c]) t
  end.

(** ** Further concrete requests *)

(** A text file with enough signal, and the run that its analysis
    stores when the model answers an empty object. *)
Definition notesFile : File :=
  mkFile (lit "notes.txt") (lit "text/plain") 67
    (lit "Revenue grew 5% in the third quarter and margins expanded by 150 bps").

Definition notesRun : Run :=
  {| runId := lit "id-1";
     createdAt := lit "2026-01-01T00:00:00.000Z";
     documentIds := [lit "id-0"];
     documentNames := [lit "notes.txt"];
     result := normalizeResult toLowerCaseLatin1 (JObject []) |}.

(** A file of a type that is not supported. *)
Definition spreadsheet : File :=
  mkFile (lit "figures.xlsx") (lit "application/vnd.ms-excel") 4 pdfBytes.

(** The store after the upload of the text file. *)
Definition notesStore : State World :=
  snd (upload (scriptedRuntime readingModel offline) keyedConfig [notesFile]
         (mkState ∅ ∅ world0)).

(** A text with the line ends of Windows, a tab, two spaces in a row and
    four line feeds at its end. *)
Definition windowsText : jsstring :=
  lit "Revenue" ++ [CR; LF; TAB] ++ lit "grew  5%" ++ [LF; LF; LF; LF].

(** A storage service without credentials. *)
Definition noCredentials : StorageEnv := mkStorageEnv None None None None.

Definition fixedClock (w : World) : World * N := (w, 1767225600000%N).

Definition failingStream (w : World) (_ : UploadOptions) (_ : Buffer)
    : World * (jserror + Cloudinary) :=
  (w, inl (Error (lit "upload failed"))).

(** * Properties *)

(** ** The matcher on the patterns of the sources *)

Section RegexFacts.

Context {R : Type}.

(** With a continuation that accepts everything, a greedy repetition
    stops at the end of the longest run. *)
Lemma star_k_always (p : N -> bool) (k : nat -> jsstring -> option R) :
  (forall i s, k i s <> None) ->
  forall s i, star_k p i s k = k (i + runLength p s) (drop (runLength p s) s).
Proof.
  intros Hk s. induction s as [|c t IH]; intros i; simpl.
  - by rewrite Nat.add_0_r.
  - destruct (p c) eqn:Hp; simpl.
    + rewrite IH. replace (S i + runLength p t) with (i + S (runLength p t)) by lia.
      destruct (k _ _) eqn:E; [done|]. by apply Hk in E.
    + by rewrite Nat.add_0_r.
Qed.

End RegexFacts.

Lemma match_at_ws_run i s :
  match_at re_ws_run i s =
  match s with
  | c :: t =>
      if isWhiteSpace c
      then Some (MatchResult i (S i + runLength isWhiteSpace t) None)
      else None
  | [] => None
  end.
Proof.
  unfold match_at, re_ws_run, Plus. simpl.
  destruct s as [|c t]; [done|].
  destruct (isWhiteSpace c); [|done].
  by rewrite star_k_always.
Qed.

(** Removing every run of white space leaves the other code units. *)
Lemma replace_all_ws_from s : forall i skip,
  skip <= runLength isWhiteSpace s ->
  replace_all_from re_ws_run [] i skip s = List.filter (fun c => negb (isWhiteSpace c)) s.
Proof.
  induction s as [|c t IH]; intros i skip Hs.
  - simpl in Hs. assert (skip = 0) by lia. subst. done.
  - destruct skip as [|k].
    + cbn [replace_all_from]. rewrite match_at_ws_run. cbn [List.filter].
      destruct (isWhiteSpace c) eqn:Hc; cbn [negb m_end app].
      * replace (S i + runLength isWhiteSpace t =? i) with false
          by (symmetry; apply Nat.eqb_neq; lia).
        apply IH. lia.
      * f_equal. apply IH. lia.
    + cbn [replace_all_from List.filter]. simpl in Hs.
      destruct (isWhiteSpace c) eqn:Hc; [|lia]. cbn [negb].
      apply IH. lia.
Qed.

Lemma replace_all_ws s :
  replace_all re_ws_run [] s = List.filter (fun c => negb (isWhiteSpace c)) s.
Proof. unfold replace_all. apply replace_all_ws_from. lia. Qed.

Lemma filter_complement_length {A} (f : A -> bool) (l : list A) :
  length (List.filter (fun x => negb (f x)) l) + length (List.filter f l) = length l.
Proof.
  induction l as [|x l IH]; simpl; [done|].
  destruct (f x); simpl; lia.
Qed.

(** ** The text signal estimator *)

(** C8: the signal length of a text is the number of its code units that
    are not white space, that is its length minus the number of white
    space code units, and so it never exceeds the length of the text.
    The extraction-time weakness test measures the same quantity. *)
Theorem getSignalLength_counts_non_whitespace (value : jsstring) :
  getSignalLength value = nonWhitespaceCount value
  /\ getSignalLength value = length value - whitespaceCount value
  /\ getSignalLength value <= length value
  /\ forall cfg,
       isWeakText cfg value
       = (Z.of_nat (nonWhitespaceCount value) <? minTextSignal cfg)%Z.
Proof.
  assert (H : getSignalLength value = nonWhitespaceCount value).
  { unfold getSignalLength, nonWhitespaceCount. by rewrite replace_all_ws. }
  pose proof (filter_complement_length isWhiteSpace value) as Hl.
  unfold nonWhitespaceCount, whitespaceCount in *.
  repeat split; try lia.
  intros cfg. unfold isWeakText. by rewrite replace_all_ws.
Qed.

(** ** Slices *)

Lemma slice0_nonneg {A} (e : Z) (xs : list A) :
  (0 <= e)%Z -> slice0 e xs = take (Z.to_nat e) xs.
Proof. intros H. unfold slice0. by rewrite (proj2 (Z.ltb_ge e 0) H). Qed.

(** ** Trimming *)

Lemma trimStart_idempotent s : trimStart (trimStart s) = trimStart s.
Proof.
  induction s as [|c t IH]; simpl; [done|].
  destruct (isWhiteSpace c) eqn:Hc; [done|]. simpl. by rewrite Hc.
Qed.

Lemma trimStart_app_unit l c :
  trimStart (l ++ [c]) =
  match trimStart l with
  | [] => trimStart [c]
  | x :: u => (x :: u) ++ [c]
  end.
Proof.
  induction l as [|y l IH]; simpl; [done|].
  destruct (isWhiteSpace y); [done|]. done.
Qed.

Lemma trimEnd_cons_cases c t :
  trimEnd (c :: t) =
  match trimEnd t with
  | [] => trimStart [c]
  | x :: u => c :: x :: u
  end.
Proof.
  unfold trimEnd. simpl rev at 2. rewrite trimStart_app_unit.
  destruct (trimStart (rev t)) as [|x u] eqn:E; simpl.
  - by destruct (isWhiteSpace c).
  - rewrite rev_app_distr. simpl.
    destruct (rev u ++ [x]) eqn:E2; [by destruct (rev u)|done].
Qed.

Lemma trimStart_trimEnd s : trimStart (trimEnd s) = trimEnd (trimStart s).
Proof.
  induction s as [|c t IH]; [done|].
  rewrite trimEnd_cons_cases. simpl trimStart at 3.
  destruct (isWhiteSpace c) eqn:Hc.
  - destruct (trimEnd t) as [|x u] eqn:E.
    + simpl. rewrite Hc. exact IH.
    + simpl. rewrite Hc. exact IH.
  - rewrite trimEnd_cons_cases.
    destruct (trimEnd t) as [|x u] eqn:E; simpl; rewrite ?Hc; simpl; by rewrite ?Hc.
Qed.

Lemma trimEnd_idempotent s : trimEnd (trimEnd s) = trimEnd s.
Proof. unfold trimEnd. by rewrite rev_involutive, trimStart_idempotent. Qed.

Lemma trim_idempotent s : trim (trim s) = trim s.
Proof.
  unfold trim.
  by rewrite trimStart_trimEnd, trimStart_idempotent, trimEnd_idempotent.
Qed.

(** ** The result normalizer *)

Lemma filter_map_omap {A B} (f : B -> bool) (g : A -> B) (l : list A) :
  List.filter f (List.map g l)
  = omap (fun x => if f (g x) then Some (g x) else None) l.
Proof.
  induction l as [|x l IH]; csimpl; [done|].
  destruct (f (g x)); csimpl; by rewrite IH.
Qed.

Lemma omap_ext_eq {A B} (f g : A -> option B) (l : list A) :
  (forall x, f x = g x) -> omap f l = omap g l.
Proof. intros H. induction l as [|x l IH]; csimpl; [done|]. by rewrite H, IH. Qed.

Lemma evidence_cleaned (value : option json) :
  slice0 8
    (List.filter (fun item => 10 <? length (quote item))
       (List.map
          (fun item =>
             mkEvidence (trimmedStringOrEmpty (prop "quote" (Some item)))
                        (trimmedStringOrEmpty (prop "section" (Some item))))
          (arrayOrEmpty value)))
  = take 8 (omap keptEvidence (arrayOrEmpty value)).
Proof.
  rewrite slice0_nonneg by lia. change (Z.to_nat 8) with 8. f_equal.
  rewrite filter_map_omap. apply omap_ext_eq. intros item.
  unfold keptEvidence. cbn [quote].
  by destruct (prop "quote" (Some item)) as [[]|]; cbn [trimmedStringOrEmpty].
Qed.

Lemma strings_cleaned (l : list json) :
  Forall cleanString
    (List.filter nonEmpty
       (List.map (fun item => trimmedStringOrEmpty (Some item)) l)).
Proof.
  induction l as [|x l IH]; [constructor|].
  cbn [List.map List.filter].
  destruct (nonEmpty (trimmedStringOrEmpty (Some x))) eqn:E; [|exact IH].
  constructor; [|exact IH]. split; [|done].
  destruct x; try done. apply trim_idempotent.
Qed.

Lemma renormalize_strings (l : list jsstring) (n : nat) :
  Forall cleanString l -> length l <= n ->
  take n (List.filter nonEmpty
            (List.map (fun item => trimmedStringOrEmpty (Some item))
               (List.map JString l))) = l.
Proof.
  intros Hl. revert n. induction Hl as [|s l [Ht Hn] _ IH]; intros n Hlen; simpl.
  - by destruct n.
  - rewrite Ht, Hn. destruct n; simpl in *; [lia|].
    f_equal. apply IH. lia.
Qed.

Lemma Forall_take_list {A} (P : A -> Prop) (l : list A) n :
  Forall P l -> Forall P (take n l).
Proof. apply Forall_take. Qed.

Section NormalizerFacts.
Variable toLowerCase : jsstring -> jsstring.

Lemma normalizeStringArray_idempotent (value : option json) (max : Z) :
  (0 <= max)%Z ->
  normalizeStringArray
    (Some (JArray (List.map JString (normalizeStringArray value max)))) max
  = normalizeStringArray value max.
Proof.
  intros Hmax.
  assert (Hl : Forall cleanString (normalizeStringArray value max)
               /\ length (normalizeStringArray value max) <= Z.to_nat max).
  { unfold normalizeStringArray. rewrite slice0_nonneg by done. split.
    - apply Forall_take_list, strings_cleaned.
    - rewrite length_take. lia. }
  destruct Hl as [Hc Hlen].
  generalize dependent (normalizeStringArray value max). intros l Hc Hlen.
  unfold normalizeStringArray. rewrite slice0_nonneg by done. cbn [arrayOrEmpty].
  by apply renormalize_strings.
Qed.

Lemma normalizeNullableString_idempotent (value : option json) :
  normalizeNullableString toLowerCase
    (Some (nullable (normalizeNullableString toLowerCase value)))
  = normalizeNullableString toLowerCase value.
Proof.
  destruct value as [[]|]; try done. simpl.
  destruct (negb (nonEmpty (trim s))
            || str_eqb (toLowerCase (trim s)) (lit "null")
            || str_eqb (toLowerCase (trim s)) (lit "not mentioned")) eqn:E; [done|].
  simpl. rewrite trim_idempotent. by rewrite E.
Qed.

Lemma allowedOr_idempotent allowed value dflt :
  existsb (str_eqb dflt) allowed = true ->
  allowedOr allowed (Some (JString (allowedOr allowed value dflt))) dflt
  = allowedOr allowed value dflt.
Proof.
  intros Hd. destruct value as [[]|]; simpl; try by rewrite Hd.
  destruct (existsb (str_eqb s) allowed) eqn:E; simpl; by rewrite ?E, ?Hd.
Qed.

End NormalizerFacts.

Lemma keptEvidence_clean item e : keptEvidence item = Some e -> cleanEvidence e.
Proof.
  unfold keptEvidence.
  destruct (prop "quote" (Some item)) as [[]|]; try done.
  destruct (10 <? length (trim s)) eqn:E; [|done]. intros [= <-].
  split_and!; cbn [quote section].
  - apply trim_idempotent.
  - by apply Nat.ltb_lt.
  - destruct (prop "section" (Some item)) as [[]|]; try done. apply trim_idempotent.
Qed.

Lemma keptEvidence_fixed e : cleanEvidence e -> keptEvidence (evidenceToJson e) = Some e.
Proof.
  intros (Hq & Hl & Hs). unfold keptEvidence.
  change (prop "quote" (Some (evidenceToJson e))) with (Some (JString (quote e))).
  change (prop "section" (Some (evidenceToJson e))) with (Some (JString (section e))).
  cbv beta iota. rewrite Hq, Hs. rewrite (proj2 (Nat.ltb_lt _ _) Hl). by destruct e.
Qed.

Lemma omap_keptEvidence_clean l : Forall cleanEvidence (omap keptEvidence l).
Proof.
  induction l as [|x l IH]; csimpl; [constructor|].
  destruct (keptEvidence x) eqn:E; csimpl; [|done].
  constructor; [by eapply keptEvidence_clean|done].
Qed.

Lemma omap_keptEvidence_fixed l :
  Forall cleanEvidence l -> omap keptEvidence (List.map evidenceToJson l) = l.
Proof.
  induction 1 as [|e l He _ IH]; csimpl; [done|].
  by rewrite keptEvidence_fixed, IH.
Qed.

Lemma normalizeEvidence_omap value :
  normalizeEvidence value =
  match take 8 (omap keptEvidence (arrayOrEmpty value)) with
  | [] => [sentinelEvidence]
  | e :: es => e :: es
  end.
Proof.
  unfold normalizeEvidence. rewrite evidence_cleaned.
  by destruct (take 8 (omap keptEvidence (arrayOrEmpty value))).
Qed.

Lemma sentinel_clean : cleanEvidence sentinelEvidence.
Proof. split_and!; [by vm_compute | vm_compute; lia | by vm_compute]. Qed.

Lemma normalizeEvidence_clean value :
  Forall cleanEvidence (normalizeEvidence value)
  /\ length (normalizeEvidence value) <= 8
  /\ normalizeEvidence value <> [].
Proof.
  rewrite normalizeEvidence_omap.
  pose proof (omap_keptEvidence_clean (arrayOrEmpty value)) as Hc.
  apply (Forall_take_list _ _ 8) in Hc.
  pose proof (length_take (omap keptEvidence (arrayOrEmpty value)) 8) as Hl.
  destruct (take 8 (omap keptEvidence (arrayOrEmpty value))) as [|e es].
  - split_and!; [|simpl; lia|done]. constructor; [apply sentinel_clean|constructor].
  - split_and!; [done|lia|done].
Qed.

Lemma normalizeEvidence_idempotent value :
  normalizeEvidence (Some (JArray (List.map evidenceToJson (normalizeEvidence value))))
  = normalizeEvidence value.
Proof.
  destruct (normalizeEvidence_clean value) as (Hc & Hl & Hn).
  rewrite normalizeEvidence_omap at 1. cbn [arrayOrEmpty].
  rewrite omap_keptEvidence_fixed by done.
  rewrite take_ge by done.
  by destruct (normalizeEvidence value).
Qed.

(** C7: normalising the value of an already normalised result gives the
    same result. *)
Theorem normalizeResult_idempotent (toLowerCase : jsstring -> jsstring) (v : json) :
  normalizeResult toLowerCase (resultToJson (normalizeResult toLowerCase v))
  = normalizeResult toLowerCase v.
Proof.
  set (r := normalizeResult toLowerCase v).
  unfold normalizeResult at 1.
  change (prop "tone" (Some (resultToJson r))) with (Some (JString (tone r))).
  change (prop "tone_summary" (Some (resultToJson r)))
    with (Some (nullable (tone_summary r))).
  change (prop "confidence" (Some (resultToJson r)))
    with (Some (JString (confidence r))).
  change (prop "key_positives" (Some (resultToJson r)))
    with (Some (JArray (List.map JString (key_positives r)))).
  change (prop "key_concerns" (Some (resultToJson r)))
    with (Some (JArray (List.map JString (key_concerns r)))).
  change (prop "revenue" (prop "forward_guidance" (Some (resultToJson r))))
    with (Some (nullable (revenue (forward_guidance r)))).
  change (prop "margin" (prop "forward_guidance" (Some (resultToJson r))))
    with (Some (nullable (margin (forward_guidance r)))).
  change (prop "capex" (prop "forward_guidance" (Some (resultToJson r))))
    with (Some (nullable (capex (forward_guidance r)))).
  change (prop "tax_rate" (prop "forward_guidance" (Some (resultToJson r))))
    with (Some (nullable (tax_rate (forward_guidance r)))).
  change (prop "capacity_utilization_trends" (Some (resultToJson r)))
    with (Some (nullable (capacity_utilization_trends r))).
  change (prop "growth_initiatives" (Some (resultToJson r)))
    with (Some (JArray (List.map JString (growth_initiatives r)))).
  change (prop "evidence_quotes" (Some (resultToJson r)))
    with (Some (JArray (List.map evidenceToJson (evidence_quotes r)))).
  change (prop "missing_sections" (Some (resultToJson r)))
    with (Some (JArray (List.map JString (missing_sections r)))).
  unfold r, normalizeResult.
  cbn [tone tone_summary confidence key_positives key_concerns forward_guidance
       revenue margin capex tax_rate capacity_utilization_trends growth_initiatives
       evidence_quotes missing_sections].
  rewrite !normalizeNullableString_idempotent.
  rewrite !normalizeStringArray_idempotent by lia.
  rewrite normalizeEvidence_idempotent.
  rewrite !allowedOr_idempotent by (by vm_compute).
  done.
Qed.

(** C6, as the code has it: [evidence_quotes] lists, in the order of the
    input and cut to the first 8, one entry for each input entry whose
    quote is a string longer than 10 code units once trimmed: its trimmed
    quote with its trimmed section, the section being empty when the entry
    has no string section.  When no entry is kept the list is the single
    sentinel entry, so the list is never empty. *)
Theorem evidence_quotes_normalized (toLowerCase : jsstring -> jsstring) (input : json) :
  let kept := omap keptEvidence (arrayOrEmpty (prop "evidence_quotes" (Some input))) in
  evidence_quotes (normalizeResult toLowerCase input)
  = match take 8 kept with
    | [] => [sentinelEvidence]
    | e :: es => e :: es
    end
  /\ evidence_quotes (normalizeResult toLowerCase input) <> []
  /\ length (evidence_quotes (normalizeResult toLowerCase input)) <= 8.
Proof.
  intros kept. cbn [evidence_quotes normalizeResult].
  destruct (normalizeEvidence_clean (prop "evidence_quotes" (Some input))) as (_ & Hl & Hn).
  split_and!; [apply normalizeEvidence_omap|done|done].
Qed.

(** C6 as stated fails: an entry without a section is kept. *)
Lemma evidence_without_section_kept :
  prop "section"
    (Some (JObject [(lit "quote", JString (lit "Margins expanded by 150 bps"))]))
  = None
  /\ evidence_quotes
       (normalizeResult toLowerCaseLatin1
          (JObject
             [(lit "evidence_quotes",
               JArray
                 [JObject [(lit "quote", JString (lit "Margins expanded by 150 bps"))]])]))
     = [mkEvidence (lit "Margins expanded by 150 bps") []].
Proof. split; vm_compute; reflexivity. Qed.

(** ** The matcher on the patterns of the retry delay *)

Section Backtracking.
Context {R : Type}.

(** When what follows a greedy repetition fails wherever the repetition
    could be cut short, only the longest run is left. *)
Lemma star_k_exclusive (p : N -> bool) (k : nat -> jsstring -> option R) :
  (forall j c t, p c = true -> k j (c :: t) = None) ->
  forall s i, star_k p i s k = k (i + runLength p s) (drop (runLength p s) s).
Proof.
  intros Hk s. induction s as [|c t IH]; intros i; simpl.
  - by rewrite Nat.add_0_r.
  - destruct (p c) eqn:Hp; simpl.
    + rewrite IH. replace (S i + runLength p t) with (i + S (runLength p t)) by lia.
      destruct (k _ _) eqn:E; [done|]. by apply Hk.
    + by rewrite Nat.add_0_r.
Qed.

Lemma rmatch_Plus_exclusive (p : N -> bool) i s cap
    (k : nat -> jsstring -> option jsstring -> option R) :
  (forall j c t, p c = true -> k j (c :: t) cap = None) ->
  rmatch (Plus p) i s cap k =
  match s with
  | c :: t =>
      if p c then k (S i + runLength p t) (drop (runLength p t) t) cap else None
  | [] => None
  end.
Proof.
  intros Hk. unfold Plus. cbn [rmatch].
  destruct s as [|c t]; [done|]. destruct (p c); [|done].
  by rewrite star_k_exclusive.
Qed.

Lemma rmatch_str_re (f : N -> N -> bool) (p : jsstring) : forall i s cap
    (k : nat -> jsstring -> option jsstring -> option R),
  rmatch (str_re f p) i s cap k =
  if prefixMatch f p s then k (i + length p) (drop (length p) s) cap else None.
Proof.
  induction p as [|c p IH]; intros i s cap k; cbn [str_re rmatch prefixMatch].
  - by rewrite Nat.add_0_r.
  - destruct s as [|x s]; [done|]. destruct (f c x); [|done].
    cbn [andb length drop]. rewrite IH.
    by replace (S i + length p) with (i + S (length p)) by lia.
Qed.

End Backtracking.

Lemma digit_not_space c : isDigit c = true -> isWhiteSpace c = false.
Proof.
  unfold isDigit. intros H. apply andb_true_iff in H as [H1 H2].
  apply N.leb_le in H1, H2.
  assert (Hc : (c = 48 \/ c = 49 \/ c = 50 \/ c = 51 \/ c = 52 \/ c = 53
                \/ c = 54 \/ c = 55 \/ c = 56 \/ c = 57)%N) by lia.
  destruct Hc as [->|[->|[->|[->|[->|[->|[->|[->|[->| ->]]]]]]]]]; reflexivity.
Qed.

Lemma space_not_digit c : isWhiteSpace c = true -> isDigit c = false.
Proof.
  intros H. destruct (isDigit c) eqn:D; [|done].
  apply digit_not_space in D. congruence.
Qed.

Lemma chr_i_s c : chr_i 115 c = isLetterS c.
Proof.
  unfold chr_i, isLetterS, asciiUpper.
  change ((97 <=? 115)%N && (115 <=? 122)%N) with true. cbn [andb].
  change (115 - 32)%N with 83%N.
  destruct (c =? 115)%N eqn:E1; [apply N.eqb_eq in E1; by subst|].
  destruct (c =? 83)%N eqn:E2; [apply N.eqb_eq in E2; by subst|].
  apply N.eqb_neq in E1, E2. cbn [orb].
  destruct (c <? 128)%N; [|done]. cbn [andb].
  apply N.eqb_neq.
  destruct ((97 <=? c)%N && (c <=? 122)%N) eqn:E3; [|done].
  apply andb_true_iff in E3 as [H1 H2]. apply N.leb_le in H1, H2. lia.
Qed.

Lemma chr_i_dot c : chr_i 46 c = (c =? 46)%N.
Proof.
  unfold chr_i, asciiUpper.
  change ((97 <=? 46)%N && (46 <=? 122)%N) with false. cbv iota.
  destruct (c =? 46)%N eqn:E; [apply N.eqb_eq in E; by subst|].
  apply N.eqb_neq in E.
  destruct (c <? 128)%N; [|done]. cbn [andb].
  apply N.eqb_neq.
  destruct ((97 <=? c)%N && (c <=? 122)%N) eqn:E3; [|done].
  apply andb_true_iff in E3 as [H1 H2]. apply N.leb_le in H1, H2. lia.
Qed.

Lemma digit_not_s c : isDigit c = true -> isLetterS c = false.
Proof.
  unfold isDigit, isLetterS. intros H. apply andb_true_iff in H as [H1 H2].
  apply N.leb_le in H1, H2.
  apply orb_false_iff. split; apply N.eqb_neq; lia.
Qed.

Lemma digit_not_dot c : isDigit c = true -> (c =? 46)%N = false.
Proof.
  unfold isDigit. intros H. apply andb_true_iff in H as [H1 H2].
  apply N.leb_le in H1, H2. apply N.eqb_neq. lia.
Qed.


Lemma drop_S_cons {A} n (s : list A) u rest :
  drop n s = u :: rest -> drop (S n) s = rest.
Proof.
  revert s. induction n as [|n IH]; intros [|x s] H; try done.
  - cbn in H. by injection H as _ ->.
  - cbn in *. by apply IH.
Qed.

Section Seconds.
Context {R : Type}.

(** The pattern [(\d+(?:\.\d+)?)s] under the [i] flag, whatever follows
    it. *)
Lemma rmatch_seconds i s cap (k : nat -> jsstring -> option jsstring -> option R) :
  rmatch
    (Seq (Cap (Seq (Plus isDigit) (Opt (Seq (Class (chr_i 46)) (Plus isDigit)))))
         (Class (chr_i 115))) i s cap k
  = match readSeconds s with
    | Some (len, number) => k (i + len) (drop len s) (Some number)
    | None => None
    end.
Proof.
  cbn [rmatch].
  set (K2 := fun (i' : nat) (s' : jsstring) (_ : option jsstring) =>
               match s' with
               | [] => None
               | c :: t =>
                   if chr_i 115 c then k (S i') t (Some (take (i' - i) s)) else None
               end).
  change (rmatch (Plus isDigit) i s cap
            (fun i1 s1 cap1 => rmatch (Opt (Seq (Class (chr_i 46)) (Plus isDigit)))
                                 i1 s1 cap1 K2)
          = match readSeconds s with
            | Some (len, number) => k (i + len) (drop len s) (Some number)
            | None => None
            end).
  assert (HK2 : forall j c t cp, isDigit c = true -> K2 j (c :: t) cp = None).
  { intros j c t cp Hc. unfold K2. by rewrite chr_i_s, digit_not_s. }
  rewrite rmatch_Plus_exclusive.
  2:{ intros j c t Hc. cbn [rmatch]. rewrite chr_i_dot, digit_not_dot by done.
      by apply HK2. }
  unfold readSeconds.
  destruct s as [|d t]; [done|]. destruct (isDigit d) eqn:Hd; [|done].
  set (n1 := S (runLength isDigit t)).
  change (drop n1 (d :: t)) with (drop (runLength isDigit t) t).
  destruct (drop (runLength isDigit t) t) as [|u rest] eqn:E1.
  { cbn [rmatch]. done. }
  assert (Erest : drop (S n1) (d :: t) = rest).
  { apply (drop_S_cons _ _ u). exact E1. }
  cbn [rmatch]. rewrite chr_i_dot.
  destruct (isLetterS u) eqn:Hu.
  - assert (Hdot : (u =? 46)%N = false).
    { unfold isLetterS in Hu. apply N.eqb_neq. apply orb_true_iff in Hu as [H|H];
        apply N.eqb_eq in H; subst; done. }
    rewrite Hdot. unfold K2. rewrite chr_i_s, Hu.
    replace (S i + runLength isDigit t - i) with n1 by (unfold n1; lia).
    replace (S (S i + runLength isDigit t)) with (i + S n1) by (unfold n1; lia).
    by rewrite Erest.
  - destruct (u =? 46)%N eqn:Hdot.
    2:{ unfold K2. by rewrite chr_i_s, Hu. }
    rewrite rmatch_Plus_exclusive.
    2:{ intros j c t' Hc. destruct (j =? S i + runLength isDigit t); [done|].
        by apply HK2. }
    assert (Hfall : K2 (S i + runLength isDigit t) (u :: rest) cap = None).
    { unfold K2. by rewrite chr_i_s, Hu. }
    rewrite Hfall.
    destruct rest as [|d2 t2]; [done|].
    destruct (isDigit d2) eqn:Hd2; [|done].
    set (n2 := S (runLength isDigit t2)).
    replace (S (S (S i + runLength isDigit t)) + runLength isDigit t2 =? S i + runLength isDigit t)
      with false by (symmetry; apply Nat.eqb_neq; lia).
    change (drop n2 (d2 :: t2)) with (drop (runLength isDigit t2) t2).
    unfold K2.
    destruct (drop (runLength isDigit t2) t2) as [|v r3] eqn:E2; [done|].
    rewrite chr_i_s. destruct (isLetterS v); [|done].
    replace (S (S (S i + runLength isDigit t)) + runLength isDigit t2 - i)
      with (n1 + 1 + n2) by (unfold n1, n2; lia).
    replace (S (S (S (S i + runLength isDigit t)) + runLength isDigit t2))
      with (i + S (n1 + 1 + n2)) by (unfold n1, n2; lia).
    assert (E3 : drop (S (n1 + 1 + n2)) (d :: t) = r3).
    { replace (S (n1 + 1 + n2)) with (S n1 + S n2) by lia.
      rewrite <- drop_drop. rewrite Erest.
      apply (drop_S_cons _ _ v). exact E2. }
    rewrite E3.
    by destruct (k _ _ _).
Qed.

End Seconds.


Lemma chr_i_symbol c0 c :
  asciiUpper c0 = c0 -> (c0 < 65 \/ 90 < c0)%N -> (c0 < 128)%N ->
  chr_i c0 c = (c =? c0)%N.
Proof.
  intros Hup Hrange Hlt. unfold chr_i. rewrite Hup.
  destruct (c =? c0)%N eqn:E.
  - apply N.eqb_eq in E. subst c. rewrite Hup, N.eqb_refl.
    by rewrite (proj2 (N.ltb_lt _ _) Hlt).
  - apply N.eqb_neq in E. destruct (c <? 128)%N; [|done]. cbn [andb].
    apply N.eqb_neq. unfold asciiUpper.
    destruct ((97 <=? c)%N && (c <=? 122)%N) eqn:E3; [|done].
    apply andb_true_iff in E3 as [H1 H2]. apply N.leb_le in H1, H2. lia.
Qed.

Lemma chr_i_quote c : chr_i 34 c = (c =? 34)%N.
Proof. apply chr_i_symbol; [done|lia|lia]. Qed.

Lemma chr_i_colon c : chr_i 58 c = (c =? 58)%N.
Proof. apply chr_i_symbol; [done|lia|lia]. Qed.

Lemma chr_i_backslash c : chr_i 92 c = (c =? 92)%N.
Proof. apply chr_i_symbol; [done|lia|lia]. Qed.

Lemma rmatch_Seq_Class {R} (p : N -> bool) (r : regex) i s cap
    (k : nat -> jsstring -> option jsstring -> option R) :
  rmatch (Seq (Class p) r) i s cap k
  = match s with
    | c :: t => if p c then rmatch r (S i) t cap k else None
    | [] => None
    end.
Proof. by destruct s. Qed.

(** The layers of the pattern of the retry delay field, from the right. *)

Lemma rmatch_digits_s {R} i s cap
    (k : nat -> jsstring -> option jsstring -> option R) :
  rmatch (Seq (Cap (Plus isDigit)) (Class (chr_i 115))) i s cap k
  = match readDigitsS s with
    | Some (len, number) => k (i + len) (drop len s) (Some number)
    | None => None
    end.
Proof.
  cbn [rmatch].
  rewrite rmatch_Plus_exclusive.
  2:{ intros j c t Hc. by rewrite chr_i_s, digit_not_s. }
  unfold readDigitsS. destruct s as [|d t]; [done|].
  destruct (isDigit d); [|done].
  change (drop (S (runLength isDigit t)) (d :: t)) with (drop (runLength isDigit t) t).
  destruct (drop (runLength isDigit t) t) as [|u rest] eqn:E; [done|].
  rewrite chr_i_s. destruct (isLetterS u); [|done].
  replace (S i + runLength isDigit t - i) with (S (runLength isDigit t)) by lia.
  replace (S (S i + runLength isDigit t)) with (i + S (S (runLength isDigit t))) by lia.
  change (drop (S (S (runLength isDigit t))) (d :: t))
    with (drop (S (runLength isDigit t)) t).
  by rewrite (drop_S_cons _ _ _ _ E).
Qed.

Lemma shift_continue {R} n o i s
    (k : nat -> jsstring -> option jsstring -> option R) :
  match shift n o with
  | Some (len, number) => k (i + len) (drop len s) (Some number)
  | None => None
  end
  = match o with
    | Some (len, number) => k (i + n + len) (drop len (drop n s)) (Some number)
    | None => None
    end.
Proof.
  destruct o as [[len x]|]; [|done]. cbn [shift].
  by rewrite drop_drop, Nat.add_assoc.
Qed.

Lemma rmatch_quoted {R} i s cap
    (k : nat -> jsstring -> option jsstring -> option R) :
  rmatch (Seq (Class (chr_i 34)) (Seq (Cap (Plus isDigit)) (Class (chr_i 115))))
    i s cap k
  = match readQuoted s with
    | Some (len, number) => k (i + len) (drop len s) (Some number)
    | None => None
    end.
Proof.
  rewrite rmatch_Seq_Class. unfold readQuoted. destruct s as [|q r]; [done|].
  rewrite chr_i_quote. destruct (q =? 34)%N; [|done].
  rewrite shift_continue. cbn [drop].
  rewrite rmatch_digits_s. by replace (i + 1) with (S i) by lia.
Qed.

(** An optional backslash before a part that cannot start with one. *)
Lemma rmatch_opt_backslash {R} (r : regex)
    (next : jsstring -> option (nat * jsstring)) i s cap
    (k : nat -> jsstring -> option jsstring -> option R) :
  (forall R' i' s' cap' (k' : nat -> jsstring -> option jsstring -> option R'),
      rmatch r i' s' cap' k'
      = match next s' with
        | Some (len, number) => k' (i' + len) (drop len s') (Some number)
        | None => None
        end) ->
  (forall t, next (92%N :: t) = None) ->
  rmatch (Seq (Opt (Class (chr_i 92))) r) i s cap k
  = match readOptBackslash next s with
    | Some (len, number) => k (i + len) (drop len s) (Some number)
    | None => None
    end.
Proof.
  intros Hr Hnext. cbn [rmatch]. unfold readOptBackslash.
  destruct s as [|c t]; [by rewrite Hr|].
  rewrite chr_i_backslash. destruct (c =? 92)%N eqn:Ec.
  - apply N.eqb_eq in Ec. subst c.
    replace (S i =? i) with false by (symmetry; apply Nat.eqb_neq; lia).
    rewrite !Hr, Hnext, shift_continue. cbn [drop].
    replace (i + 1) with (S i) by lia.
    by destruct (next t) as [[len x]|]; [destruct (k _ _ _)|].
  - by rewrite Hr.
Qed.

Lemma rmatch_colon {R} i s cap
    (k : nat -> jsstring -> option jsstring -> option R) :
  rmatch
    (Seq (Class (chr_i 34))
       (Seq (Class (chr_i 58))
          (Seq (Opt (Class (chr_i 92)))
             (Seq (Class (chr_i 34))
                (Seq (Cap (Plus isDigit)) (Class (chr_i 115)))))))
    i s cap k
  = match readColon s with
    | Some (len, number) => k (i + len) (drop len s) (Some number)
    | None => None
    end.
Proof.
  rewrite rmatch_Seq_Class. unfold readColon.
  destruct s as [|q [|c r]]; [done|by rewrite rmatch_Seq_Class; destruct (chr_i 34 q)|].
  rewrite rmatch_Seq_Class, chr_i_quote, chr_i_colon.
  destruct (q =? 34)%N; [|done].
  destruct (c =? 58)%N; [|done]. cbn [andb].
  rewrite shift_continue. cbn [drop].
  rewrite (rmatch_opt_backslash
             (Seq (Class (chr_i 34)) (Seq (Cap (Plus isDigit)) (Class (chr_i 115))))
             readQuoted (S (S i)) r cap k).
  - by replace (i + 2) with (S (S i)) by lia.
  - intros R' i' s' cap' k'.
    apply rmatch_quoted.
  - done.
Qed.



Lemma rmatch_Seq {R} (a b : regex) i s cap
    (k : nat -> jsstring -> option jsstring -> option R) :
  rmatch (Seq a b) i s cap k
  = rmatch a i s cap (fun i' s' cap' => rmatch b i' s' cap' k).
Proof. done. Qed.

Lemma reads_retry_in : reads re_retry_in readRetryIn.
Proof.
  intros R i s cap k. unfold re_retry_in, Lit_i.
  rewrite rmatch_Seq, rmatch_str_re. unfold readRetryIn.
  destruct (prefixMatch chr_i (lit "retry in") s); [|done].
  change (length (lit "retry in")) with 8.
  rewrite rmatch_Seq, rmatch_Plus_exclusive.
  2:{ intros j c t Hc. rewrite rmatch_seconds. unfold readSeconds.
      by rewrite space_not_digit. }
  destruct (drop 8 s) as [|w t] eqn:E; [done|].
  destruct (isWhiteSpace w); [|done].
  rewrite rmatch_seconds.
  change (drop (S (runLength isWhiteSpace t)) (w :: t))
    with (drop (runLength isWhiteSpace t) t).
  destruct (readSeconds (drop (runLength isWhiteSpace t) t)) as [[len number]|]; [|done].
  replace (S (i + 8) + runLength isWhiteSpace t + len)
    with (i + (8 + S (runLength isWhiteSpace t) + len)) by lia.
  rewrite <- !drop_drop, E. done.
Qed.

Lemma reads_retry_delay : reads re_retry_delay readRetryDelay.
Proof.
  intros R i s cap k. unfold re_retry_delay, Lit_i.
  rewrite rmatch_Seq, rmatch_str_re. unfold readRetryDelay.
  destruct (prefixMatch chr_i (lit "retryDelay") s); [|done].
  change (length (lit "retryDelay")) with 10.
  rewrite (rmatch_opt_backslash _ readColon).
  - rewrite shift_continue. done.
  - intros R' i' s' cap' k'. apply rmatch_colon.
  - by intros [|c t].
Qed.

Lemma readSeconds_nonempty s len number :
  readSeconds s = Some (len, number) -> number <> [].
Proof.
  unfold readSeconds. destruct s as [|d t]; [done|].
  destruct (isDigit d); [|done].
  destruct (drop _ _) as [|u rest]; [done|].
  destruct (isLetterS u); [by intros [= _ <-]|].
  destruct (u =? 46)%N; [|done]. destruct rest as [|d2 t2]; [done|].
  destruct (isDigit d2); [|done]. destruct (drop _ _) as [|v r3]; [done|].
  destruct (isLetterS v); [|done]. intros [= _ <-].
  by replace (S (runLength isDigit t) + 1 + S (runLength isDigit t2))
    with (S (runLength isDigit t + 1 + S (runLength isDigit t2))) by lia.
Qed.

Lemma readRetryIn_nonempty s len number :
  readRetryIn s = Some (len, number) -> number <> [].
Proof.
  unfold readRetryIn. destruct (prefixMatch _ _ _); [|done].
  destruct (drop 8 s) as [|w t]; [done|]. destruct (isWhiteSpace w); [|done].
  destruct (readSeconds _) as [[l n]|] eqn:E; [|done].
  intros [= _ <-]. by eapply readSeconds_nonempty.
Qed.

Lemma shift_Some n o len number :
  shift n o = Some (len, number) -> exists len', o = Some (len', number).
Proof. destruct o as [[l x]|]; [|done]. intros [= _ <-]. eauto. Qed.

Lemma readDigitsS_nonempty s len number :
  readDigitsS s = Some (len, number) -> number <> [].
Proof.
  unfold readDigitsS. destruct s as [|d t]; [done|].
  destruct (isDigit d); [|done].
  destruct (drop _ _) as [|u rest]; [done|].
  destruct (isLetterS u); [by intros [= _ <-]|done].
Qed.

Lemma readQuoted_nonempty s len number :
  readQuoted s = Some (len, number) -> number <> [].
Proof.
  unfold readQuoted. destruct s as [|q r]; [done|]. destruct (q =? 34)%N; [|done].
  intros H. apply shift_Some in H as [l H]. by eapply readDigitsS_nonempty.
Qed.

Lemma readOptBackslash_nonempty next s len number :
  (forall s' len' number', next s' = Some (len', number') -> number' <> []) ->
  readOptBackslash next s = Some (len, number) -> number <> [].
Proof.
  intros Hnext. unfold readOptBackslash. destruct s as [|c t]; [apply Hnext|].
  destruct (c =? 92)%N; [|apply Hnext].
  intros H. apply shift_Some in H as [l H]. by eapply Hnext.
Qed.

Lemma readColon_nonempty s len number :
  readColon s = Some (len, number) -> number <> [].
Proof.
  unfold readColon. destruct s as [|q [|c r]]; try done.
  destruct ((q =? 34)%N && (c =? 58)%N); [|done].
  intros H. apply shift_Some in H as [l H].
  eapply readOptBackslash_nonempty; [|exact H]. apply readQuoted_nonempty.
Qed.

Lemma readRetryDelay_nonempty s len number :
  readRetryDelay s = Some (len, number) -> number <> [].
Proof.
  unfold readRetryDelay. destruct (prefixMatch _ _ _); [|done].
  intros H. apply shift_Some in H as [l H].
  eapply readOptBackslash_nonempty; [|exact H]. apply readColon_nonempty.
Qed.

(** The first capture of the leftmost match is the number of the
    leftmost phrase. *)
Lemma capture1_search (r : regex) (read : jsstring -> option (nat * jsstring)) :
  reads r read ->
  (forall s len number, read s = Some (len, number) -> number <> []) ->
  forall s i, capture1 (search_from r i s) = firstPhrase read s.
Proof.
  intros Hr Hne s. induction s as [|c t IH]; intros i;
    cbn [search_from firstPhrase]; unfold match_at; rewrite Hr;
    destruct (read _) as [[len number]|] eqn:E.
  - cbn [capture1 m_cap]. apply Hne in E. by destruct number.
  - done.
  - cbn [capture1 m_cap]. apply Hne in E. by destruct number.
  - apply IH.
Qed.

Lemma extractRetryAfterSeconds_phrases msg :
  extractRetryAfterSeconds msg
  = match firstPhrase readRetryIn msg with
    | Some n => Some (Math_max (num 1) (Math_ceil (Number n)))
    | None =>
        match firstPhrase readRetryDelay msg with
        | Some n => Some (Number n)
        | None => None
        end
    end.
Proof.
  unfold extractRetryAfterSeconds, exec.
  rewrite (capture1_search _ _ reads_retry_in readRetryIn_nonempty).
  rewrite (capture1_search _ _ reads_retry_delay readRetryDelay_nonempty).
  by destruct msg.
Qed.


(** ** Numbers *)

(** An integer below [2 ^ 53] is a double. *)
Lemma roundToDouble_integer (p : Z) :
  (0 <= p < 2 ^ 53)%Z -> roundToDouble p 1 = num p.
Proof.
  intros [Hp0 Hp]. unfold roundToDouble.
  destruct (p =? 0)%Z eqn:E0.
  { apply Z.eqb_eq in E0. by subst. }
  apply Z.eqb_neq in E0. assert (Hpos : (0 < p)%Z) by lia.
  change (Z.log2 1) with 0%Z. rewrite Z.sub_0_r.
  pose proof (Z.log2_spec p Hpos) as [Hlo Hhi].
  pose proof (Z.log2_nonneg p) as He0.
  assert (He : (Z.log2 p < 53)%Z) by (apply Z.log2_lt_pow2; lia).
  set (e := Z.log2 p) in *.
  rewrite (proj2 (Z.leb_le 0 e) He0), Z.mul_1_l, (proj2 (Z.leb_le _ _) Hlo).
  rewrite Z.max_l by lia.
  destruct (e - 52 <? 0)%Z eqn:Es.
  - apply Z.ltb_lt in Es.
    rewrite Z.div_1_r, Z.mod_1_r. change (2 * 0 <? 1)%Z with true. cbv iota.
    unfold num. f_equal.
    assert (Hk : (0 < 2 ^ (- (e - 52)))%Z) by (apply Z.pow_pos_nonneg; lia).
    rewrite (Qred_complete _ (Qmake p 1)).
    + apply Qred_identity. apply Z.gcd_1_r.
    + unfold Qeq. cbn [Qnum Qden]. rewrite Z2Pos.id by done. ring.
  - apply Z.ltb_ge in Es. assert (e = 52%Z) by lia.
    replace (e - 52)%Z with 0%Z by lia.
    rewrite Z.pow_0_r, Z.mul_1_r, Z.div_1_r, Z.mod_1_r, Z.mul_1_r.
    change (2 * 0 <? 1)%Z with true. cbv iota.
    replace (2 ^ 1024 <=? p)%Z with false; [done|].
    symmetry. apply Z.leb_gt.
    assert (2 ^ 53 < 2 ^ 1024)%Z by (apply Z.pow_lt_mono_r; lia). lia.
Qed.

Lemma takeDigits_all s : forallb isDigit s = true -> takeDigits s = s.
Proof.
  induction s as [|c t IH]; simpl; [done|].
  intros H. apply andb_true_iff in H as [-> H]. by rewrite IH.
Qed.

Lemma skipDigits_all s : forallb isDigit s = true -> skipDigits s = [].
Proof.
  induction s as [|c t IH]; simpl; [done|].
  intros H. apply andb_true_iff in H as [-> H]. by apply IH.
Qed.

Lemma digitsValue_bounds s : forall acc,
  (0 <= acc)%Z -> forallb isDigit s = true -> (0 <= digitsValue acc s)%Z.
Proof.
  induction s as [|c t IH]; intros acc Hacc H; simpl; [done|].
  simpl in H. apply andb_true_iff in H as [Hc H]. apply IH; [|done].
  unfold isDigit in Hc. apply andb_true_iff in Hc as [H1 H2].
  apply N.leb_le in H1, H2. lia.
Qed.

(** The number of a run of digits whose value is below [2 ^ 53] is that
    value. *)
Lemma Number_integer (s : jsstring) :
  s <> [] -> forallb isDigit s = true -> (digitsValue 0 s < 2 ^ 53)%Z ->
  Number s = num (digitsValue 0 s).
Proof.
  intros Hne Hd Hv. unfold Number.
  rewrite takeDigits_all, skipDigits_all by done.
  destruct s as [|c t]; [done|].
  apply roundToDouble_integer. split; [|done].
  by apply digitsValue_bounds.
Qed.


Lemma roundToDouble_not_NaN p q : roundToDouble p q <> NaN.
Proof.
  unfold roundToDouble. destruct (p =? 0)%Z; [done|].
  cbv zeta. repeat match goal with |- context [if ?b then _ else _] => destruct b end; done.
Qed.

Lemma Number_decimal s : decimalLiteral s = true -> Number s <> NaN.
Proof.
  unfold decimalLiteral, Number.
  destruct (takeDigits s) as [|a ip]; [done|].
  destruct (skipDigits s) as [|c fp]; intros H.
  - apply roundToDouble_not_NaN.
  - rewrite H. apply roundToDouble_not_NaN.
Qed.

Lemma take_run_all (p : N -> bool) t : forallb p (take (runLength p t) t) = true.
Proof.
  induction t as [|c t IH]; simpl; [done|].
  destruct (p c) eqn:E; simpl; [by rewrite E|done].
Qed.

Lemma takeDigits_app a c b :
  forallb isDigit a = true -> isDigit c = false -> takeDigits (a ++ c :: b) = a.
Proof.
  intros Ha Hc. induction a as [|x a IH]; simpl in *; [by rewrite Hc|].
  apply andb_true_iff in Ha as [-> Ha]. by rewrite IH.
Qed.

Lemma skipDigits_app a c b :
  forallb isDigit a = true -> isDigit c = false -> skipDigits (a ++ c :: b) = c :: b.
Proof.
  intros Ha Hc. induction a as [|x a IH]; simpl in *; [by rewrite Hc|].
  apply andb_true_iff in Ha as [-> Ha]. by apply IH.
Qed.

(** The pattern of the retry phrase captures a decimal literal. *)
Lemma readSeconds_decimal s len number :
  readSeconds s = Some (len, number) -> decimalLiteral number = true.
Proof.
  unfold readSeconds. destruct s as [|d t]; [done|].
  destruct (isDigit d) eqn:Hd; [|done].
  set (n1 := S (runLength isDigit t)).
  assert (Hint : forallb isDigit (take n1 (d :: t)) = true).
  { unfold n1. cbn [take forallb]. by rewrite Hd, take_run_all. }
  destruct (drop n1 (d :: t)) as [|u rest] eqn:E1; [done|].
  destruct (isLetterS u) eqn:Hu.
  { intros [= _ <-]. unfold decimalLiteral.
    rewrite takeDigits_all, skipDigits_all by done. done. }
  destruct (u =? 46)%N eqn:Hdot; [|done]. apply N.eqb_eq in Hdot. subst u.
  destruct rest as [|d2 t2]; [done|]. destruct (isDigit d2) eqn:Hd2; [|done].
  set (n2 := S (runLength isDigit t2)).
  destruct (drop n2 (d2 :: t2)) as [|v r3]; [done|].
  destruct (isLetterS v); [|done]. intros [= _ <-].
  change (drop n1 (d :: t)) with (drop (runLength isDigit t) t) in E1.
  replace (runLength isDigit t + 1 + n2) with (runLength isDigit t + S n2) by lia.
  rewrite <- take_take_drop, E1.
  change (d :: take (runLength isDigit t) t ++ take (S n2) (46%N :: d2 :: t2))
    with (take n1 (d :: t) ++ 46%N :: take n2 (d2 :: t2)).
  unfold decimalLiteral.
  rewrite takeDigits_app, skipDigits_app by done.
  change (take n1 (d :: t)) with (d :: take (runLength isDigit t) t).
  unfold n2. cbn [take forallb nonEmpty N.eqb Pos.eqb andb].
  by rewrite Hd2, take_run_all.
Qed.

Lemma firstPhrase_Some read msg number :
  firstPhrase read msg = Some number -> exists s len, read s = Some (len, number).
Proof.
  induction msg as [|c t IH]; cbn [firstPhrase].
  - destruct (read []) as [[len n]|] eqn:E; [|done]. intros [= <-]. eauto.
  - destruct (read (c :: t)) as [[len n]|] eqn:E; [|done]. intros [= <-]. eauto.
Qed.

Lemma retryIn_capture_decimal msg number :
  firstPhrase readRetryIn msg = Some number -> decimalLiteral number = true.
Proof.
  intros H. apply firstPhrase_Some in H as (s & len & E).
  unfold readRetryIn in E.
  destruct (prefixMatch _ _ _); [|done].
  destruct (drop 8 _) as [|w r]; [done|].
  destruct (isWhiteSpace w); [|done].
  destruct (readSeconds _) as [[l x]|] eqn:E2; [|done].
  injection E as _ <-. by eapply readSeconds_decimal.
Qed.

Lemma readDigitsS_digits s len number :
  readDigitsS s = Some (len, number) -> forallb isDigit number = true.
Proof.
  unfold readDigitsS. destruct s as [|d t]; [done|].
  destruct (isDigit d) eqn:Hd; [|done].
  destruct (drop _ _) as [|u rest]; [done|].
  destruct (isLetterS u); [|done]. intros [= _ <-].
  cbn [take forallb]. by rewrite Hd, take_run_all.
Qed.

Lemma readRetryDelay_digits s len number :
  readRetryDelay s = Some (len, number) -> forallb isDigit number = true.
Proof.
  unfold readRetryDelay. destruct (prefixMatch _ _ _); [|done].
  intros H. apply shift_Some in H as [l H].
  assert (Hq : forall s' l' n', readQuoted s' = Some (l', n') ->
                                forallb isDigit n' = true).
  { intros s' l' n'. unfold readQuoted. destruct s' as [|q r]; [done|].
    destruct (q =? 34)%N; [|done]. intros H'. apply shift_Some in H' as [l2 H'].
    by eapply readDigitsS_digits. }
  assert (Hc : forall s' l' n', readColon s' = Some (l', n') ->
                                forallb isDigit n' = true).
  { intros s' l' n'. unfold readColon. destruct s' as [|q [|c r]]; try done.
    destruct ((q =? 34)%N && (c =? 58)%N); [|done].
    intros H'. apply shift_Some in H' as [l2 H']. unfold readOptBackslash in H'.
    destruct r as [|b r']; [by eapply Hq|].
    destruct (b =? 92)%N; [|by eapply Hq].
    apply shift_Some in H' as [l3 H']. by eapply Hq. }
  unfold readOptBackslash in H. destruct (drop 10 s) as [|b r]; [by eapply Hc|].
  destruct (b =? 92)%N; [|by eapply Hc].
  apply shift_Some in H as [l3 H]. by eapply Hc.
Qed.

(** The pattern of the retry delay field captures digits. *)
Lemma retryDelay_capture_digits msg number :
  firstPhrase readRetryDelay msg = Some number ->
  number <> [] /\ forallb isDigit number = true.
Proof.
  intros H. apply firstPhrase_Some in H as (s & len & E). split.
  - by eapply readRetryDelay_nonempty.
  - by eapply readRetryDelay_digits.
Qed.

Lemma retryDelay_small_integer msg number :
  firstPhrase readRetryDelay msg = Some number ->
  (digitsValue 0 number < 2 ^ 53)%Z ->
  Number number = num (digitsValue 0 number).
Proof.
  intros H Hv. apply retryDelay_capture_digits in H as [Hne Hd].
  by apply Number_integer.
Qed.

(** ** JSON recovery *)

(** A greedy [[\s\S]*] before a closing brace stops at the last one. *)
Lemma star_any_last_brace {R} (K : nat -> jsstring -> option R) s : forall i,
  (forall j u, K j u <> None) ->
  star_k (fun _ => true) i s
    (fun i' s' =>
       match s' with
       | c :: t => if chr 125 c then K (S i') t else None
       | [] => None
       end)
  = match lastBrace s with
    | Some j => K (S (i + j)) (drop (S j) s)
    | None => None
    end.
Proof.
  induction s as [|c t IH]; intros i HK; cbn [star_k lastBrace]; [done|].
  rewrite IH by done.
  destruct (lastBrace t) as [j|].
  - replace (S (S i + j)) with (S (i + S j)) by lia. cbn [drop].
    destruct (K _ _) eqn:E; [done|]. by apply HK in E.
  - unfold chr. destruct (c =? 125)%N; [|done].
    by rewrite Nat.add_0_r.
Qed.

Lemma match_at_braces i s :
  match_at re_braces i s
  = match s with
    | c :: t =>
        if (c =? 123)%N then
          match lastBrace t with
          | Some j => Some (MatchResult i (S (S i + j)) None)
          | None => None
          end
        else None
    | [] => None
    end.
Proof.
  unfold match_at, re_braces. cbn [rmatch].
  destruct s as [|c t]; [done|]. unfold chr at 1. destruct (c =? 123)%N; [|done].
  rewrite (star_any_last_brace (fun e _ => Some (MatchResult i e None))) by done.
  by destruct (lastBrace t).
Qed.

(** The match of the brace pattern is the text from the first opening
    brace to the last closing brace. *)
Lemma search_braces s : forall full i,
  drop i full = s ->
  option_map (matched full) (search_from re_braces i s) = bracedSpan s.
Proof.
  induction s as [|c t IH]; intros full i Hs; cbn [search_from bracedSpan];
    rewrite match_at_braces; [done|].
  assert (Ht : drop (S i) full = t) by (by apply (drop_S_cons _ _ c)).
  destruct (c =? 123)%N; [|by apply IH].
  destruct (lastBrace t) as [j|]; [|by apply IH].
  cbn [option_map]. unfold matched. cbn [m_start m_end]. rewrite Hs.
  by replace (S (S i + j) - i) with (S (S j)) by lia.
Qed.

Lemma exec_braces s : option_map (matched s) (exec re_braces s) = bracedSpan s.
Proof. by apply search_braces. Qed.

(** The JSON recovery parser, step by step. *)
Lemma parseJsonSafely_steps (sem : jsstring -> jsstring) (raw : jsstring) :
  parseJsonSafely sem raw
  = match trim raw with
    | [] => inl EmptyOutput
    | c :: t =>
        let withoutFences :=
          replace_first re_fence_close []
            (replace_first re_fence_open [] (c :: t)) in
        match JSON_parse withoutFences with
        | Some v => inr v
        | None =>
            match bracedSpan withoutFences with
            | None => inl InvalidModelOutput
            | Some inner =>
                match JSON_parse inner with
                | Some v => inr v
                | None => inl (SyntaxError (sem inner))
                end
            end
        end
    end.
Proof.
  unfold parseJsonSafely, JSON_parse_throwing.
  destruct (trim raw) as [|c t]; [done|]. cbv zeta.
  set (w := replace_first re_fence_close [] (replace_first re_fence_open [] (c :: t))).
  destruct (JSON_parse w); [done|].
  rewrite <- exec_braces.
  by destruct (exec re_braces w).
Qed.

(** C4 fails on a response cut short after a complete inner object, and
    on a text with braces around something that is not JSON: the span from
    the first opening brace to the last closing brace is found and is not
    JSON, and the error is the one of [JSON.parse], not the one the parser
    has for invalid output. *)
Theorem parseJsonSafely_unparseable_braces (sem : jsstring -> jsstring) :
  let truncated :=
    lit "{" ++ DQ ++ lit "forward_guidance" ++ DQ ++ lit ": {" ++ DQ ++ lit "capex"
    ++ DQ ++ lit ": null}, " ++ DQ ++ lit "tone" ++ DQ ++ lit ": " in
  let span :=
    lit "{" ++ DQ ++ lit "forward_guidance" ++ DQ ++ lit ": {" ++ DQ ++ lit "capex"
    ++ DQ ++ lit ": null}" in
  parseJsonSafely sem truncated = inl (SyntaxError (sem span))
  /\ parseJsonSafely sem truncated <> inl InvalidModelOutput
  /\ bracedSpan truncated = Some span
  /\ JSON_parse span = None
  /\ parseJsonSafely sem (lit "{not json}")
     = inl (SyntaxError (sem (lit "{not json}")))
  /\ parseJsonSafely sem (lit "{not json}") <> inl InvalidModelOutput.
Proof.
  intros truncated span.
  assert (E1 : parseJsonSafely sem truncated = inl (SyntaxError (sem span))).
  { rewrite parseJsonSafely_steps. vm_compute. reflexivity. }
  assert (E2 : parseJsonSafely sem (lit "{not json}")
               = inl (SyntaxError (sem (lit "{not json}")))).
  { rewrite parseJsonSafely_steps. vm_compute. reflexivity. }
  split_and!; [done | by rewrite E1 | by vm_compute | by vm_compute
              | done | by rewrite E2].
Qed.

Example parseJsonSafely_blank sem :
  parseJsonSafely sem (lit "   ") = inl EmptyOutput.
Proof. by vm_compute. Qed.

Example parseJsonSafely_fenced sem :
  parseJsonSafely sem
    (lit "```json" ++ [LF] ++ lit "{" ++ DQ ++ lit "tone" ++ DQ ++ lit ":"
     ++ DQ ++ lit "neutral" ++ DQ ++ lit "}" ++ [LF] ++ lit "```")
  = inr (JObject [(lit "tone", JString (lit "neutral"))]).
Proof. by vm_compute. Qed.

Example parseJsonSafely_prose sem :
  parseJsonSafely sem
    (lit "Here you go: {" ++ DQ ++ lit "tone" ++ DQ ++ lit ":"
     ++ DQ ++ lit "neutral" ++ DQ ++ lit "} thanks")
  = inr (JObject [(lit "tone", JString (lit "neutral"))]).
Proof. by vm_compute. Qed.

Example parseJsonSafely_no_json sem :
  parseJsonSafely sem (lit "not json at all") = inl InvalidModelOutput.
Proof. by vm_compute. Qed.

Lemma parseJsonSafely_empty_iff sem raw :
  parseJsonSafely sem raw = inl EmptyOutput <-> trim raw = [].
Proof.
  rewrite parseJsonSafely_steps. destruct (trim raw) as [|c t]; [done|].
  cbv zeta. split; [|done].
  destruct (JSON_parse _); [done|]. destruct (bracedSpan _); [|done].
  by destruct (JSON_parse _).
Qed.

(** ** Fences *)

Lemma trimStart_drop s : trimStart s = drop (runLength isWhiteSpace s) s.
Proof.
  induction s as [|c t IH]; simpl; [done|]. by destruct (isWhiteSpace c).
Qed.

Lemma search_Bol_later (r : regex) s : forall i,
  search_from (Seq Bol r) (S i) s = None.
Proof. induction s as [|c t IH]; intros i; cbn; [done|apply IH]. Qed.

Lemma rmatch_Bol_start {R} (r : regex) s cap
    (k : nat -> jsstring -> option jsstring -> option R) :
  rmatch (Seq Bol r) 0 s cap k = rmatch r 0 s cap k.
Proof. done. Qed.

Lemma rmatch_Opt {R} (a : regex) i s cap
    (k : nat -> jsstring -> option jsstring -> option R) :
  rmatch (Opt a) i s cap k
  = match rmatch a i s cap
            (fun i' s' cap' => if i' =? i then None else k i' s' cap') with
    | Some x => Some x
    | None => k i s cap
    end.
Proof. done. Qed.

Lemma rmatch_Star {R} (p : N -> bool) i s cap
    (k : nat -> jsstring -> option jsstring -> option R) :
  rmatch (Star p) i s cap k = star_k p i s (fun i' s' => k i' s' cap).
Proof. done. Qed.

Lemma match_at_fence_open s :
  match_at re_fence_open 0 s
  = if prefixMatch chr_i (lit "```") s then
      let r := drop 3 s in
      let n := if prefixMatch chr_i (lit "json") r then 4 else 0 in
      Some (MatchResult 0 (3 + n + runLength isWhiteSpace (drop n r)) None)
    else None.
Proof.
  unfold match_at, re_fence_open, Lit_i.
  rewrite rmatch_Bol_start, rmatch_Seq, rmatch_str_re.
  destruct (prefixMatch chr_i (lit "```") s); [|done].
  change (length (lit "```")) with 3. cbn [Nat.add].
  rewrite rmatch_Seq, rmatch_Opt, rmatch_str_re.
  change (length (lit "json")) with 4. cbv zeta.
  destruct (prefixMatch chr_i (lit "json") (drop 3 s)).
  - cbn [Nat.add Nat.eqb]. rewrite rmatch_Star, star_k_always by done. done.
  - rewrite rmatch_Star, star_k_always by done. done.
Qed.

Lemma replace_first_fence_open s :
  replace_first re_fence_open [] s = stripOpenFence s.
Proof.
  unfold replace_first, exec, stripOpenFence.
  destruct s as [|c t]; cbn [search_from]; rewrite match_at_fence_open.
  - done.
  - destruct (prefixMatch chr_i (lit "```") (c :: t)).
    + cbv zeta. cbn [m_start m_end take app]. rewrite trimStart_drop.
      destruct (prefixMatch chr_i (lit "json") (drop 3 (c :: t)));
        by rewrite <- !drop_drop.
    + unfold re_fence_open. by rewrite search_Bol_later.
Qed.


Lemma prefixMatch_chr_eq p s :
  prefixMatch chr p s = true -> take (length p) s = p.
Proof.
  revert s. induction p as [|c p IH]; intros [|x s]; cbn; try done.
  unfold chr at 1. intros H. apply andb_true_iff in H as [H1 H2].
  apply N.eqb_eq in H1. subst. by rewrite IH.
Qed.

Lemma prefixMatch_chr_refl p s : prefixMatch chr p (p ++ s) = true.
Proof. induction p as [|c p IH]; cbn; [done|]. unfold chr at 1. by rewrite N.eqb_refl. Qed.

Lemma match_at_fence_close i s :
  match_at re_fence_close i s
  = if fenceTail s then Some (MatchResult i (i + length s) None) else None.
Proof.
  unfold match_at, re_fence_close, Lit.
  rewrite rmatch_Seq, rmatch_Star, star_k_exclusive.
  2:{ intros j c t Hc. rewrite rmatch_Seq, rmatch_str_re.
      change (prefixMatch chr (lit "```") (c :: t))
        with (chr 96 c && prefixMatch chr (lit "``") t).
      unfold chr at 1. destruct (c =? 96)%N eqn:E; [|done].
      apply N.eqb_eq in E. subst. by vm_compute in Hc. }
  rewrite rmatch_Seq, rmatch_str_re. unfold fenceTail, str_eqb.
  set (n := runLength isWhiteSpace s).
  assert (Hn : n <= length s).
  { unfold n. clear. induction s as [|c t IH]; simpl; [lia|].
    destruct (isWhiteSpace c); simpl; lia. }
  change (length (lit "```")) with 3.
  destruct (prefixMatch chr (lit "```") (drop n s)) eqn:Hp.
  - apply prefixMatch_chr_eq in Hp. change (length (lit "```")) with 3 in Hp.
    cbn [rmatch]. destruct (drop 3 (drop n s)) as [|x r] eqn:Hd.
    + assert (E : drop n s = lit "```").
      { rewrite <- (take_drop 3 (drop n s)), Hp, Hd. by rewrite app_nil_r. }
      rewrite bool_decide_eq_true_2 by done.
      do 2 f_equal. assert (length (drop n s) = 3) by (by rewrite E).
      rewrite length_drop in *. lia.
    + rewrite bool_decide_eq_false_2; [done|]. intros E. by rewrite E in Hd.
  - rewrite bool_decide_eq_false_2; [done|]. intros E.
    rewrite E in Hp. by vm_compute in Hp.
Qed.

Lemma search_fence_close s : forall full i,
  drop i full = s -> i <= length full ->
  match search_from re_fence_close i s with
  | Some m => take (m_start m) full ++ [] ++ drop (m_end m) full
  | None => full
  end
  = match cutCloseFence s with
    | Some p => take i full ++ p
    | None => full
    end.
Proof.
  induction s as [|c t IH]; intros full i Hs Hi;
    cbn [search_from cutCloseFence]; rewrite match_at_fence_close.
  - destruct (fenceTail []); [|done]. cbn [m_start m_end length].
    rewrite Nat.add_0_r. by rewrite Hs.
  - destruct (fenceTail (c :: t)).
    + cbn [m_start m_end]. rewrite drop_ge; [done|].
      rewrite <- Hs, length_drop. lia.
    + assert (Ht : drop (S i) full = t) by (by apply (drop_S_cons _ _ c)).
      assert (Hi' : S i <= length full).
      { destruct (decide (S i <= length full)); [done|].
        rewrite drop_ge in Hs by lia. done. }
      rewrite (IH full (S i) Ht Hi').
      destruct (cutCloseFence t) as [p|]; [|done]. cbn [option_map].
      rewrite (take_S_r full i c).
      * by rewrite <- app_assoc.
      * pose proof (lookup_drop full i 0) as Hl. rewrite Hs, Nat.add_0_r in Hl. done.
Qed.

Lemma replace_first_cut s :
  replace_first re_fence_close [] s
  = match cutCloseFence s with
    | Some p => p
    | None => s
    end.
Proof.
  unfold replace_first, exec.
  pose proof (search_fence_close s s 0 eq_refl ltac:(lia)) as H.
  cbn [take app] in H.
  destruct (search_from re_fence_close 0 s) as [m|]; exact H.
Qed.


Lemma startsWith_iff p s : startsWith p s = true <-> exists t, s = p ++ t.
Proof.
  revert s. induction p as [|c p IH]; intros s; cbn.
  - split; [eauto|done].
  - destruct s as [|x s]; [split; [done|by intros [t Ht]]|].
    rewrite andb_true_iff, N.eqb_eq, IH. split.
    + intros [-> [t ->]]. eauto.
    + intros [t [= -> ->]]. eauto.
Qed.

Lemma endsWith_iff p s : endsWith p s = true <-> exists t, s = t ++ p.
Proof.
  unfold endsWith. rewrite startsWith_iff. split.
  - intros [t Ht]. exists (rev t).
    rewrite <- (rev_involutive s), Ht, rev_app_distr. by rewrite rev_involutive.
  - intros [t ->]. exists (rev t). by rewrite rev_app_distr.
Qed.

Lemma trimStart_nil_iff s : trimStart s = [] <-> forallb isWhiteSpace s = true.
Proof.
  induction s as [|c t IH]; cbn; [done|].
  destruct (isWhiteSpace c); [exact IH|done].
Qed.

Lemma forallb_rev_eq {A} (f : A -> bool) (l : list A) :
  forallb f (rev l) = forallb f l.
Proof.
  induction l as [|x l IH]; cbn; [done|].
  rewrite forallb_app, IH. cbn. rewrite andb_true_r. apply andb_comm.
Qed.

Lemma trimEnd_nil_iff s : trimEnd s = [] <-> forallb isWhiteSpace s = true.
Proof.
  unfold trimEnd. rewrite <- forallb_rev_eq, <- trimStart_nil_iff.
  split; intros H.
  - apply (f_equal (@rev N)) in H. by rewrite rev_involutive in H.
  - by rewrite H.
Qed.

Lemma runLength_app_all (p : N -> bool) w c t :
  forallb p w = true -> p c = false -> runLength p (w ++ c :: t) = length w.
Proof.
  intros Hw Hc. induction w as [|x w IH]; cbn in *; [by rewrite Hc|].
  apply andb_true_iff in Hw as [-> Hw]. by rewrite IH.
Qed.

Lemma fenceTail_iff s :
  fenceTail s = true
  <-> exists w, s = w ++ lit "```" /\ forallb isWhiteSpace w = true.
Proof.
  unfold fenceTail, str_eqb. rewrite bool_decide_eq_true. split.
  - intros E. exists (take (runLength isWhiteSpace s) s). split.
    + by rewrite <- E, take_drop.
    + apply take_run_all.
  - intros (w & -> & Hw).
    change (lit "```") with (96%N :: lit "``").
    rewrite runLength_app_all by done. by rewrite drop_app_length.
Qed.

Lemma cutCloseFence_suffix p : cutCloseFence (p ++ lit "```") = Some (trimEnd p).
Proof.
  induction p as [|c p IH].
  - by vm_compute.
  - change ((c :: p) ++ lit "```") with (c :: (p ++ lit "```")).
    cbn [cutCloseFence]. destruct (fenceTail (c :: p ++ lit "```")) eqn:E.
    + apply fenceTail_iff in E as (w & Hw & Hall).
      change (c :: p ++ lit "```") with ((c :: p) ++ lit "```") in Hw.
      apply app_inv_tail in Hw. subst w.
      by rewrite (proj2 (trimEnd_nil_iff (c :: p)) Hall).
    + rewrite IH. cbn [option_map]. f_equal.
      rewrite trimEnd_cons_cases.
      destruct (trimEnd p) as [|x u] eqn:Ep; [|done].
      cbn. destruct (isWhiteSpace c) eqn:Hc; [|done].
      exfalso. apply trimEnd_nil_iff in Ep.
      assert (fenceTail (c :: p ++ lit "```") = true); [|congruence].
      apply fenceTail_iff. exists (c :: p). split; [done|]. cbn. by rewrite Hc.
Qed.

Lemma cutCloseFence_none s :
  (forall p, s <> p ++ lit "```") -> cutCloseFence s = None.
Proof.
  induction s as [|c t IH]; intros Hs; cbn [cutCloseFence].
  - by vm_compute.
  - destruct (fenceTail (c :: t)) eqn:E.
    + apply fenceTail_iff in E as (w & Hw & _). by apply Hs in Hw.
    + rewrite IH; [done|]. intros p ->. by apply (Hs (c :: p)).
Qed.

(** Removing the closing fence removes three backquotes at the end of
    the text and the white space before them. *)
Lemma replace_first_fence_close s :
  replace_first re_fence_close [] s = stripCloseFence s.
Proof.
  rewrite replace_first_cut. unfold stripCloseFence.
  destruct (endsWith (lit "```") s) eqn:E.
  - apply endsWith_iff in E as [p ->]. rewrite cutCloseFence_suffix.
    rewrite length_app. change (length (lit "```")) with 3.
    replace (length p + 3 - 3) with (length p) by lia.
    by rewrite take_app_length.
  - rewrite cutCloseFence_none; [done|]. intros p ->.
    assert (endsWith (lit "```") (p ++ lit "```") = true); [|congruence].
    apply endsWith_iff. eauto.
Qed.

(** The JSON recovery parser on the text without its fences. *)
Lemma parseJsonSafely_fences (sem : jsstring -> jsstring) (raw : jsstring) :
  parseJsonSafely sem raw
  = match trim raw with
    | [] => inl EmptyOutput
    | c :: t =>
        let withoutFences := stripCloseFence (stripOpenFence (c :: t)) in
        match JSON_parse withoutFences with
        | Some v => inr v
        | None =>
            match bracedSpan withoutFences with
            | None => inl InvalidModelOutput
            | Some inner =>
                match JSON_parse inner with
                | Some v => inr v
                | None => inl (SyntaxError (sem inner))
                end
            end
        end
    end.
Proof.
  rewrite parseJsonSafely_steps. destruct (trim raw) as [|c t]; [done|].
  by rewrite replace_first_fence_open, replace_first_fence_close.
Qed.

(** ** Computations of the server and the stores *)

Section MonadFacts.
Context {W X : Type}.
Variable f : State W -> X.

Lemma keeps_ret {A} (a : A) : keeps f (ret a).
Proof. by intros st. Qed.

Lemma keeps_throw {A} e : keeps (A:=A) f (throw e).
Proof. by intros st. Qed.

Lemma keeps_getState : keeps f getState.
Proof. by intros st. Qed.

Lemma keeps_liftEither {A} (r : jserror + A) : keeps f (liftEither r).
Proof. destruct r; [apply keeps_throw | apply keeps_ret]. Qed.

Lemma keeps_bind {A B} (m : M W A) (k : A -> M W B) :
  keeps f m -> (forall a, keeps f (k a)) -> keeps f (bind m k).
Proof.
  intros Hm Hk st. unfold bind. specialize (Hm st).
  destruct (m st) as [[e|a] st1]; simpl in *; [done|].
  by rewrite Hk.
Qed.

Lemma keeps_tryCatch {A} (m : M W A) (h : jserror -> M W A) :
  keeps f m -> (forall e, keeps f (h e)) -> keeps f (tryCatch m h).
Proof.
  intros Hm Hh st. unfold tryCatch. specialize (Hm st).
  destruct (m st) as [[e|a] st1]; simpl in *; [|done].
  by rewrite Hh.
Qed.

End MonadFacts.

Section MonadFacts2.
Context {W : Type}.

Lemma keeps_documents_call {A} (g : W -> W * A) : keeps documents (call g).
Proof. intros st. unfold call. by destruct (g (world st)). Qed.

Lemma keeps_runs_call {A} (g : W -> W * A) : keeps analysisRuns (call g).
Proof. intros st. unfold call. by destruct (g (world st)). Qed.

Lemma keeps_documents_setAnalysisRuns rs :
  keeps (W:=W) documents (setAnalysisRuns rs).
Proof. by intros st. Qed.

Lemma keeps_runs_setDocuments ds :
  keeps (W:=W) analysisRuns (setDocuments ds).
Proof. by intros st. Qed.

Lemma neverThrows_ret {A} (a : A) : neverThrows (W:=W) (ret a).
Proof. intros st. by exists a. Qed.

Lemma neverThrows_tryCatch {A} (m : M W A) (h : jserror -> M W A) :
  (forall e, neverThrows (h e)) -> neverThrows (tryCatch m h).
Proof.
  intros Hh st. unfold tryCatch.
  destruct (m st) as [[e|a] st1]; simpl; [apply Hh | by exists a].
Qed.

Lemma neverThrows_bind {A B} (m : M W A) (k : A -> M W B) :
  neverThrows m -> (forall a, neverThrows (k a)) -> neverThrows (bind m k).
Proof.
  intros Hm Hk st. unfold bind. destruct (Hm st) as [a Ha].
  destruct (m st) as [[e|a'] st1]; simpl in *; [done|]. apply Hk.
Qed.

(** The outcome and the final state of a computation, taken apart. *)
Lemma run_pair {A} (m : M W A) st : m st = (fst (m st), snd (m st)).
Proof. by destruct (m st). Qed.

End MonadFacts2.

Create HintDb stores.
#[export] Hint Resolve keeps_ret keeps_throw keeps_getState keeps_liftEither
  keeps_documents_call keeps_runs_call keeps_documents_setAnalysisRuns
  keeps_runs_setDocuments : stores.

Ltac keeps_stores :=
  repeat first
    [ apply keeps_bind; [|intros ?]
    | apply keeps_tryCatch; [|intros ?]
    | solve [auto with stores]
    | match goal with
      | |- keeps _ (if ?b then _ else _) => destruct b
      | |- keeps _ (match ?x with _ => _ end) => destruct x
      end ].

Section ServerFacts.
Context {W X : Type}.
Variable rt : Runtime W.
Variable cfg : Config.
Variable f : State W -> X.
Hypothesis f_call : forall A (g : W -> W * A), keeps f (call g).

Lemma keeps_ocr buf : keeps f (extractTextFromPdfBufferWithGemini rt cfg buf).
Proof. unfold extractTextFromPdfBufferWithGemini. keeps_stores. Qed.

Lemma keeps_downloadBuffer u : keeps f (downloadBuffer rt u).
Proof. unfold downloadBuffer. keeps_stores. Qed.

Lemma keeps_getDocumentBuffer doc : keeps f (getDocumentBuffer rt doc).
Proof.
  unfold getDocumentBuffer. pose proof keeps_downloadBuffer. keeps_stores.
Qed.

Lemma keeps_extractTextFromBuffer file :
  keeps f (extractTextFromBuffer rt cfg file).
Proof.
  unfold extractTextFromBuffer. pose proof keeps_ocr. keeps_stores.
Qed.

Lemma keeps_buildDocumentPartsLoop docs : forall parts,
  keeps f (buildDocumentPartsLoop rt cfg docs parts).
Proof.
  induction docs as [|d docs IH]; intros parts; simpl.
  - keeps_stores.
  - pose proof keeps_getDocumentBuffer. keeps_stores.
Qed.

Lemma keeps_buildDocumentParts docs : keeps f (buildDocumentParts rt cfg docs).
Proof. apply keeps_buildDocumentPartsLoop. Qed.

Lemma keeps_generateStructuredJson prompt parts :
  keeps f (generateStructuredJson rt prompt parts).
Proof. unfold generateStructuredJson. keeps_stores. Qed.

Lemma keeps_runOptionBAnalysis txt parts :
  keeps f (runOptionBAnalysis rt cfg txt parts).
Proof.
  unfold runOptionBAnalysis. pose proof keeps_generateStructuredJson.
  keeps_stores.
Qed.

End ServerFacts.

Lemma split_from_nonempty r s : forall i p skip acc,
  split_from r i p skip acc s <> [].
Proof.
  induction s as [|c t IH]; intros i p skip acc; simpl; [done|].
  destruct skip; [|apply IH].
  destruct (match_at r i (c :: t)) as [m|]; [|apply IH].
  destruct (m_end m =? p); [apply IH|].
  by destruct (m_end m =? i).
Qed.

Lemma split_nonempty_input r c t : split r (c :: t) <> [].
Proof. apply split_from_nonempty. Qed.

(** A piece under construction that is not empty ends up in the result. *)
Lemma split_from_keeps_piece r s : forall i p acc,
  acc <> [] -> exists x, In x (split_from r i p 0 acc s) /\ x <> [].
Proof.
  induction s as [|c t IH]; intros i p acc Hacc; simpl.
  - exists acc. auto.
  - assert (Hc : acc ++ [c] <> []) by (by destruct acc).
    destruct (match_at r i (c :: t)) as [m|]; [|by apply IH].
    destruct (m_end m =? p); [by apply IH|].
    destruct (m_end m =? i); exists acc; simpl; auto.
Qed.

Lemma split_ws_word c t :
  isWhiteSpace c = false ->
  List.filter nonEmpty (split re_ws_run (c :: t)) <> [].
Proof.
  intros Hc. unfold split. cbn [split_from].
  rewrite match_at_ws_run, Hc.
  destruct (split_from_keeps_piece re_ws_run t 1 0 ([] ++ [c])) as (x & Hin & Hx); [done|].
  intros E. assert (Hf : In x (List.filter nonEmpty (split_from re_ws_run 1 0 0 ([] ++ [c]) t))).
  { apply filter_In. split; [done|]. by destruct x. }
  rewrite E in Hf. destruct Hf.
Qed.

Lemma trimStart_snoc l c :
  isWhiteSpace c = false -> trimStart (l ++ [c]) = trimStart l ++ [c].
Proof.
  intros Hc. induction l as [|x l IH]; simpl; [by rewrite Hc|].
  by destruct (isWhiteSpace x).
Qed.

Lemma trimStart_head s c t : trimStart s = c :: t -> isWhiteSpace c = false.
Proof.
  induction s as [|x s IH]; simpl; [done|].
  destruct (isWhiteSpace x) eqn:Hx; [done|]. by intros [= -> _].
Qed.

Lemma trimEnd_cons c t :
  isWhiteSpace c = false -> trimEnd (c :: t) = c :: trimEnd t.
Proof.
  intros Hc. unfold trimEnd. simpl rev at 2.
  rewrite trimStart_snoc by done. by rewrite rev_app_distr.
Qed.

(** A trimmed text that is not empty starts with a code unit that is not
    white space. *)
Lemma trim_head s c t : trim s = c :: t -> isWhiteSpace c = false.
Proof.
  unfold trim. destruct (trimStart s) as [|x u] eqn:E.
  - by cbv.
  - pose proof (trimStart_head _ _ _ E) as Hx.
    rewrite trimEnd_cons by done. by intros [= <- _].
Qed.

Lemma normalizeExtractedText_head value c t :
  normalizeExtractedText value = c :: t -> isWhiteSpace c = false.
Proof. apply trim_head. Qed.


Section Invariant.
Context {W : Type}.
Variable rt : Runtime W.
Variable cfg : Config.

Lemma neverThrows_buildDocumentPartsLoop docs : forall parts,
  neverThrows (buildDocumentPartsLoop rt cfg docs parts).
Proof.
  induction docs as [|d docs IH]; intros parts; simpl.
  - apply neverThrows_ret.
  - apply neverThrows_bind; [|done].
    apply neverThrows_tryCatch. intros e. apply neverThrows_ret.
Qed.

Lemma newDocument_invariant file txt cloud id now :
  docInvariant (newDocument cfg file txt cloud id now).
Proof.
  split; simpl; [done|].
  destruct txt as [|c t]; [done|].
  pose proof (split_nonempty_input re_ws_run c t).
  split; [|done]. destruct (split re_ws_run (c :: t)); simpl; [done|lia].
Qed.

(** What one turn of the recovery loop does to the state. *)
Lemma recoverOne_spec key st :
  exists st',
    recoverOne rt cfg key st = (inr tt, st')
    /\ analysisRuns st' = analysisRuns st
    /\ (forall k, is_Some (documents st !! k) -> is_Some (documents st' !! k))
    /\ (storeInvariant (documents st) -> storeInvariant (documents st')).
Proof.
  unfold recoverOne, tryCatch, bind at 1. cbn [getState].
  destruct (documents st !! key) as [doc|] eqn:Hdoc; [|by exists st].
  unfold bind at 1.
  pose proof (keeps_getDocumentBuffer rt documents (@keeps_documents_call W) doc st) as Hd1.
  pose proof (keeps_getDocumentBuffer rt analysisRuns (@keeps_runs_call W) doc st) as Hr1.
  destruct (getDocumentBuffer rt doc st) as [[e|[[|b bs]|]] st1];
    simpl in Hd1, Hr1; try (exists st1; rewrite Hd1; by eauto).
  unfold bind at 1.
  pose proof (keeps_ocr rt cfg documents (@keeps_documents_call W) (b :: bs) st1) as Hd2.
  pose proof (keeps_ocr rt cfg analysisRuns (@keeps_runs_call W) (b :: bs) st1) as Hr2.
  destruct (extractTextFromPdfBufferWithGemini rt cfg (b :: bs) st1) as [[e|ocr] st2];
    simpl in Hd2, Hr2; try (exists st2; rewrite Hd2, Hd1; split_and!; [done|congruence|done..]).
  destruct (normalizeExtractedText ocr) as [|c t] eqn:Hn;
    [exists st2; rewrite Hd2, Hd1; split_and!; [done|congruence|done..]|].
  unfold bind, getState, setDocuments. cbn.
  eexists. split; [done|]. cbn. rewrite Hd2, Hd1. split_and!.
  - congruence.
  - intros k Hk. destruct (decide (doc_id doc = k)) as [->|];
      [by rewrite lookup_insert_eq|rewrite lookup_insert_ne by done].
    destruct (decide (key = k)) as [->|];
      [by rewrite lookup_insert_eq|by rewrite lookup_insert_ne].
  - intros Hinv.
    pose proof (normalizeExtractedText_head _ _ _ Hn) as Hc.
    pose proof (split_ws_word c t Hc) as Hw.
    repeat apply map_Forall_insert_2; [..|done].
    all: split; cbn; [done|].
    all: split; [|done]; intros E; apply length_zero_iff_nil in E; done.
Qed.

Lemma forEach_recoverOne_spec keys : forall st,
  exists st',
    forEach keys (recoverOne rt cfg) st = (inr tt, st')
    /\ analysisRuns st' = analysisRuns st
    /\ (forall k, is_Some (documents st !! k) -> is_Some (documents st' !! k))
    /\ (storeInvariant (documents st) -> storeInvariant (documents st')).
Proof.
  induction keys as [|key keys IH]; intros st; simpl.
  - by exists st.
  - unfold bind. destruct (recoverOne_spec key st) as (st1 & -> & Hr & Hk & Hi).
    destruct (IH st1) as (st2 & -> & Hr2 & Hk2 & Hi2).
    exists st2. split_and!; [done|congruence|auto..].
Qed.

(** OCR recovery never throws, leaves the runs alone, keeps every key
    of the document store and preserves the invariant of the
    documents. *)
Lemma recoverWeakPdfDocuments_spec selected st :
  exists st',
    recoverWeakPdfDocuments rt cfg selected st = (inr tt, st')
    /\ analysisRuns st' = analysisRuns st
    /\ (forall k, is_Some (documents st !! k) -> is_Some (documents st' !! k))
    /\ (storeInvariant (documents st) -> storeInvariant (documents st')).
Proof.
  unfold recoverWeakPdfDocuments, bind. cbn [getState].
  apply forEach_recoverOne_spec.
Qed.

Lemma uploadLoop_invariant files : forall uploaded st,
  storeInvariant (documents st) ->
  storeInvariant (documents (snd (uploadLoop rt cfg files uploaded st))).
Proof.
  induction files as [|file files IH]; intros uploaded st Hinv; simpl; [done|].
  unfold bind at 1.
  pose proof (keeps_extractTextFromBuffer rt cfg documents (@keeps_documents_call W) file st) as Hd1.
  destruct (extractTextFromBuffer rt cfg file st) as [[e|extracted] st1];
    simpl in Hd1; [cbn; by rewrite Hd1|].
  unfold bind at 1, call at 1.
  destruct (uploadBufferToCloudinary rt (world st1) file) as [w2 [e|cloud]]; cbn;
    [by rewrite Hd1|].
  unfold bind at 1, call at 1. cbn.
  destruct (randomUUID rt w2) as [w3 id].
  unfold bind at 1, call at 1. cbn.
  destruct (nowISO rt w3) as [w4 now].
  apply IH. cbn. apply map_Forall_insert_2; [apply newDocument_invariant|].
  by rewrite Hd1.
Qed.

Lemma upload_invariant files st :
  storeInvariant (documents st) ->
  storeInvariant (documents (snd (upload rt cfg files st))).
Proof.
  intros Hinv. unfold upload, tryCatch.
  destruct files as [|file files]; [done|].
  unfold bind.
  pose proof (uploadLoop_invariant (file :: files) [] st Hinv) as H.
  by destruct (uploadLoop rt cfg (file :: files) [] st) as [[e|u] st1].
Qed.

Lemma keeps_documents_finishAnalysis selected txt parts :
  keeps documents (finishAnalysis rt cfg selected txt parts).
Proof.
  unfold finishAnalysis.
  pose proof (keeps_runOptionBAnalysis rt cfg documents (@keeps_documents_call W)).
  keeps_stores.
Qed.

Lemma analyzeBody_invariant reqBody st :
  storeInvariant (documents st) ->
  storeInvariant (documents (snd (analyzeBody rt cfg reqBody st))).
Proof.
  intros Hinv. unfold analyzeBody.
  destruct (prop "documentIds" reqBody) as [[| | | |[|i ids]|]|]; try done.
  unfold bind at 1. cbn [getState].
  destruct (resolveIds (documents st) (i :: ids)) as [|k ks]; [done|].
  unfold bind at 1.
  assert (Hrec : exists st1,
    (if enableOcrRecoveryOnAnalyze cfg
     then recoverWeakPdfDocuments rt cfg (k :: ks) else ret tt) st = (inr tt, st1)
    /\ storeInvariant (documents st1)).
  { destruct (enableOcrRecoveryOnAnalyze cfg).
    - destruct (recoverWeakPdfDocuments_spec (k :: ks) st) as (st1 & E & _ & _ & Hi).
      exists st1. auto.
    - by exists st. }
  destruct Hrec as (st1 & -> & Hinv1).
  unfold bind at 1. cbn [getState].
  set (selected := lookupAll (documents st1) (k :: ks)).
  unfold bind at 1.
  assert (Hparts : keeps documents
    (if belowAnalysisSignal cfg (extractedOnlyText selected)
     then buildDocumentParts rt cfg selected else ret [])).
  { destruct (belowAnalysisSignal cfg (extractedOnlyText selected)).
    - apply keeps_buildDocumentParts, (@keeps_documents_call W).
    - apply keeps_ret. }
  specialize (Hparts st1).
  destruct ((if belowAnalysisSignal cfg (extractedOnlyText selected)
     then buildDocumentParts rt cfg selected else ret []) st1) as [[e|parts] st2];
    simpl in Hparts; [cbn; by rewrite Hparts|].
  destruct (belowAnalysisSignal cfg (extractedOnlyText selected)), parts;
    try (rewrite keeps_documents_finishAnalysis); cbn; by rewrite Hparts.
Qed.

Lemma analyze_invariant reqBody st :
  storeInvariant (documents st) ->
  storeInvariant (documents (snd (analyze rt cfg reqBody st))).
Proof.
  intros Hinv. unfold analyze, tryCatch.
  pose proof (analyzeBody_invariant reqBody st Hinv) as H.
  by destruct (analyzeBody rt cfg reqBody st) as [[e|r] st1].
Qed.

Lemma serve_invariant req st :
  storeInvariant (documents st) ->
  storeInvariant (documents (snd (serve rt cfg req st))).
Proof. destruct req; [apply upload_invariant | apply analyze_invariant]. Qed.

Lemma serveAll_invariant reqs : forall st,
  storeInvariant (documents st) ->
  storeInvariant (documents (serveAll rt cfg reqs st)).
Proof.
  induction reqs as [|req reqs IH]; intros st Hinv; simpl; [done|].
  by apply IH, serve_invariant.
Qed.

End Invariant.

(** C9: every document of the store satisfies [textChars = length text]
    and [textWords = 0] exactly when the text is empty, in every state the
    server reaches from empty stores by uploads and analyses, the latter
    including the OCR recovery that overwrites the three fields. *)
Theorem document_store_invariant {W : Type} (rt : Runtime W) (cfg : Config)
    (w : W) (reqs : list Request) (key : jsstring) (doc : Document) :
  documents (serveAll rt cfg reqs (mkState ∅ ∅ w)) !! key = Some doc ->
  textChars doc = length (text doc)
  /\ (textWords doc = 0 <-> text doc = []).
Proof.
  intros Hdoc.
  assert (H : storeInvariant (documents (serveAll rt cfg reqs (mkState ∅ ∅ w)))).
  { apply serveAll_invariant. cbn. apply map_Forall_empty. }
  exact (H key doc Hdoc).
Qed.

(** ** Attachments *)

Section Attachments.
Context {W : Type}.
Variable rt : Runtime W.
Variable cfg : Config.

Lemma firstPdfs_take n : forall selected,
  take n (List.filter (isPdfDoc rt) selected) = firstPdfs rt n selected.
Proof.
  intros selected. revert n.
  induction selected as [|doc rest IH]; intros n; simpl.
  - by destruct n.
  - destruct (isPdfDoc rt doc); [|apply IH].
    destruct n; simpl; [done|]. by rewrite IH.
Qed.

Lemma buildDocumentPartsLoop_attachAll docs : forall parts st,
  buildDocumentPartsLoop rt cfg docs parts st =
  match attachAll rt cfg docs st with
  | (inr qs, st') => (inr (parts ++ qs), st')
  | (inl e, st') => (inl e, st')
  end.
Proof.
  induction docs as [|doc rest IH]; intros parts st;
    cbn [buildDocumentPartsLoop attachAll].
  - unfold ret. by rewrite app_nil_r.
  - unfold bind at 1, tryCatch, attachOne. unfold bind at 1.
    destruct (getDocumentBuffer rt doc st) as [[e|[[|b bs]|]] st1];
      cbv beta iota delta [ret].
    1,2,4: rewrite IH; destruct (attachAll rt cfg rest st1) as [[e'|qs] st2]; done.
    rewrite Z.leb_antisym.
    destruct (maxMultimodalBytes cfg <? Z.of_nat (length (b :: bs)))%Z;
      cbv beta iota delta [ret negb];
      rewrite IH; destruct (attachAll rt cfg rest st1) as [[e'|qs] st2]; try done.
    unfold attachmentOf. by rewrite <- app_assoc.
Qed.

Lemma attachAll_contributions docs : forall st,
  exists contributions,
    fst (attachAll rt cfg docs st) = inr (concat contributions)
    /\ Forall2 (contributionOf cfg) docs contributions.
Proof.
  induction docs as [|doc rest IH]; intros st; simpl.
  - exists []. split; [done|constructor].
  - assert (H1 : exists ps st1, attachOne rt cfg doc st = (inr ps, st1)
                             /\ contributionOf cfg doc ps).
    { unfold attachOne.
      destruct (getDocumentBuffer rt doc st) as [[e|[[|b bs]|]] st1];
        try (exists [], st1; split; [done|by left]).
      destruct (Z.of_nat (length (b :: bs)) <=? maxMultimodalBytes cfg)%Z eqn:Hle.
      - exists (attachmentOf doc (b :: bs)), st1. split; [done|]. right.
        exists (b :: bs). split_and!; [done|by apply Z.leb_le|done].
      - exists [], st1. split; [done|by left]. }
    destruct H1 as (ps & st1 & -> & Hps).
    destruct (IH st1) as (cs & Hcs & Hall).
    destruct (attachAll rt cfg rest st1) as [[e|qs] st2]; simpl in Hcs; [done|].
    exists (ps :: cs). simpl. split; [congruence|by constructor].
Qed.

End Attachments.

(** C10: in multimodal mode the attachment candidates are the first
    [maxMultimodalDocs] PDF-type documents of the selection, in its order,
    fixed by the selection alone; the parts built are the contributions of
    these candidates, one after the other, each being nothing (the bytes
    were not retrieved, were empty or exceeded the byte cap) or the
    attachment of that candidate.  No other document contributes, however
    few candidates do. *)
Theorem attachment_candidates {W : Type} (rt : Runtime W) (cfg : Config)
    (selected : list Document) (st : State W) :
  (0 <= maxMultimodalDocs cfg)%Z ->
  let candidates := firstPdfs rt (Z.to_nat (maxMultimodalDocs cfg)) selected in
  buildDocumentParts rt cfg selected st = attachAll rt cfg candidates st
  /\ exists contributions,
       fst (buildDocumentParts rt cfg selected st) = inr (concat contributions)
       /\ Forall2 (contributionOf cfg) candidates contributions.
Proof.
  intros Hmax candidates.
  assert (E : buildDocumentParts rt cfg selected st = attachAll rt cfg candidates st).
  { unfold buildDocumentParts. rewrite slice0_nonneg by done.
    rewrite firstPdfs_take. fold candidates.
    rewrite buildDocumentPartsLoop_attachAll.
    by destruct (attachAll rt cfg candidates st) as [[e|qs] st']. }
  split; [done|]. rewrite E. apply attachAll_contributions.
Qed.

(** ** The analyze endpoint *)

Lemma getSignalLength_nonWhitespaceCount s :
  getSignalLength s = nonWhitespaceCount s.
Proof. unfold getSignalLength, nonWhitespaceCount. by rewrite replace_all_ws. Qed.

(** The separators of the extracted-only text carry no signal. *)
Lemma nonWhitespaceCount_join xs :
  nonWhitespaceCount (join [LF; LF] xs) = nonWhitespaceCount (concat xs).
Proof.
  unfold nonWhitespaceCount.
  induction xs as [|x [|y rest] IH].
  - done.
  - simpl. by rewrite app_nil_r.
  - change (join [LF; LF] (x :: y :: rest)) with (x ++ [LF; LF] ++ join [LF; LF] (y :: rest)).
    change (concat (x :: y :: rest)) with (x ++ concat (y :: rest)).
    rewrite !List.filter_app, !length_app, IH. done.
Qed.

Lemma startsWith_app p s : startsWith p (p ++ s) = true.
Proof. induction p as [|c p IH]; simpl; [done|]. by rewrite N.eqb_refl. Qed.

Lemma includes_app_r p a s : includes p s = true -> includes p (a ++ s) = true.
Proof.
  intros H. induction a as [|c a IH]; simpl; [done|].
  rewrite IH. apply orb_true_r.
Qed.



Lemma resolveIds_present (ds : gmap jsstring Document) ids :
  Forall (fun k => is_Some (ds !! k)) (resolveIds ds ids).
Proof.
  unfold resolveIds. induction ids as [|j ids IH]; simpl; [constructor|].
  destruct j; try done. destruct (ds !! s) eqn:E; simpl; [|done].
  constructor; [by rewrite E|done].
Qed.

Lemma lookupAll_present (ds : gmap jsstring Document) keys :
  Forall (fun k => is_Some (ds !! k)) keys ->
  Forall2 (fun k doc => ds !! k = Some doc) keys (lookupAll ds keys).
Proof.
  unfold lookupAll. induction 1 as [|k keys [doc Hk] _ IH]; simpl; [constructor|].
  rewrite Hk. simpl. by constructor.
Qed.

Lemma Forall2_map_image {A B C} (P : A -> B -> Prop) (f : B -> C) xs ys :
  Forall2 P xs ys ->
  Forall2 (fun x z => exists y, P x y /\ z = f y) xs (List.map f ys).
Proof. induction 1; simpl; constructor; eauto. Qed.

Section Analyze.
Context {W : Type}.
Variable rt : Runtime W.
Variable cfg : Config.

Lemma recovery_returns keys st :
  (if enableOcrRecoveryOnAnalyze cfg
   then recoverWeakPdfDocuments rt cfg keys else ret tt) st
  = (inr tt, afterRecovery rt cfg keys st).
Proof.
  unfold afterRecovery. destruct (enableOcrRecoveryOnAnalyze cfg); [|done].
  by destruct (recoverWeakPdfDocuments_spec rt cfg keys st) as (st1 & -> & _).
Qed.

Lemma afterRecovery_runs keys st :
  analysisRuns (afterRecovery rt cfg keys st) = analysisRuns st.
Proof.
  unfold afterRecovery. destruct (enableOcrRecoveryOnAnalyze cfg); [|done].
  by destruct (recoverWeakPdfDocuments_spec rt cfg keys st) as (st1 & -> & ? & _).
Qed.

Lemma afterRecovery_present keys st k :
  is_Some (documents st !! k) ->
  is_Some (documents (afterRecovery rt cfg keys st) !! k).
Proof.
  unfold afterRecovery. destruct (enableOcrRecoveryOnAnalyze cfg); [|done].
  destruct (recoverWeakPdfDocuments_spec rt cfg keys st) as (st1 & -> & ? & Hk & _).
  apply Hk.
Qed.

Lemma belowAnalysisSignal_spec selected :
  belowAnalysisSignal cfg (extractedOnlyText selected)
  = (Z.of_nat (nonWhitespaceCount (concat (List.map text selected)))
     <? minAnalysisSignal cfg)%Z.
Proof.
  unfold belowAnalysisSignal, extractedOnlyText.
  by rewrite getSignalLength_nonWhitespaceCount, nonWhitespaceCount_join.
Qed.

(** The analyze endpoint from the point where the selection is read. *)
Lemma analyzeBody_selected reqBody ids st :
  prop "documentIds" reqBody = Some (JArray ids) ->
  resolveIds (documents st) ids <> [] ->
  let keys := resolveIds (documents st) ids in
  let st1 := afterRecovery rt cfg keys st in
  let selected := lookupAll (documents st1) keys in
  analyzeBody rt cfg reqBody st
  = (documentParts <-
       (if belowAnalysisSignal cfg (extractedOnlyText selected)
        then buildDocumentParts rt cfg selected else ret []) ;;
     match belowAnalysisSignal cfg (extractedOnlyText selected), documentParts with
     | true, [] =>
         ret (mkResponse 400
                (InsufficientBody insufficientText (List.map detailOf selected)))
     | _, _ =>
         finishAnalysis rt cfg selected (analysisTextFor cfg selected) documentParts
     end) st1.
Proof.
  intros Hids Hkeys keys st1 selected. unfold analyzeBody. rewrite Hids.
  destruct ids as [|i ids]; [done|].
  unfold bind at 1. cbn [getState]. fold keys.
  destruct keys as [|k ks] eqn:Ek; [done|].
  unfold bind at 1. rewrite recovery_returns. fold st1.
  unfold bind at 1. cbn [getState]. fold selected.
  unfold analysisTextFor.
  unfold bind.
  destruct (belowAnalysisSignal cfg (extractedOnlyText selected)); done.
Qed.

End Analyze.


(** ** The requests of an analysis in text mode *)

Lemma trimStart_split s :
  exists ws, s = ws ++ trimStart s /\ forallb isWhiteSpace ws = true.
Proof.
  induction s as [|c t (ws & Hs & Hws)]; [by exists []|].
  cbn [trimStart]. destruct (isWhiteSpace c) eqn:Hc.
  - exists (c :: ws). cbn. rewrite Hc, Hws. split; [by f_equal|done].
  - by exists [].
Qed.

Lemma trimEnd_split s :
  exists ws, s = trimEnd s ++ ws /\ forallb isWhiteSpace ws = true.
Proof.
  destruct (trimStart_split (rev s)) as (ws & Hs & Hws).
  exists (rev ws). split.
  - unfold trimEnd. rewrite <- rev_app_distr, <- Hs. by rewrite rev_involutive.
  - apply forallb_forall. intros c Hc. apply in_rev in Hc.
    by apply (proj1 (forallb_forall _ _) Hws).
Qed.

(** The combined text starts with the header of its first block, so
    trimming removes white space at its end only. *)
Lemma combined_text_trimStart (n : nat) (selected : list Document) :
  let T :=
    take n (join ([LF; LF] ++ lit "---" ++ [LF; LF])
              (List.map (fun doc => lit "Document: " ++ doc_name doc ++ [LF] ++ text doc)
                 selected)) in
  trimStart T = T.
Proof.
  cbn zeta. destruct selected as [|d ds]; [cbn [List.map join]; by rewrite take_nil|].
  assert (exists rest,
            join ([LF; LF] ++ lit "---" ++ [LF; LF])
              (List.map (fun doc => lit "Document: " ++ doc_name doc ++ [LF] ++ text doc)
                 (d :: ds))
            = 68%N :: rest) as [rest ->].
  { cbn [List.map join]. destruct (List.map _ ds); eexists; reflexivity. }
  destruct n; [done|]. reflexivity.
Qed.

Lemma buildPrompt_ends transcriptText lowSignal hasAttachedDocs :
  exists instructions,
    buildPrompt transcriptText lowSignal hasAttachedDocs
    = instructions ++ lit "Transcript Text:" ++ [LF] ++ transcriptText.
Proof.
  unfold buildPrompt. eexists. rewrite !app_assoc. reflexivity.
Qed.

Section Recorded.
Context {W : Type}.
Variable rt : Runtime W.
Variable cfg : Config.

Lemma generateStructuredJson_recorded prompt parts st out st' :
  generateStructuredJson (recording rt) prompt parts st = (out, st') ->
  sentToModel st' = sentToModel st ++ [TextPart prompt :: parts].
Proof.
  unfold generateStructuredJson, bind, call, sentToModel. cbn.
  destruct (generateContent rt (fst (world st)) (TextPart prompt :: parts))
    as [w' [e|raw]]; cbn; [by intros [= <- <-]|].
  destruct (parseJsonSafely _ raw); cbn; by intros [= <- <-].
Qed.

(** The requests of one analysis, as the recording runtime keeps them. *)
Lemma runOptionBAnalysis_recorded txt parts st out st' :
  runOptionBAnalysis (recording rt) cfg txt parts st = (out, st') ->
  let cleaned := trim txt in
  let hasText := 10 <=? length cleaned in
  let hasDocs := match parts with [] => false | _ :: _ => true end in
  let prompt :=
    buildPrompt (if hasText then cleaned else placeholderText)
      (negb hasText || (length cleaned <? 400)) hasDocs in
  let retryPrompt :=
    prompt ++ [LF; LF]
    ++ lit "Important: Fill all sections with transcript-grounded facts and include citations when present." in
  exists sent,
    sentToModel st' = sentToModel st ++ sent
    /\ if hasApiKey cfg && (hasText || hasDocs) then
         sent = [TextPart prompt :: parts]
         \/ (retryUnderfilled cfg = true
             /\ sent = [TextPart prompt :: parts; TextPart retryPrompt :: parts])
       else sent = [].
Proof.
  cbn zeta. intros E. unfold runOptionBAnalysis in E.
  destruct (hasApiKey cfg) eqn:Hkey; cbn [negb andb] in E |- *;
    [|injection E as <- <-; exists []; by rewrite app_nil_r].
  destruct (negb (10 <=? length (trim txt))
            && negb (match parts with [] => false | _ :: _ => true end)) eqn:Hguard.
  { injection E as <- <-. exists []. rewrite app_nil_r. split; [done|].
    apply andb_true_iff in Hguard as [Ht Hd].
    apply negb_true_iff in Ht, Hd. by rewrite Ht, Hd. }
  assert ((10 <=? length (trim txt))
          || (match parts with [] => false | _ :: _ => true end) = true) as ->.
  { destruct (10 <=? length (trim txt)); [done|].
    destruct (match parts with [] => false | _ :: _ => true end); done. }
  unfold bind at 1 in E.
  match type of E with
  | context [generateStructuredJson ?r ?q parts st] =>
      destruct (generateStructuredJson r q parts st) as [[e|parsed] st1] eqn:E1;
      apply generateStructuredJson_recorded in E1
  end.
  { injection E as <- <-. eexists [_]. split; [exact E1|by left]. }
  destruct (retryUnderfilled cfg && isLikelyUnderfilled _) eqn:Hretry;
    [|injection E as <- <-; eexists [_]; split; [exact E1|by left]].
  apply andb_true_iff in Hretry as [Hretry _]. unfold bind at 1 in E.
  match type of E with
  | context [generateStructuredJson ?r ?q parts st1] =>
      destruct (generateStructuredJson r q parts st1) as [[e|parsed2] st2] eqn:E2;
      apply generateStructuredJson_recorded in E2
  end.
  all: injection E as <- <-; eexists [_; _]; rewrite E2, E1, <- app_assoc.
  all: split; [done|by right].
Qed.

(** Storing the run makes no request. *)
Lemma finishAnalysis_recorded selected txt parts st out st' :
  finishAnalysis (recording rt) cfg selected txt parts st = (out, st') ->
  exists res st2,
    runOptionBAnalysis (recording rt) cfg txt parts st = (res, st2)
    /\ sentToModel st' = sentToModel st2.
Proof.
  unfold finishAnalysis. unfold bind at 1.
  destruct (runOptionBAnalysis (recording rt) cfg txt parts st) as [[e|res] st2] eqn:E.
  { intros [= <- <-]. by eexists _, _. }
  unfold bind, call, getState, setAnalysisRuns, ret, sentToModel. cbn.
  destruct (randomUUID rt (fst (world st2))) as [w1 rid]. cbn.
  destruct (nowISO rt w1) as [w2 now]. cbn.
  intros [= <- <-]. by eexists _, _.
Qed.

End Recorded.

Lemma analyzeBody_text_mode {W : Type} (rt : Runtime W) (cfg : Config)
    (reqBody : option json) (ids : list json) (st : State W) :
  let keys := resolveIds (documents st) ids in
  let st1 := afterRecovery rt cfg keys st in
  let selected := lookupAll (documents st1) keys in
  prop "documentIds" reqBody = Some (JArray ids) ->
  keys <> [] ->
  (minAnalysisSignal cfg
   <= Z.of_nat (nonWhitespaceCount (concat (List.map text selected))))%Z ->
  (0 <= maxInputChars cfg)%Z ->
  analyzeBody rt cfg reqBody st
  = finishAnalysis rt cfg selected
      (take (Z.to_nat (maxInputChars cfg))
         (join ([LF; LF] ++ lit "---" ++ [LF; LF])
            (List.map (fun doc => lit "Document: " ++ doc_name doc ++ [LF] ++ text doc)
               selected)))
      [] st1.
Proof.
  intros keys st1 selected Hids Hkeys Hsignal Hmax.
  rewrite (analyzeBody_selected rt cfg reqBody ids st Hids Hkeys).
  fold keys st1 selected. unfold analysisTextFor.
  rewrite belowAnalysisSignal_spec.
  rewrite (proj2 (Z.ltb_ge _ _) Hsignal).
  unfold bind, ret, combinedText. by rewrite slice0_nonneg.
Qed.

Lemma analyze_state {W : Type} (rt : Runtime W) (cfg : Config) reqBody (st : State W) :
  snd (analyze rt cfg reqBody st) = snd (analyzeBody rt cfg reqBody st).
Proof.
  unfold analyze, tryCatch. by destruct (analyzeBody rt cfg reqBody st) as [[e|r] st'].
Qed.

(** C1: when the combined signal length of the selected documents is at
    least the analysis threshold, no document part is built: the request
    continues, from the state in which the selection was read, with the
    call of the analyzer on no document part and on the text [T] made of
    the blocks [Document: <name>\n<text>] of the selected documents, in
    order, joined by the separator and cut to the character budget.  What
    the model then receives is recorded: with an API key and at least 10
    code units left of [T] once trimmed, one request of a single text
    part, the prompt, which ends with [T] without the white space at its
    end (it has none at its start), and, only when the retry on underfilled
    results is enabled, possibly a second request of a single text part,
    the same prompt with the reminder appended; otherwise no request at
    all.  No request carries an attachment. *)
Theorem text_mode_sends_combined_text {W : Type} (rt0 : Runtime W) (cfg : Config)
    (reqBody : option json) (ids : list json) (st : State (W * list (list Part))) :
  let rt := recording rt0 in
  let keys := resolveIds (documents st) ids in
  let st1 := afterRecovery rt cfg keys st in
  let selected := lookupAll (documents st1) keys in
  let T :=
    take (Z.to_nat (maxInputChars cfg))
      (join ([LF; LF] ++ lit "---" ++ [LF; LF])
         (List.map (fun doc => lit "Document: " ++ doc_name doc ++ [LF] ++ text doc)
            selected)) in
  let st' := snd (analyze rt cfg reqBody st) in
  prop "documentIds" reqBody = Some (JArray ids) ->
  keys <> [] ->
  (minAnalysisSignal cfg
   <= Z.of_nat (nonWhitespaceCount (concat (List.map text selected))))%Z ->
  (0 <= maxInputChars cfg)%Z ->
  analyzeBody rt cfg reqBody st = finishAnalysis rt cfg selected T [] st1
  /\ (exists ws, T = trim T ++ ws /\ forallb isWhiteSpace ws = true)
  /\ exists sent,
       sentToModel st' = sentToModel st1 ++ sent
       /\ if hasApiKey cfg && (10 <=? length (trim T)) then
            exists instructions,
              let prompt := instructions ++ lit "Transcript Text:" ++ [LF] ++ trim T in
              sent = [[TextPart prompt]]
              \/ (retryUnderfilled cfg = true
                  /\ sent
                     = [[TextPart prompt];
                        [TextPart
                           (prompt ++ [LF; LF]
                            ++ lit "Important: Fill all sections with transcript-grounded facts and include citations when present.")]])
          else sent = [].
Proof.
  intros rt keys st1 selected T st' Hids Hkeys Hsignal Hmax.
  pose proof (analyzeBody_text_mode rt cfg reqBody ids st Hids Hkeys Hsignal Hmax)
    as Hbody.
  fold keys st1 selected T in Hbody.
  split; [exact Hbody|]. split.
  - assert (trimStart T = T) as Hstart
      by exact (combined_text_trimStart (Z.to_nat (maxInputChars cfg)) selected).
    unfold trim. rewrite Hstart. apply trimEnd_split.
  - unfold st'. rewrite analyze_state, Hbody.
    destruct (finishAnalysis rt cfg selected T [] st1) as [out st2] eqn:E.
    cbn [snd].
    apply finishAnalysis_recorded in E as (res & st3 & E & ->).
    apply runOptionBAnalysis_recorded in E as (sent & Hsent & Hshape).
    exists sent. split; [exact Hsent|].
    cbn zeta in Hshape. rewrite orb_false_r in Hshape.
    destruct (hasApiKey cfg && (10 <=? length (trim T))) eqn:Hguard; [|exact Hshape].
    apply andb_true_iff in Hguard as [_ Htext]. rewrite Htext in Hshape.
    cbn [negb orb] in Hshape.
    destruct (buildPrompt_ends (trim T) (length (trim T) <? 400) false)
      as [instructions Hprompt].
    exists instructions. cbn zeta. rewrite <- Hprompt. exact Hshape.
Qed.

(** C3: when multimodal mode is entered and no document part could be
    built, the request is answered with status 400 and the details of the
    selected documents, one entry for each in the order of the selection,
    made of its id, its name, its character count and the first 120 code
    units of its text; the run store is left as it was. *)
Theorem insufficient_content {W : Type} (rt : Runtime W) (cfg : Config)
    (reqBody : option json) (ids : list json) (st : State W) :
  let keys := resolveIds (documents st) ids in
  let st1 := afterRecovery rt cfg keys st in
  let selected := lookupAll (documents st1) keys in
  let st2 := snd (buildDocumentParts rt cfg selected st1) in
  let detail doc :=
    mkDetail (doc_id doc) (doc_name doc) (textChars doc) (take 120 (text doc)) in
  prop "documentIds" reqBody = Some (JArray ids) ->
  keys <> [] ->
  (Z.of_nat (nonWhitespaceCount (concat (List.map text selected)))
   < minAnalysisSignal cfg)%Z ->
  fst (buildDocumentParts rt cfg selected st1) = inr [] ->
  analyze rt cfg reqBody st
  = (inr (mkResponse 400 (InsufficientBody insufficientText (List.map detail selected))),
     st2)
  /\ Forall2 (fun key entry =>
                exists doc, documents st2 !! key = Some doc /\ entry = detail doc)
       keys (List.map detail selected)
  /\ analysisRuns st2 = analysisRuns st.
Proof.
  intros keys st1 selected st2 detail Hids Hkeys Hsignal Hparts.
  split_and!.
  - unfold analyze, tryCatch.
    rewrite (analyzeBody_selected rt cfg reqBody ids st Hids Hkeys).
    fold keys st1 selected.
    rewrite belowAnalysisSignal_spec, (proj2 (Z.ltb_lt _ _) Hsignal).
    unfold bind. rewrite (run_pair (buildDocumentParts rt cfg selected) st1), Hparts.
    done.
  - assert (Hd : documents st2 = documents st1).
    { apply (keeps_buildDocumentParts rt cfg documents (@keeps_documents_call W)). }
    rewrite Hd.
    assert (Hall : Forall2 (fun k doc => documents st1 !! k = Some doc) keys selected).
    { apply lookupAll_present.
      eapply Forall_impl; [apply resolveIds_present|].
      intros k Hk. by apply afterRecovery_present. }
    apply Forall2_map_image, Hall.
  - unfold st2.
    rewrite (keeps_buildDocumentParts rt cfg analysisRuns (@keeps_runs_call W)).
    apply afterRecovery_runs.
Qed.


(** ** Error translation *)

(** C5, as the code has it: an error thrown while a request is analysed
    is answered with status 429 when its message contains [429] or, once
    lower-cased, [quota exceeded], [too many requests] or [rate limit], and
    with status 500 otherwise.  The retry delay of the 429 answer is the
    larger of 1 and the ceiling of the number of the leftmost phrase
    [retry in <number>s]; without such a phrase it is the number of the
    leftmost [retryDelay] field; without either it is null.  Numbers are
    read as doubles. *)
Theorem rate_limit_translation {W : Type} (rt : Runtime W) (cfg : Config)
    (reqBody : option json) (st st' : State W) (error : jserror) :
  analyzeBody rt cfg reqBody st = (inl error, st') ->
  analyze rt cfg reqBody st
  = (inr
       (if includes (lit "429") (message error)
           || includes (lit "quota exceeded") (toLowerCase rt (message error))
           || includes (lit "too many requests") (toLowerCase rt (message error))
           || includes (lit "rate limit") (toLowerCase rt (message error))
        then
          mkResponse 429
            (RateLimitedBody quotaText
               match firstPhrase readRetryIn (message error) with
               | Some n => Some (Math_max (num 1) (Math_ceil (Number n)))
               | None =>
                   match firstPhrase readRetryDelay (message error) with
                   | Some n => Some (Number n)
                   | None => None
                   end
               end)
        else
          mkResponse 500 (ErrorBody (orElse (message error) (lit "Analysis failed")))),
     st').
Proof.
  intros Hthrow. unfold analyze, tryCatch. rewrite Hthrow. unfold ret. f_equal. f_equal.
  unfold analyzeCatch, parseGeminiQuotaError, looksLikeQuota.
  destruct (includes (lit "429") (message error)
            || includes (lit "quota exceeded") (toLowerCase rt (message error))
            || includes (lit "too many requests") (toLowerCase rt (message error))
            || includes (lit "rate limit") (toLowerCase rt (message error))); [|done].
  cbn [negb quota_message quota_retryAfterSeconds].
  by rewrite extractRetryAfterSeconds_phrases.
Qed.

(** ** The properties on concrete requests *)

Lemma document_store_invariant_witness :
  textChars recoveredDocument = length (text recoveredDocument)
  /\ (textWords recoveredDocument = 0 <-> text recoveredDocument = []).
Proof.
  apply (document_store_invariant (scriptedRuntime readingModel offline)
           recoveringConfig world0
           [PostUpload [scannedPdf]; PostAnalyze (requestFor ["id-0"%string])]
           (lit "id-0") recoveredDocument).
  vm_compute. reflexivity.
Defined.

Lemma text_mode_witness :
  analyzeBody (recording (scriptedRuntime silentModel offline)) keyedConfig
    (requestFor ["b"%string]) (unrecorded (storeOf [weakPdf; transcript]))
  = finishAnalysis (recording (scriptedRuntime silentModel offline)) keyedConfig
      [transcript] (lit "Document: notes.txt" ++ [LF] ++ text transcript) []
      (unrecorded (storeOf [weakPdf; transcript]))
  /\ (exists ws,
        lit "Document: notes.txt" ++ [LF] ++ text transcript
        = trim (lit "Document: notes.txt" ++ [LF] ++ text transcript) ++ ws
        /\ forallb isWhiteSpace ws = true)
  /\ exists sent,
       sentToModel
         (snd (analyze (recording (scriptedRuntime silentModel offline)) keyedConfig
                 (requestFor ["b"%string]) (unrecorded (storeOf [weakPdf; transcript]))))
       = sentToModel (unrecorded (storeOf [weakPdf; transcript])) ++ sent
       /\ exists instructions,
            sent
            = [[TextPart
                  (instructions ++ lit "Transcript Text:" ++ [LF]
                   ++ trim (lit "Document: notes.txt" ++ [LF] ++ text transcript))]]
            \/ (retryUnderfilled keyedConfig = true
                /\ sent
                   = [[TextPart
                         (instructions ++ lit "Transcript Text:" ++ [LF]
                          ++ trim (lit "Document: notes.txt" ++ [LF] ++ text transcript))];
                      [TextPart
                         ((instructions ++ lit "Transcript Text:" ++ [LF]
                           ++ trim (lit "Document: notes.txt" ++ [LF] ++ text transcript))
                          ++ [LF; LF]
                          ++ lit "Important: Fill all sections with transcript-grounded facts and include citations when present.")]]).
Proof.
  apply (text_mode_sends_combined_text (scriptedRuntime silentModel offline)
           keyedConfig (requestFor ["b"%string]) [JString (lit "b")]
           (unrecorded (storeOf [weakPdf; transcript]))).
  - reflexivity.
  - vm_compute. discriminate.
  - vm_compute. discriminate.
  - vm_compute. discriminate.
Defined.


Lemma insufficient_content_witness :
  analyze (scriptedRuntime silentModel offline) keyedConfig
    (requestFor ["a"%string; "b0"%string]) (storeOf [weakPdf; transcript])
  = (inr (mkResponse 400
            (InsufficientBody insufficientText
               [mkDetail (lit "a") (lit "q3.pdf") 13 (lit "Revenue up 5%")])),
     storeOf [weakPdf; transcript])
  /\ Forall2 (fun key entry =>
                exists doc,
                  documents (storeOf [weakPdf; transcript]) !! key = Some doc
                  /\ entry = mkDetail (doc_id doc) (doc_name doc) (textChars doc)
                                      (take 120 (text doc)))
       [lit "a"] [mkDetail (lit "a") (lit "q3.pdf") 13 (lit "Revenue up 5%")]
  /\ analysisRuns (storeOf [weakPdf; transcript]) = ∅.
Proof.
  apply (insufficient_content (scriptedRuntime silentModel offline) keyedConfig
           (requestFor ["a"%string; "b0"%string])
           [JString (lit "a"); JString (lit "b0")]
           (storeOf [weakPdf; transcript])).
  - reflexivity.
  - vm_compute. discriminate.
  - vm_compute. reflexivity.
  - vm_compute. reflexivity.
Defined.



Lemma attachment_candidates_witness :
  buildDocumentParts (scriptedRuntime silentModel offline) keyedConfig fourPdfs
    (storeOf fourPdfs)
  = attachAll (scriptedRuntime silentModel offline) keyedConfig
      [pdfNamed "p1" "one.pdf" []; pdfNamed "p2" "two.pdf" pdfBytes;
       pdfNamed "p3" "three.pdf" pdfBytes] (storeOf fourPdfs)
  /\ exists contributions,
       fst (buildDocumentParts (scriptedRuntime silentModel offline) keyedConfig
              fourPdfs (storeOf fourPdfs)) = inr (concat contributions)
       /\ Forall2 (contributionOf keyedConfig)
            [pdfNamed "p1" "one.pdf" []; pdfNamed "p2" "two.pdf" pdfBytes;
             pdfNamed "p3" "three.pdf" pdfBytes] contributions.
Proof.
  apply (attachment_candidates (scriptedRuntime silentModel offline) keyedConfig
           fourPdfs (storeOf fourPdfs)).
  vm_compute. discriminate.
Defined.

(** The slot of a candidate that cannot be retrieved is not handed on:
    the fourth PDF stays out. *)
Example attachment_slot_not_passed :
  fst (buildDocumentParts (scriptedRuntime silentModel offline) keyedConfig fourPdfs
         (storeOf fourPdfs))
  = inr (attachmentOf (pdfNamed "p2" "two.pdf" pdfBytes) pdfBytes
         ++ attachmentOf (pdfNamed "p3" "three.pdf" pdfBytes) pdfBytes).
Proof. vm_compute. reflexivity. Qed.

(** In text mode the model receives one part, the prompt, which ends
    with the combined text. *)
Example text_mode_request :
  requests
    (world (snd (analyze (scriptedRuntime silentModel offline) keyedConfig
                   (requestFor ["b"%string; "a"%string])
                   (storeOf [weakPdf; transcript]))))
  = [[TextPart
        (buildPrompt
           (lit "Document: notes.txt" ++ [LF] ++ text transcript
            ++ [LF; LF] ++ lit "---" ++ [LF; LF]
            ++ lit "Document: q3.pdf" ++ [LF] ++ text weakPdf)
           true false)]].
Proof. vm_compute. reflexivity. Qed.

Lemma rate_limit_translation_witness :
  analyze (scriptedRuntime quotaModel offline) keyedConfig
    (requestFor ["b"%string]) (storeOf [transcript])
  = (inr (mkResponse 429 (RateLimitedBody quotaText (Some (num 51)))),
     snd (analyzeBody (scriptedRuntime quotaModel offline) keyedConfig
            (requestFor ["b"%string]) (storeOf [transcript]))).
Proof.
  refine (eq_trans
            (rate_limit_translation (scriptedRuntime quotaModel offline) keyedConfig
               (requestFor ["b"%string]) (storeOf [transcript])
               (snd (analyzeBody (scriptedRuntime quotaModel offline) keyedConfig
                       (requestFor ["b"%string]) (storeOf [transcript])))
               (Error (lit "[GoogleGenerativeAI Error]: [429 Too Many Requests] You exceeded your current quota. Please retry in 50.417968038s."))
               _) _).
  - vm_compute. reflexivity.
  - vm_compute. reflexivity.
Defined.

(** C5 as stated fails: a retry phrase with the number 0, whose ceiling
    is 0, is answered with a retry delay of 1. *)
Lemma retry_after_zero_is_one :
  firstPhrase readRetryIn (lit "429 Too Many Requests. Please retry in 0s.")
  = Some (lit "0")
  /\ Math_ceil (Number (lit "0")) = num 0
  /\ analyzeCatch (scriptedRuntime quotaModel offline)
       (Error (lit "429 Too Many Requests. Please retry in 0s."))
     = mkResponse 429 (RateLimitedBody quotaText (Some (num 1))).
Proof. split_and!; vm_compute; reflexivity. Qed.

Example retry_delay_field :
  analyzeCatch (scriptedRuntime quotaModel offline)
    (Error (lit "quota exceeded, " ++ DQ ++ lit "retryDelay" ++ DQ ++ lit ":"
            ++ DQ ++ lit "50s" ++ DQ))
  = mkResponse 429 (RateLimitedBody quotaText (Some (num 50))).
Proof. vm_compute. reflexivity. Qed.

Example rate_limit_without_hint :
  analyzeCatch (scriptedRuntime quotaModel offline)
    (Error (lit "Rate limit reached for this model"))
  = mkResponse 429 (RateLimitedBody quotaText None).
Proof. vm_compute. reflexivity. Qed.

Example other_error_not_rate_limited :
  analyzeCatch (scriptedRuntime quotaModel offline) (Error (lit "GEMINI_API_KEY is missing"))
  = mkResponse 500 (ErrorBody (lit "GEMINI_API_KEY is missing")).
Proof. vm_compute. reflexivity. Qed.

(** ** The CSV export *)

Lemma match_at_Class (p : N -> bool) i s :
  match_at (Class p) i s
  = match s with
    | c :: _ => if p c then Some (MatchResult i (S i) None) else None
    | [] => None
    end.
Proof. destruct s as [|c t]; unfold match_at; cbn; [done|by destruct (p c)]. Qed.

Lemma test_Class (p : N -> bool) s : test (Class p) s = existsb p s.
Proof.
  unfold test, exec. generalize 0.
  induction s as [|c t IH]; intros i; [done|].
  cbn [search_from existsb]. rewrite match_at_Class.
  destruct (p c); [done|]. apply IH.
Qed.

Lemma replace_all_Class (p : N -> bool) repl s :
  replace_all (Class p) repl s = flat_map (fun c => if p c then repl else [c]) s.
Proof.
  unfold replace_all.
  enough (forall i, replace_all_from (Class p) repl i 0 s
                    = flat_map (fun c => if p c then repl else [c]) s) as H by apply H.
  induction s as [|c t IH]; intros i.
  { cbn [replace_all_from flat_map]. by rewrite match_at_Class. }
  cbn [replace_all_from flat_map]. rewrite match_at_Class.
  destruct (p c); cbn [m_end].
  - replace (S i =? i) with false by (symmetry; apply Nat.eqb_neq; lia).
    replace (S i - i - 1) with 0 by lia. by rewrite IH.
  - by rewrite IH.
Qed.

Lemma readCsvFrom_boundary mode rows row cell t :
  mode <> Quoted -> cellBoundary t ->
  readCsvFrom mode rows row cell t = readCsvFrom Unquoted rows row cell t.
Proof.
  intros Hm Hb. destruct t as [|c t]; [done|].
  destruct Hb as [-> | ->]; by destruct mode.
Qed.

Lemma readCsvFrom_doubled v : forall rows row cell t,
  readCsvFrom Quoted rows row cell
    (flat_map (fun c => if chr 34 c then DQ ++ DQ else [c]) v ++ 34%N :: t)
  = readCsvFrom QuoteSeen rows row (cell ++ v) t.
Proof.
  induction v as [|c v IH]; intros rows row cell t.
  - cbn. by rewrite app_nil_r.
  - cbn [flat_map]. unfold chr at 1. destruct (c =? 34)%N eqn:E.
    + apply N.eqb_eq in E as ->. cbn. rewrite IH. by rewrite <- app_assoc.
    + cbn. rewrite E. rewrite IH. by rewrite <- app_assoc.
Qed.

Lemma readCsvFrom_plain v : forall mode rows row cell t,
  existsb (fun c => ((c =? 34) || (c =? 44) || (c =? 10))%N) v = false ->
  mode = CellStart \/ mode = Unquoted ->
  cellBoundary t ->
  readCsvFrom mode rows row cell (v ++ t) = readCsvFrom Unquoted rows row (cell ++ v) t.
Proof.
  induction v as [|c v IH]; intros mode rows row cell t Hv Hm Hb.
  - cbn. rewrite app_nil_r. apply readCsvFrom_boundary; [|done].
    by destruct Hm as [-> | ->].
  - cbn [existsb] in Hv. apply orb_false_iff in Hv as [Hc Hv].
    apply orb_false_iff in Hc as [Hc H10]. apply orb_false_iff in Hc as [H34 H44].
    cbn [app readCsvFrom]. rewrite H34, H44, H10.
    replace (cell ++ c :: v) with ((cell ++ [c]) ++ v) by by rewrite <- app_assoc.
    destruct Hm as [-> | ->]; apply IH; auto.
Qed.

Lemma readCsvFrom_escaped v rows row t :
  cellBoundary t ->
  readCsvFrom CellStart rows row [] (escapeCsv (Some v) ++ t)
  = readCsvFrom Unquoted rows row v t.
Proof.
  intros Hb. unfold escapeCsv, re_csv_special, re_dquote.
  rewrite test_Class, replace_all_Class.
  destruct (existsb _ v) eqn:E.
  - unfold DQ at 1 4. rewrite <- !app_assoc. cbn [app readCsvFrom N.eqb Pos.eqb].
    rewrite readCsvFrom_doubled. by apply readCsvFrom_boundary.
  - by rewrite readCsvFrom_plain; auto.
Qed.

Lemma csvLine_cons x y cells :
  csvLine (x :: y :: cells) = escapeCsv (Some x) ++ 44%N :: csvLine (y :: cells).
Proof. done. Qed.

Lemma join_cons (sep x y : jsstring) rest :
  join sep (x :: y :: rest) = x ++ sep ++ join sep (y :: rest).
Proof. done. Qed.

Lemma readCsvFrom_line cells : forall x rows row t,
  t = [] \/ (exists t', t = LF :: t') ->
  readCsvFrom CellStart rows row [] (csvLine (x :: cells) ++ t)
  = match t with
    | [] => rows ++ [row ++ x :: cells]
    | _ :: t' => readCsvFrom CellStart (rows ++ [row ++ x :: cells]) [] [] t'
    end.
Proof.
  induction cells as [|y cells IH]; intros x rows row t Ht.
  - change (csvLine [x]) with (escapeCsv (Some x)).
    rewrite readCsvFrom_escaped
      by (destruct Ht as [-> | [t' ->]]; [exact I | right; reflexivity]).
    by destruct Ht as [-> | [t' ->]].
  - rewrite csvLine_cons, <- app_assoc.
    rewrite readCsvFrom_escaped by (left; reflexivity).
    cbn [app readCsvFrom N.eqb Pos.eqb]. rewrite IH by done.
    replace ((row ++ [x]) ++ y :: cells) with (row ++ x :: y :: cells)
      by by rewrite <- app_assoc.
    done.
Qed.

Lemma readCsvFrom_lines rs : forall r rows,
  Forall (fun row => row <> []) (r :: rs) ->
  readCsvFrom CellStart rows [] [] (join [LF] (List.map csvLine (r :: rs)))
  = rows ++ r :: rs.
Proof.
  induction rs as [|r' rs IH]; intros r rows Hne.
  - destruct r as [|x cells]; [by inversion Hne|].
    change (join [LF] (List.map csvLine [x :: cells])) with (csvLine (x :: cells)).
    rewrite <- (app_nil_r (csvLine _)). by rewrite readCsvFrom_line by auto.
  - destruct r as [|x cells]; [by inversion Hne|].
    change (List.map csvLine ((x :: cells) :: r' :: rs))
      with (csvLine (x :: cells) :: csvLine r' :: List.map csvLine rs).
    rewrite join_cons.
    change (csvLine r' :: List.map csvLine rs) with (List.map csvLine (r' :: rs)).
    change ([LF] ++ ?u) with (LF :: u).
    rewrite readCsvFrom_line by eauto.
    rewrite IH by by inversion Hne.
    by rewrite <- app_assoc.
Qed.

Lemma imap_rows_nonempty {A} (f : nat -> A -> list jsstring) (xs : list A) :
  (forall i v, f i v <> []) -> Forall (fun row => row <> []) (imap f xs).
Proof.
  revert f. induction xs as [|x xs IH]; intros f Hf; cbn; constructor; [apply Hf|].
  apply IH. intros i v. apply Hf.
Qed.

(** X1: the text written by [buildResultCsv] reads back, cell by cell
    and row by row, as the rows the function pushed; no value of a run,
    whatever quotes, commas or line feeds it contains, moves to another
    cell or row. *)
Theorem csv_export_reads_back (run : Run) :
  readCsv (buildResultCsv run) = csvRows run.
Proof.
  unfold readCsv, buildResultCsv.
  change (fun row => join (lit ",") (List.map (fun cell => escapeCsv (Some cell)) row))
    with csvLine.
  assert (Forall (fun row : list jsstring => row <> []) (csvRows run)) as Hne.
  { unfold csvRows. cbn zeta. rewrite !Forall_app. repeat split;
      try (apply imap_rows_nonempty; intros; discriminate).
    repeat constructor; discriminate. }
  destruct (csvRows run) as [|r rs] eqn:E; [discriminate E|].
  by rewrite readCsvFrom_lines.
Qed.

(** ** The normalisation of extracted text *)

Lemma match_at_Plus (p : N -> bool) i s :
  match_at (Plus p) i s
  = match s with
    | c :: t => if p c then Some (MatchResult i (S i + runLength p t) None) else None
    | [] => None
    end.
Proof.
  unfold match_at, Plus. simpl.
  destruct s as [|c t]; [done|].
  destruct (p c); [|done].
  by rewrite star_k_always.
Qed.

Lemma match_at_crlf i s :
  match_at re_crlf i s
  = match s with
    | c :: d :: _ =>
        if (c =? CR)%N && (d =? LF)%N then Some (MatchResult i (S (S i)) None) else None
    | _ => None
    end.
Proof.
  unfold match_at, re_crlf, chr. cbn.
  destruct s as [|c [|d t]]; [done| |].
  - by destruct (c =? CR)%N.
  - by destruct (c =? CR)%N, (d =? LF)%N.
Qed.

Lemma match_at_newlines3 i s :
  match_at re_newlines3 i s
  = if 3 <=? runLength (chr LF) s
    then Some (MatchResult i (i + runLength (chr LF) s) None)
    else None.
Proof.
  unfold match_at, re_newlines3. rewrite !rmatch_Seq_Class.
  destruct s as [|c1 t1]; [done|]. cbn [runLength].
  destruct (chr LF c1); [|done]. rewrite rmatch_Seq_Class.
  destruct t1 as [|c2 t2]; [done|]. cbn [runLength].
  destruct (chr LF c2); [|done]. rewrite rmatch_Seq_Class.
  destruct t2 as [|c3 t3]; [done|]. cbn [runLength].
  destruct (chr LF c3); [|done].
  rewrite rmatch_Star, star_k_always by done.
  cbn [Nat.leb]. do 2 f_equal. lia.
Qed.

Lemma runLength_le_length (p : N -> bool) s : runLength p s <= length s.
Proof. induction s as [|c t IH]; simpl; [lia|]. destruct (p c); simpl; lia. Qed.

Lemma runLength_mono (p q : N -> bool) s :
  (forall c, p c = true -> q c = true) -> runLength p s <= runLength q s.
Proof.
  intros H. induction s as [|c t IH]; simpl; [lia|].
  destruct (p c) eqn:E; [|lia]. rewrite (H c E). lia.
Qed.

(** A replacement of white space by white space keeps the other code
    units. *)
Lemma replace_all_from_signal (r : regex) (repl : jsstring) :
  (forall i s m, match_at r i s = Some m ->
                 i <= m_end m <= i + runLength isWhiteSpace s) ->
  forallb isWhiteSpace repl = true ->
  forall s i skip,
    skip <= runLength isWhiteSpace s ->
    List.filter (fun c => negb (isWhiteSpace c)) (replace_all_from r repl i skip s)
    = List.filter (fun c => negb (isWhiteSpace c)) s.
Proof.
  intros Hm Hrepl.
  assert (forall u, List.filter (fun c => negb (isWhiteSpace c)) (repl ++ u)
                    = List.filter (fun c => negb (isWhiteSpace c)) u) as Hdrop.
  { intros u. induction repl as [|x repl IH]; [done|].
    cbn in Hrepl. apply andb_true_iff in Hrepl as [Hx Hrepl].
    cbn. rewrite Hx. cbn. by apply IH. }
  induction s as [|c t IH]; intros i skip Hs.
  - simpl in Hs. assert (skip = 0) by lia. subst. cbn.
    destruct (match_at r i []); [|done]. by rewrite Hdrop.
  - destruct skip as [|k].
    + cbn [replace_all_from]. destruct (match_at r i (c :: t)) as [m|] eqn:E.
      * rewrite Hdrop. apply Hm in E. destruct (m_end m =? i) eqn:Ei.
        -- cbn [List.filter]. destruct (negb (isWhiteSpace c)); [f_equal|]; apply IH; lia.
        -- apply Nat.eqb_neq in Ei. cbn [runLength] in E.
           destruct (isWhiteSpace c) eqn:Hc; [|lia].
           cbn [List.filter]. rewrite Hc. cbn [negb]. apply IH. lia.
      * cbn [List.filter]. destruct (negb (isWhiteSpace c)); [f_equal|]; apply IH; lia.
    + cbn [replace_all_from List.filter]. simpl in Hs.
      destruct (isWhiteSpace c) eqn:Hc; [|lia]. cbn [negb]. apply IH. lia.
Qed.

(** A replacement by a text no longer than what it replaces does not
    lengthen the text. *)
Lemma replace_all_from_length (r : regex) (repl : jsstring) :
  (forall i s m, match_at r i s = Some m ->
                 i + length repl <= m_end m <= i + length s) ->
  forall s i skip,
    length (replace_all_from r repl i skip s) <= length s - skip.
Proof.
  intros Hm. induction s as [|c t IH]; intros i skip.
  - destruct skip; cbn; [|lia].
    destruct (match_at r i []) as [m|] eqn:E; [|cbn; lia].
    apply Hm in E. cbn in E. rewrite length_app. cbn. lia.
  - destruct skip as [|k].
    + cbn [replace_all_from]. destruct (match_at r i (c :: t)) as [m|] eqn:E.
      * apply Hm in E. cbn [length] in E. rewrite length_app.
        destruct (m_end m =? i) eqn:Ei.
        -- apply Nat.eqb_eq in Ei. cbn [length]. specialize (IH (S i) 0). lia.
        -- apply Nat.eqb_neq in Ei. specialize (IH (S i) (m_end m - i - 1)).
           cbn [length]. lia.
      * cbn [length]. specialize (IH (S i) 0). lia.
    + cbn [replace_all_from length]. specialize (IH (S i) k). lia.
Qed.

Lemma filter_trimStart s :
  List.filter (fun c => negb (isWhiteSpace c)) (trimStart s)
  = List.filter (fun c => negb (isWhiteSpace c)) s.
Proof.
  induction s as [|c t IH]; [done|]. cbn [trimStart List.filter].
  destruct (isWhiteSpace c) eqn:Hc; cbn [negb]; [done|].
  cbn [List.filter]. by rewrite Hc.
Qed.

Lemma filter_rev_list {A} (f : A -> bool) (l : list A) :
  List.filter f (rev l) = rev (List.filter f l).
Proof.
  induction l as [|x l IH]; [done|]. cbn [rev List.filter].
  rewrite List.filter_app, IH. cbn. destruct (f x); cbn; [done|by rewrite app_nil_r].
Qed.

Lemma filter_trim s :
  List.filter (fun c => negb (isWhiteSpace c)) (trim s)
  = List.filter (fun c => negb (isWhiteSpace c)) s.
Proof.
  unfold trim, trimEnd.
  by rewrite filter_rev_list, filter_trimStart, <- filter_rev_list, rev_involutive,
    filter_trimStart.
Qed.

Lemma crlf_in_white_space i s m :
  match_at re_crlf i s = Some m -> i <= m_end m <= i + runLength isWhiteSpace s.
Proof.
  rewrite match_at_crlf. destruct s as [|c [|d t]]; [done|done|].
  destruct (c =? CR)%N eqn:Hc; [|done]. destruct (d =? LF)%N eqn:Hd; [|done].
  intros [= <-]. apply N.eqb_eq in Hc as ->. apply N.eqb_eq in Hd as ->.
  cbn. lia.
Qed.

Lemma blank_white_space c : isBlank c = true -> isWhiteSpace c = true.
Proof.
  unfold isBlank. intros H. apply orb_true_iff in H as [H|H];
    apply N.eqb_eq in H as ->; done.
Qed.

Lemma blanks_in_white_space i s m :
  match_at re_blanks i s = Some m -> i <= m_end m <= i + runLength isWhiteSpace s.
Proof.
  unfold re_blanks. rewrite match_at_Plus. destruct s as [|c t]; [done|].
  change ((c =? SPACE)%N || (c =? TAB)%N) with (isBlank c).
  destruct (isBlank c) eqn:Hc; [|done]. intros [= <-]. cbn [m_end runLength].
  rewrite (blank_white_space _ Hc).
  pose proof (runLength_mono (fun c => ((c =? SPACE) || (c =? TAB))%N) isWhiteSpace t
                blank_white_space).
  lia.
Qed.

Lemma line_feed_white_space c : chr LF c = true -> isWhiteSpace c = true.
Proof. unfold chr. intros H. by apply N.eqb_eq in H as ->. Qed.

Lemma newlines3_in_white_space i s m :
  match_at re_newlines3 i s = Some m -> i <= m_end m <= i + runLength isWhiteSpace s.
Proof.
  rewrite match_at_newlines3. destruct (3 <=? _); [|done]. intros [= <-].
  cbn [m_end].
  pose proof (runLength_mono (chr LF) isWhiteSpace s line_feed_white_space). lia.
Qed.

Lemma nonWhitespaceCount_normalizeExtractedText s :
  nonWhitespaceCount (normalizeExtractedText s) = nonWhitespaceCount s.
Proof.
  unfold nonWhitespaceCount, normalizeExtractedText, replace_all.
  rewrite filter_trim.
  rewrite (replace_all_from_signal _ _ newlines3_in_white_space) by (done || lia).
  rewrite (replace_all_from_signal _ _ blanks_in_white_space) by (done || lia).
  by rewrite (replace_all_from_signal _ _ crlf_in_white_space) by (done || lia).
Qed.

(** X2: normalising an extracted text changes white space only: the
    signal length of the normalised text is the one of the text, so that
    a text is below a signal threshold after normalisation exactly when it
    was before. *)
Theorem normalizeExtractedText_keeps_signal (value : jsstring) :
  getSignalLength (normalizeExtractedText value) = getSignalLength value
  /\ forall cfg,
       belowAnalysisSignal cfg (normalizeExtractedText value)
       = belowAnalysisSignal cfg value.
Proof.
  assert (getSignalLength (normalizeExtractedText value) = getSignalLength value) as H.
  { rewrite !getSignalLength_nonWhitespaceCount.
    apply nonWhitespaceCount_normalizeExtractedText. }
  split; [done|]. intros cfg. unfold belowAnalysisSignal. by rewrite H.
Qed.

Lemma replace_all_from_squeeze (p : N -> bool) (x : N) s : forall i,
  replace_all_from (Plus p) [x] i 0 s = squeeze p x false s
  /\ replace_all_from (Plus p) [x] i (runLength p s) s = squeeze p x true s.
Proof.
  induction s as [|c t IH]; intros i.
  - cbn [runLength replace_all_from squeeze]. by rewrite match_at_Plus.
  - cbn [runLength squeeze]. destruct (p c) eqn:Hc.
    + split.
      * cbn [replace_all_from]. rewrite match_at_Plus, Hc. cbn [m_end app].
        replace (S i + runLength p t =? i) with false
          by (symmetry; apply Nat.eqb_neq; lia).
        replace (S i + runLength p t - i - 1) with (runLength p t) by lia.
        f_equal. apply IH.
      * cbn [replace_all_from]. apply IH.
    + assert (replace_all_from (Plus p) [x] i 0 (c :: t) = c :: squeeze p x false t) as H.
      { cbn [replace_all_from]. rewrite match_at_Plus, Hc. f_equal. apply IH. }
      by split.
Qed.

Lemma replace_all_blanks s :
  replace_all re_blanks [SPACE] s = squeeze isBlank SPACE false s.
Proof. apply (replace_all_from_squeeze isBlank SPACE s 0). Qed.

Lemma capLineFeeds_late s : forall seen seen',
  2 <= seen -> 2 <= seen' -> capLineFeeds seen s = capLineFeeds seen' s.
Proof.
  induction s as [|c t IH]; intros seen seen' H H'; [done|].
  cbn [capLineFeeds]. destruct (c =? LF)%N; [|done].
  replace (seen <? 2) with false by (symmetry; apply Nat.ltb_ge; lia).
  replace (seen' <? 2) with false by (symmetry; apply Nat.ltb_ge; lia).
  apply IH; lia.
Qed.

Lemma runLength_LF_cons t :
  runLength (chr LF) (LF :: t) = S (runLength (chr LF) t).
Proof. done. Qed.

Lemma runLength_other_cons c t :
  (c =? LF)%N = false -> runLength (chr LF) (c :: t) = 0.
Proof. intros H. cbn. unfold chr. by rewrite H. Qed.

Lemma capLineFeeds_LF seen t :
  capLineFeeds seen (LF :: t)
  = if seen <? 2 then LF :: capLineFeeds (S seen) t else capLineFeeds (S seen) t.
Proof. done. Qed.

Lemma capLineFeeds_other seen c t :
  (c =? LF)%N = false -> capLineFeeds seen (c :: t) = c :: capLineFeeds 0 t.
Proof. intros H. cbn. by rewrite H. Qed.

Lemma replace_all_from_capLineFeeds s : forall i,
  (forall seen, seen = 0 \/ seen + runLength (chr LF) s < 3 ->
     replace_all_from re_newlines3 [LF; LF] i 0 s = capLineFeeds seen s)
  /\ (forall seen, 2 <= seen ->
        replace_all_from re_newlines3 [LF; LF] i (runLength (chr LF) s) s
        = capLineFeeds seen s).
Proof.
  induction s as [|c t IH]; intros i.
  - split; intros seen _; cbn [runLength replace_all_from capLineFeeds];
      by rewrite match_at_newlines3.
  - assert (forall seen, seen = 0 \/ seen + runLength (chr LF) (c :: t) < 3 ->
              replace_all_from re_newlines3 [LF; LF] i 0 (c :: t)
              = capLineFeeds seen (c :: t)) as HA.
    { intros seen Hseen. cbn [replace_all_from]. rewrite match_at_newlines3.
      destruct (c =? LF)%N eqn:Hc.
      - apply N.eqb_eq in Hc as ->. rewrite runLength_LF_cons in *.
        rewrite capLineFeeds_LF.
        destruct (3 <=? S (runLength (chr LF) t)) eqn:H3.
        + apply Nat.leb_le in H3. destruct Hseen as [-> | Hseen]; [|lia].
          cbn [m_end app Nat.ltb Nat.leb].
          replace (i + S (runLength (chr LF) t) =? i) with false
            by (symmetry; apply Nat.eqb_neq; lia).
          replace (i + S (runLength (chr LF) t) - i - 1) with (runLength (chr LF) t)
            by lia.
          f_equal.
          destruct t as [|d u]; [cbn in H3; lia|].
          destruct (d =? LF)%N eqn:Hd.
          * apply N.eqb_eq in Hd as ->. rewrite runLength_LF_cons.
            rewrite capLineFeeds_LF. cbn [Nat.ltb Nat.leb replace_all_from]. f_equal.
            destruct (IH (S i)) as [_ IHB]. specialize (IHB 2 (le_n 2)).
            rewrite runLength_LF_cons, capLineFeeds_LF in IHB.
            cbn [Nat.ltb Nat.leb replace_all_from] in IHB.
            rewrite IHB. apply capLineFeeds_late; lia.
          * rewrite (runLength_other_cons _ _ Hd) in H3. lia.
        + apply Nat.leb_gt in H3.
          replace (seen <? 2) with true by (symmetry; apply Nat.ltb_lt; lia).
          f_equal. apply IH. lia.
      - rewrite (runLength_other_cons _ _ Hc), (capLineFeeds_other _ _ _ Hc).
        cbn [Nat.leb]. f_equal. apply IH. by left. }
    split; [exact HA|].
    intros seen Hseen.
    destruct (c =? LF)%N eqn:Hc.
    + apply N.eqb_eq in Hc as ->. rewrite runLength_LF_cons, capLineFeeds_LF.
      cbn [replace_all_from].
      replace (seen <? 2) with false by (symmetry; apply Nat.ltb_ge; lia).
      apply IH. lia.
    + rewrite (runLength_other_cons _ _ Hc), (capLineFeeds_other _ _ _ Hc).
      rewrite (HA 0) by by left. by rewrite (capLineFeeds_other _ _ _ Hc).
Qed.

Lemma replace_all_newlines3 s :
  replace_all re_newlines3 [LF; LF] s = capLineFeeds 0 s.
Proof. apply (replace_all_from_capLineFeeds s 0). by left. Qed.

Lemma squeeze_blanks_shape s : forall prev,
  ~ In TAB (squeeze isBlank SPACE prev s)
  /\ includes [SPACE; SPACE] (squeeze isBlank SPACE prev s) = false
  /\ (prev = true -> startsWith [SPACE] (squeeze isBlank SPACE prev s) = false).
Proof.
  induction s as [|c t IH]; intros prev; [by repeat split; auto|].
  cbn [squeeze]. destruct (isBlank c) eqn:Hc.
  - destruct prev.
    + apply IH.
    + destruct (IH true) as (Htab & Hpair & Hhead). repeat split; [| |done].
      * intros [H|H]; [done|auto].
      * cbn [includes startsWith] in *. rewrite Hpair.
        cbn [startsWith] in Hhead. by rewrite (Hhead eq_refl).
  - destruct (IH false) as (Htab & Hpair & _).
    assert ((SPACE =? c)%N = false) as Hsp.
    { apply N.eqb_neq. intros <-. done. }
    repeat split.
    + intros [H|H]; [|auto]. subst c. done.
    + cbn [includes startsWith] in *. by rewrite Hsp, Hpair.
    + intros _. cbn [startsWith]. by rewrite Hsp.
Qed.

Lemma capLineFeeds_elements s : forall seen x,
  In x (capLineFeeds seen s) -> In x s.
Proof.
  induction s as [|c t IH]; intros seen x; [done|].
  cbn [capLineFeeds]. destruct (c =? LF)%N; [destruct (seen <? 2)|];
    cbn [In]; intros H; try (destruct H as [H|H]; [by left|]); right; eapply IH, H.
Qed.

Lemma capLineFeeds_head t :
  startsWith [SPACE] (capLineFeeds 0 t) = startsWith [SPACE] t.
Proof.
  destruct t as [|d u]; [done|]. cbn [capLineFeeds].
  destruct (d =? LF)%N eqn:Hd; [|done]. by apply N.eqb_eq in Hd as ->.
Qed.

Lemma capLineFeeds_blank_pairs s : forall seen,
  includes [SPACE; SPACE] s = false ->
  includes [SPACE; SPACE] (capLineFeeds seen s) = false.
Proof.
  induction s as [|c t IH]; intros seen H; [done|].
  cbn [includes] in H. apply orb_false_iff in H as [Hs Ht].
  cbn [capLineFeeds]. destruct (c =? LF)%N eqn:Hc.
  - apply N.eqb_eq in Hc as ->. destruct (seen <? 2); [|by apply IH].
    cbn [includes]. rewrite (IH _ Ht). done.
  - cbn [includes]. rewrite (IH _ Ht), orb_false_r.
    change (startsWith [SPACE; SPACE] (c :: ?u))
      with ((SPACE =? c)%N && startsWith [SPACE] u) in *.
    by rewrite capLineFeeds_head.
Qed.

Lemma startsWith_line_feeds s :
  startsWith [LF; LF; LF] s = true -> 3 <= runLength (chr LF) s.
Proof.
  destruct s as [|a [|b [|c t]]]; cbn [startsWith]; intros H;
    repeat (apply andb_true_iff in H as [? H]); try done.
  repeat match goal with E : (LF =? _)%N = true |- _ => apply N.eqb_eq in E as <- end.
  rewrite !runLength_LF_cons. lia.
Qed.

Lemma capLineFeeds_runs s : forall seen,
  runLength (chr LF) (capLineFeeds seen s) <= 2 - seen
  /\ includes [LF; LF; LF] (capLineFeeds seen s) = false.
Proof.
  induction s as [|c t IH]; intros seen; [cbn; split; [lia|done]|].
  destruct (c =? LF)%N eqn:Hc.
  - apply N.eqb_eq in Hc as ->. rewrite capLineFeeds_LF.
    destruct (IH (S seen)) as [Hrun Hinc].
    destruct (seen <? 2) eqn:Hs.
    + apply Nat.ltb_lt in Hs.
      assert (runLength (chr LF) (LF :: capLineFeeds (S seen) t) <= 2 - seen) as Hr.
      { rewrite runLength_LF_cons. lia. }
      split; [done|]. cbn [includes]. rewrite Hinc, orb_false_r.
      destruct (startsWith _ _) eqn:E; [|done].
      apply startsWith_line_feeds in E. lia.
    + apply Nat.ltb_ge in Hs. split; [lia|done].
  - rewrite (capLineFeeds_other _ _ _ Hc). destruct (IH 0) as [_ Hinc].
    split; [rewrite (runLength_other_cons _ _ Hc); lia|].
    cbn [includes]. rewrite Hinc, orb_false_r. cbn [startsWith].
    by rewrite N.eqb_sym, Hc.
Qed.

Lemma trim_within s : exists a b, s = a ++ trim s ++ b.
Proof.
  unfold trim, trimEnd. set (u := trimStart s).
  exists (take (runLength isWhiteSpace s) s).
  exists (rev (take (runLength isWhiteSpace (rev u)) (rev u))).
  assert (rev (trimStart (rev u)) ++ rev (take (runLength isWhiteSpace (rev u)) (rev u))
          = u) as ->.
  { rewrite <- rev_app_distr, trimStart_drop, take_drop. apply rev_involutive. }
  unfold u. by rewrite trimStart_drop, take_drop.
Qed.

Lemma startsWith_app_l p s b : startsWith p s = true -> startsWith p (s ++ b) = true.
Proof.
  intros H. apply startsWith_iff in H as [t ->]. rewrite <- app_assoc.
  apply startsWith_app.
Qed.

Lemma includes_app_l p s b : includes p s = true -> includes p (s ++ b) = true.
Proof.
  induction s as [|c t IH]; intros H.
  - cbn in H. rewrite orb_false_r in H. destruct p; [|done]. by destruct b.
  - cbn [includes] in H. apply orb_true_iff in H as [H|H].
    + change ((c :: t) ++ b) with (c :: (t ++ b)). cbn [includes].
      change (c :: (t ++ b)) with ((c :: t) ++ b).
      by rewrite (startsWith_app_l _ _ _ H).
    + change ((c :: t) ++ b) with (c :: (t ++ b)). cbn [includes].
      rewrite (IH H). by rewrite orb_true_r.
Qed.

Lemma includes_trim p s : includes p s = false -> includes p (trim s) = false.
Proof.
  intros H. destruct (includes p (trim s)) eqn:E; [|done].
  destruct (trim_within s) as (a & b & Hs).
  rewrite Hs in H. rewrite includes_app_r in H; [done|]. by apply includes_app_l.
Qed.

Lemma In_trim x s : In x (trim s) -> In x s.
Proof.
  intros H. destruct (trim_within s) as (a & b & Hs). rewrite Hs.
  apply in_or_app. right. apply in_or_app. by left.
Qed.

Lemma length_trim s : length (trim s) <= length s.
Proof.
  destruct (trim_within s) as (a & b & Hs). rewrite Hs at 2.
  rewrite !length_app. lia.
Qed.

Lemma length_normalizeExtractedText s :
  length (normalizeExtractedText s) <= length s.
Proof.
  unfold normalizeExtractedText, replace_all.
  etrans; [apply length_trim|].
  etrans; [apply replace_all_from_length|].
  { intros i u m H. pose proof (newlines3_in_white_space _ _ _ H) as Hb.
    pose proof (runLength_le_length isWhiteSpace u).
    rewrite match_at_newlines3 in H. destruct (3 <=? _) eqn:E; [|done].
    apply Nat.leb_le in E. injection H as <-. cbn [m_end length] in *. lia. }
  etrans; [apply Nat.le_sub_l|].
  etrans; [apply replace_all_from_length|].
  { intros i u m H. pose proof (blanks_in_white_space _ _ _ H) as Hb.
    pose proof (runLength_le_length isWhiteSpace u).
    unfold re_blanks in H. rewrite match_at_Plus in H. destruct u as [|c t]; [done|].
    destruct (_ || _); [|done]. injection H as <-. cbn [m_end length] in *. lia. }
  etrans; [apply Nat.le_sub_l|].
  etrans; [apply replace_all_from_length|].
  { intros i u m H. pose proof (crlf_in_white_space _ _ _ H) as Hb.
    pose proof (runLength_le_length isWhiteSpace u).
    rewrite match_at_crlf in H. destruct u as [|c [|d t]]; [done|done|].
    destruct (_ && _); [|done]. injection H as <-. cbn [m_end length] in *. lia. }
  lia.
Qed.

Lemma normalized_no_tab s : ~ In TAB (normalizeExtractedText s).
Proof.
  unfold normalizeExtractedText. intros H. apply In_trim in H.
  rewrite replace_all_newlines3 in H. apply capLineFeeds_elements in H.
  rewrite replace_all_blanks in H. by apply squeeze_blanks_shape in H.
Qed.

Lemma normalized_no_blank_pair s :
  includes [SPACE; SPACE] (normalizeExtractedText s) = false.
Proof.
  unfold normalizeExtractedText. apply includes_trim.
  rewrite replace_all_newlines3. apply capLineFeeds_blank_pairs.
  rewrite replace_all_blanks. apply squeeze_blanks_shape.
Qed.

Lemma normalized_no_line_feed_triple s :
  includes [LF; LF; LF] (normalizeExtractedText s) = false.
Proof.
  unfold normalizeExtractedText. apply includes_trim.
  rewrite replace_all_newlines3. apply capLineFeeds_runs.
Qed.

(** X3: a normalised text has no white space at its ends, no tab, no two
    spaces in a row and no three line feeds in a row, and normalising
    never lengthens a text. *)
Theorem normalizeExtractedText_shape (value : jsstring) :
  let out := normalizeExtractedText value in
  trim out = out
  /\ ~ In TAB out
  /\ includes [SPACE; SPACE] out = false
  /\ includes [LF; LF; LF] out = false
  /\ length out <= length value.
Proof.
  cbn zeta. split_and!.
  - apply trim_idempotent.
  - apply normalized_no_tab.
  - apply normalized_no_blank_pair.
  - apply normalized_no_line_feed_triple.
  - apply length_normalizeExtractedText.
Qed.

Lemma replace_all_from_joinLineEnds s : forall i,
  replace_all_from re_crlf [LF] i 0 s = joinLineEnds false s
  /\ replace_all_from re_crlf [LF] i 1 s = joinLineEnds true s.
Proof.
  induction s as [|c t IH]; intros i.
  - cbn [replace_all_from joinLineEnds]. by rewrite match_at_crlf.
  - split; [|cbn [replace_all_from joinLineEnds]; apply IH].
    cbn [replace_all_from joinLineEnds]. rewrite match_at_crlf.
    destruct t as [|d u].
    + cbn [startsWith]. rewrite andb_false_r. f_equal; apply IH.
    + cbn [startsWith]. rewrite andb_true_r, (N.eqb_sym LF d).
      destruct ((c =? CR)%N && (d =? LF)%N); cbn [m_end app].
      * replace (S (S i) =? i) with false by (symmetry; apply Nat.eqb_neq; lia).
        replace (S (S i) - i - 1) with 1 by lia. f_equal. apply IH.
      * f_equal. apply IH.
Qed.

Lemma replace_all_crlf s : replace_all re_crlf [LF] s = joinLineEnds false s.
Proof. apply (replace_all_from_joinLineEnds s 0). Qed.

Lemma includes_cons p c t :
  includes p (c :: t) = startsWith p (c :: t) || includes p t.
Proof. done. Qed.

Lemma joinLineEnds_pairs s :
  (includes [CR; CR; LF] s = false ->
   includes [CR; LF] (joinLineEnds false s) = false)
  /\ (includes [CR; CR; LF] (drop 1 s) = false ->
      includes [CR; LF] (joinLineEnds true s) = false).
Proof.
  induction s as [|c t IH]; [done|]. destruct IH as [IH0 IH1].
  split; [|cbn [joinLineEnds drop]; apply IH0].
  rewrite includes_cons. intros H. apply orb_false_iff in H as [Hs Ht].
  cbn [joinLineEnds]. destruct ((c =? CR)%N && startsWith [LF] t) eqn:E.
  - rewrite includes_cons. cbn [startsWith]. cbn [N.eqb CR LF Pos.eqb andb orb].
    apply IH1. destruct t as [|d u]; [done|]. cbn [drop].
    rewrite includes_cons in Ht. by apply orb_false_iff in Ht as [_ Ht].
  - rewrite includes_cons, (IH0 Ht), orb_false_r.
    cbn [startsWith]. destruct (CR =? c)%N eqn:Hc; [|done]. cbn [andb].
    apply N.eqb_eq in Hc as <-. cbn [N.eqb CR Pos.eqb andb] in E.
    destruct t as [|d u]; [done|]. cbn [startsWith] in E. rewrite andb_true_r in E.
    cbn [joinLineEnds]. destruct ((d =? CR)%N && startsWith [LF] u) eqn:E2.
    + apply andb_true_iff in E2 as [Hd Hu]. apply N.eqb_eq in Hd as ->.
      cbn [startsWith] in Hs. cbn [N.eqb CR Pos.eqb andb] in Hs.
      destruct u as [|e v]; [done|]. cbn [startsWith] in Hs, Hu |- *.
      by rewrite Hu in Hs.
    + cbn [startsWith]. by rewrite E.
Qed.

Lemma squeeze_head s :
  startsWith [LF] (squeeze isBlank SPACE false s) = startsWith [LF] s.
Proof.
  destruct s as [|c t]; [done|]. cbn [squeeze].
  destruct (isBlank c) eqn:Hc; [|done]. cbn [startsWith].
  unfold isBlank in Hc. apply orb_true_iff in Hc as [Hc|Hc];
    apply N.eqb_eq in Hc as ->; done.
Qed.

Lemma squeeze_pairs s : forall prev,
  includes [CR; LF] s = false ->
  includes [CR; LF] (squeeze isBlank SPACE prev s) = false.
Proof.
  induction s as [|c t IH]; intros prev H; [done|].
  rewrite includes_cons in H. apply orb_false_iff in H as [Hs Ht].
  cbn [squeeze]. destruct (isBlank c) eqn:Hc.
  - destruct prev; [by apply IH|]. rewrite includes_cons, (IH _ Ht). done.
  - rewrite includes_cons, (IH _ Ht), orb_false_r.
    change (startsWith [CR; LF] (c :: ?u)) with ((CR =? c)%N && startsWith [LF] u) in *.
    by rewrite squeeze_head.
Qed.

Lemma capLineFeeds_head_LF t :
  startsWith [LF] (capLineFeeds 0 t) = startsWith [LF] t.
Proof. destruct t as [|d u]; [done|]. cbn [capLineFeeds]. by destruct (d =? LF)%N. Qed.

Lemma capLineFeeds_pairs s : forall seen,
  includes [CR; LF] s = false ->
  includes [CR; LF] (capLineFeeds seen s) = false.
Proof.
  induction s as [|c t IH]; intros seen H; [done|].
  rewrite includes_cons in H. apply orb_false_iff in H as [Hs Ht].
  destruct (c =? LF)%N eqn:Hc.
  - apply N.eqb_eq in Hc as ->. rewrite capLineFeeds_LF.
    destruct (seen <? 2); [|by apply IH]. rewrite includes_cons, (IH _ Ht). done.
  - rewrite (capLineFeeds_other _ _ _ Hc), includes_cons, (IH _ Ht), orb_false_r.
    change (startsWith [CR; LF] (c :: ?u)) with ((CR =? c)%N && startsWith [LF] u) in *.
    by rewrite capLineFeeds_head_LF.
Qed.

Lemma joinLineEnds_fixed s :
  includes [CR; LF] s = false -> joinLineEnds false s = s.
Proof.
  induction s as [|c t IH]; intros H; [done|].
  rewrite includes_cons in H. apply orb_false_iff in H as [Hs Ht].
  cbn [joinLineEnds].
  change (startsWith [CR; LF] (c :: t)) with ((CR =? c)%N && startsWith [LF] t) in Hs.
  rewrite (N.eqb_sym c CR), Hs. f_equal. by apply IH.
Qed.

Lemma squeeze_fixed s : forall prev,
  ~ In TAB s -> includes [SPACE; SPACE] s = false ->
  (prev = true -> startsWith [SPACE] s = false) ->
  squeeze isBlank SPACE prev s = s.
Proof.
  induction s as [|c t IH]; intros prev Htab H Hprev; [done|].
  rewrite includes_cons in H. apply orb_false_iff in H as [Hs Ht].
  assert (~ In TAB t) as Htab' by (intros ?; apply Htab; by right).
  cbn [squeeze]. destruct (isBlank c) eqn:Hc.
  - assert (c = SPACE) as ->.
    { unfold isBlank in Hc. apply orb_true_iff in Hc as [Hc|Hc];
        apply N.eqb_eq in Hc as ->; [done|]. exfalso. apply Htab. by left. }
    destruct prev; [by specialize (Hprev eq_refl)|].
    f_equal. apply IH; [done|done|]. intros _.
    change (startsWith [SPACE; SPACE] (SPACE :: t)) with (startsWith [SPACE] t) in Hs.
    done.
  - f_equal. apply IH; [done|done|done].
Qed.

Lemma capLineFeeds_fixed s : forall seen,
  includes [LF; LF; LF] s = false ->
  seen + runLength (chr LF) s <= 2 ->
  capLineFeeds seen s = s.
Proof.
  induction s as [|c t IH]; intros seen H Hrun; [done|].
  rewrite includes_cons in H. apply orb_false_iff in H as [Hs Ht].
  destruct (c =? LF)%N eqn:Hc.
  - apply N.eqb_eq in Hc as ->. rewrite runLength_LF_cons in Hrun.
    rewrite capLineFeeds_LF.
    replace (seen <? 2) with true by (symmetry; apply Nat.ltb_lt; lia).
    f_equal. apply IH; [done|lia].
  - rewrite (capLineFeeds_other _ _ _ Hc). f_equal. apply IH; [done|].
    destruct (le_lt_dec (runLength (chr LF) t) 2) as [Hle|Hgt]; [lia|].
    exfalso. destruct t as [|x [|y [|z u]]]; try (cbn in Hgt; lia).
    + cbn [runLength] in Hgt. destruct (chr LF x); cbn in Hgt; lia.
    + cbn [runLength] in Hgt. destruct (chr LF x), (chr LF y); cbn in Hgt; lia.
    + rewrite includes_cons in Ht. apply orb_false_iff in Ht as [Ht _].
      cbn [runLength] in Hgt. unfold chr in Hgt. cbn [startsWith] in Ht.
      rewrite !(N.eqb_sym LF) in Ht.
      destruct (x =? LF)%N; [|lia]. destruct (y =? LF)%N; [|lia].
      destruct (z =? LF)%N; [done|lia].
Qed.

Lemma normalized_no_crlf s :
  includes [CR; CR; LF] s = false ->
  includes [CR; LF] (normalizeExtractedText s) = false.
Proof.
  intros H. unfold normalizeExtractedText. apply includes_trim.
  rewrite replace_all_newlines3. apply capLineFeeds_pairs.
  rewrite replace_all_blanks. apply squeeze_pairs.
  rewrite replace_all_crlf. by apply joinLineEnds_pairs.
Qed.

Lemma normalized_no_leading_line_feed s :
  runLength (chr LF) (normalizeExtractedText s) = 0.
Proof.
  destruct (normalizeExtractedText s) as [|c t] eqn:E; [done|].
  apply normalizeExtractedText_head in E. cbn [runLength].
  destruct (chr LF c) eqn:Hc; [|done].
  apply line_feed_white_space in Hc. congruence.
Qed.

(** X4: normalising is idempotent on every text in which no carriage
    return comes before a carriage return and line feed pair: the
    normalised text is left as it is by a second normalisation. *)
Theorem normalizeExtractedText_idempotent (value : jsstring) :
  includes [CR; CR; LF] value = false ->
  normalizeExtractedText (normalizeExtractedText value) = normalizeExtractedText value.
Proof.
  intros H. set (out := normalizeExtractedText value).
  unfold normalizeExtractedText at 1.
  rewrite replace_all_crlf, joinLineEnds_fixed by by apply normalized_no_crlf.
  rewrite replace_all_blanks, squeeze_fixed;
    [|apply normalized_no_tab|apply normalized_no_blank_pair|done].
  rewrite replace_all_newlines3, capLineFeeds_fixed;
    [|apply normalized_no_line_feed_triple
     |unfold out; rewrite normalized_no_leading_line_feed; lia].
  apply trim_idempotent.
Qed.

Lemma normalizeExtractedText_idempotent_witness :
  normalizeExtractedText (normalizeExtractedText windowsText)
  = normalizeExtractedText windowsText.
Proof. apply normalizeExtractedText_idempotent. reflexivity. Defined.

(** ** OCR recovery on a store of keyed documents *)

Section Recovery.
Context {W : Type}.
Variable rt : Runtime W.
Variable cfg : Config.

(** One turn of the recovery loop either leaves the documents as they
    are or stores the document read under [key] with a new text, which is
    a normalised text and is not empty. *)
Lemma recoverOne_effect key st :
  exists st',
    recoverOne rt cfg key st = (inr tt, st')
    /\ analysisRuns st' = analysisRuns st
    /\ (documents st' = documents st
        \/ exists doc ocr,
             documents st !! key = Some doc
             /\ normalizeExtractedText ocr <> []
             /\ documents st'
                = <[doc_id doc := withRecoveredText doc (normalizeExtractedText ocr)]>
                    (<[key := withRecoveredText doc (normalizeExtractedText ocr)]>
                       (documents st))).
Proof.
  unfold recoverOne, tryCatch, bind at 1. cbn [getState].
  destruct (documents st !! key) as [doc|] eqn:Hdoc; [|exists st; by auto].
  unfold bind at 1.
  pose proof (keeps_getDocumentBuffer rt documents (@keeps_documents_call W) doc st) as Hd1.
  pose proof (keeps_getDocumentBuffer rt analysisRuns (@keeps_runs_call W) doc st) as Hr1.
  destruct (getDocumentBuffer rt doc st) as [[e|[[|b bs]|]] st1];
    simpl in Hd1, Hr1; try (exists st1; by auto).
  unfold bind at 1.
  pose proof (keeps_ocr rt cfg documents (@keeps_documents_call W) (b :: bs) st1) as Hd2.
  pose proof (keeps_ocr rt cfg analysisRuns (@keeps_runs_call W) (b :: bs) st1) as Hr2.
  destruct (extractTextFromPdfBufferWithGemini rt cfg (b :: bs) st1) as [[e|ocr] st2];
    simpl in Hd2, Hr2; try (exists st2; split_and!; [done|congruence|left; congruence]).
  destruct (normalizeExtractedText ocr) as [|c t] eqn:Hn;
    [exists st2; split_and!; [done|congruence|left; congruence]|].
  unfold bind, getState, setDocuments. cbn.
  eexists. split; [done|]. cbn. split; [congruence|].
  right. exists doc, ocr. rewrite Hn, Hd2, Hd1. by split_and!.
Qed.

End Recovery.

Lemma recoveredStore_refl allowed ds : recoveredStore allowed ds ds.
Proof. intros k. destruct (ds !! k) as [d|]; [|done]. exists d. auto. Qed.

Lemma recoveredStore_trans (A B : jsstring -> Prop) ds ds1 ds2 :
  recoveredStore A ds ds1 -> recoveredStore B ds1 ds2 ->
  recoveredStore (fun k => A k \/ B k) ds ds2.
Proof.
  intros H1 H2 k. specialize (H1 k). specialize (H2 k).
  destruct (ds !! k) as [d|]; [|by rewrite H1 in H2].
  destruct H1 as (d1 & E1 & H1). rewrite E1 in H2.
  destruct H2 as (d2 & E2 & H2). exists d2. split; [done|].
  destruct H2 as [->|(HB & ocr2 & Hn2 & ->)].
  - destruct H1 as [->|(HA & ocr1 & Hn1 & ->)]; [by left|right; eauto].
  - right. split; [by right|]. exists ocr2. split; [done|].
    by destruct H1 as [->|(HA & ocr1 & Hn1 & ->)].
Qed.

Lemma recoveredStore_weaken (A B : jsstring -> Prop) ds ds' :
  (forall k, A k -> B k) -> recoveredStore A ds ds' -> recoveredStore B ds ds'.
Proof.
  intros HAB H k. specialize (H k). destruct (ds !! k) as [d|]; [|done].
  destruct H as (d' & E & [Hd|(HA & H)]); exists d'; (split; [done|]); auto.
Qed.

Section Recovery2.
Context {W : Type}.
Variable rt : Runtime W.
Variable cfg : Config.

Lemma recoverOne_keyed key st :
  keyedDocuments (documents st) ->
  exists st',
    recoverOne rt cfg key st = (inr tt, st')
    /\ analysisRuns st' = analysisRuns st
    /\ keyedDocuments (documents st')
    /\ recoveredStore (fun k => k = key) (documents st) (documents st').
Proof.
  intros Hkeyed.
  destruct (recoverOne_effect rt cfg key st) as (st' & E & Hruns & Hdocs).
  exists st'. split; [done|]. split; [done|].
  destruct Hdocs as [->|(doc & ocr & Hdoc & Hn & ->)];
    [split; [done|apply recoveredStore_refl]|].
  rewrite (Hkeyed _ _ Hdoc), insert_insert_eq. split.
  - apply map_Forall_insert_2; [|done]. apply (Hkeyed _ _ Hdoc).
  - intros k. destruct (decide (k = key)) as [->|Hne].
    + rewrite Hdoc, lookup_insert_eq. eexists. split; [done|]. right. eauto.
    + rewrite lookup_insert_ne by done. destruct (documents st !! k) as [d|]; eauto.
Qed.

Lemma forEach_recoverOne_keyed keys : forall st,
  keyedDocuments (documents st) ->
  exists st',
    forEach keys (recoverOne rt cfg) st = (inr tt, st')
    /\ analysisRuns st' = analysisRuns st
    /\ keyedDocuments (documents st')
    /\ recoveredStore (fun k => In k keys) (documents st) (documents st').
Proof.
  induction keys as [|key keys IH]; intros st Hkeyed; cbn [forEach].
  - exists st. split_and!; [done..|apply recoveredStore_refl].
  - unfold bind.
    destruct (recoverOne_keyed key st Hkeyed) as (st1 & -> & Hr1 & Hk1 & Hs1).
    destruct (IH st1 Hk1) as (st2 & -> & Hr2 & Hk2 & Hs2).
    exists st2. split_and!; [done|congruence|done|].
    eapply recoveredStore_weaken; [|eapply recoveredStore_trans; eassumption].
    intros k [->|H]; [by left|by right].
Qed.

Lemma recoverWeakPdfDocuments_keyed selected st :
  keyedDocuments (documents st) ->
  exists st',
    recoverWeakPdfDocuments rt cfg selected st = (inr tt, st')
    /\ analysisRuns st' = analysisRuns st
    /\ keyedDocuments (documents st')
    /\ forall k,
         match documents st !! k with
         | None => documents st' !! k = None
         | Some d =>
             exists d',
               documents st' !! k = Some d'
               /\ (d' = d
                   \/ (In k selected
                       /\ isWeakPdfDoc rt cfg d = true
                       /\ exists ocr,
                            normalizeExtractedText ocr <> []
                            /\ d' = withRecoveredText d (normalizeExtractedText ocr)))
         end.
Proof.
  intros Hkeyed. unfold recoverWeakPdfDocuments, bind. cbn [getState].
  destruct (forEach_recoverOne_keyed
              (List.filter
                 (fun k => match documents st !! k with
                           | Some doc => isWeakPdfDoc rt cfg doc
                           | None => false
                           end) selected) st Hkeyed) as (st' & E & Hr & Hk & Hs).
  exists st'. split_and!; [done..|].
  intros k. specialize (Hs k). destruct (documents st !! k) as [d|] eqn:Hd; [|done].
  destruct Hs as (d' & E' & [Hd'|(Hin & H)]); exists d'; (split; [done|]); [by left|].
  right. apply filter_In in Hin as [Hin Hweak]. rewrite Hd in Hweak. by split_and!.
Qed.

End Recovery2.

(** ** The upload endpoint *)

Section Upload.
Context {W : Type}.
Variable rt : Runtime W.
Variable cfg : Config.

Lemma uploadLoop_effect files : forall uploaded st out st',
  uploadLoop rt cfg files uploaded st = (out, st') ->
  analysisRuns st' = analysisRuns st
  /\ (forall k, is_Some (documents st !! k) -> is_Some (documents st' !! k))
  /\ (keyedDocuments (documents st) -> keyedDocuments (documents st'))
  /\ (forall up, out = inr up ->
        exists new,
          up = uploaded ++ new /\ Forall2 (uploadedAs (documents st')) files new).
Proof.
  induction files as [|file files IH]; intros uploaded st out st' E.
  - cbn in E. injection E as <- <-. split_and!; [done..|].
    intros up [= <-]. exists []. by rewrite app_nil_r.
  - cbn [uploadLoop] in E. unfold bind at 1 in E.
    pose proof (keeps_extractTextFromBuffer rt cfg documents (@keeps_documents_call W) file st) as Hd1.
    pose proof (keeps_extractTextFromBuffer rt cfg analysisRuns (@keeps_runs_call W) file st) as Hr1.
    destruct (extractTextFromBuffer rt cfg file st) as [[e|extracted] st1];
      simpl in Hd1, Hr1; [injection E as <- <-; rewrite Hd1; by split_and!|].
    unfold bind at 1, call at 1 in E.
    destruct (uploadBufferToCloudinary rt (world st1) file) as [w2 [e|cloud]]; cbn in E;
      [injection E as <- <-; cbn; rewrite Hd1; by split_and!|].
    unfold bind at 1, call at 1 in E. cbn in E.
    destruct (randomUUID rt w2) as [w3 id].
    unfold bind at 1, call at 1 in E. cbn in E.
    destruct (nowISO rt w3) as [w4 now].
    set (doc := newDocument cfg file (normalizeExtractedText extracted) cloud id now) in E.
    apply IH in E as (Hr & Hk & Hkeyed & Hup). cbn in Hr, Hk, Hkeyed.
    split_and!.
    + by rewrite Hr.
    + intros k Hs. apply Hk. rewrite Hd1.
      destruct (decide (id = k)) as [->|];
        [by rewrite lookup_insert_eq|by rewrite lookup_insert_ne].
    + intros Hin. apply Hkeyed. apply map_Forall_insert_2; [done|by rewrite Hd1].
    + intros up Hfst. destruct (Hup up Hfst) as (new & -> & Hnew).
      exists (maskDocument doc :: new). rewrite <- app_assoc. split; [done|].
      constructor; [|done]. split_and!; try done.
      * apply Hk. by rewrite lookup_insert_eq.
      * exists extracted. split; [done|].
        change (slice0 220 (normalizeExtractedText extracted)
                = take (Z.to_nat 220) (normalizeExtractedText extracted)).
        by apply slice0_nonneg.
Qed.

Lemma uploadLoop_app earlier : forall rest uploaded st,
  uploadLoop rt cfg (earlier ++ rest) uploaded st
  = match uploadLoop rt cfg earlier uploaded st with
    | (inr up, st1) => uploadLoop rt cfg rest up st1
    | (inl e, st1) => (inl e, st1)
    end.
Proof.
  induction earlier as [|file earlier IH]; intros rest uploaded st; [done|].
  cbn [app uploadLoop]. unfold bind.
  destruct (extractTextFromBuffer rt cfg file st) as [[e|extracted] st1]; [done|].
  destruct (call _ st1) as [[e|[e|cloud]] st2]; [done|done|]. cbn [liftEither ret].
  destruct (call (randomUUID rt) st2) as [[e|id] st3]; [done|].
  destruct (call (nowISO rt) st3) as [[e|now] st4]; [done|].
  cbn [getState setDocuments]. apply IH.
Qed.

End Upload.

(** ** What an analysis does to the stores *)

Section AnalyzeEffect.
Context {W : Type}.
Variable rt : Runtime W.
Variable cfg : Config.

Lemma runOptionBAnalysis_normalized txt parts st res st' :
  runOptionBAnalysis rt cfg txt parts st = (inr res, st') ->
  exists v, res = normalizeResult (toLowerCase rt) v.
Proof.
  unfold runOptionBAnalysis. destruct (negb (hasApiKey cfg)); [done|].
  destruct (_ && _); [done|]. unfold bind at 1.
  destruct (generateStructuredJson rt _ parts st) as [[e|parsed] st1]; [done|].
  destruct (_ && _).
  - unfold bind at 1.
    destruct (generateStructuredJson rt _ parts st1) as [[e|retryParsed] st2]; [done|].
    intros [= <- <-]. eauto.
  - intros [= <- <-]. eauto.
Qed.

Lemma finishAnalysis_effect selected txt parts st out st' :
  finishAnalysis rt cfg selected txt parts st = (out, st') ->
  documents st' = documents st
  /\ match out with
     | inl _ => analysisRuns st' = analysisRuns st
     | inr resp =>
         exists rid now v,
           resp = mkResponse 200
                    (AnalyzedBody rid (normalizeResult (toLowerCase rt) v)
                       (List.map maskDocument selected))
           /\ analysisRuns st'
              = <[rid := {| runId := rid;
                            createdAt := now;
                            documentIds := List.map doc_id selected;
                            documentNames := List.map doc_name selected;
                            result := normalizeResult (toLowerCase rt) v |}]>
                  (analysisRuns st)
     end.
Proof.
  intros E.
  pose proof (keeps_documents_finishAnalysis rt cfg selected txt parts st) as Hdocs.
  rewrite E in Hdocs. cbn in Hdocs. split; [done|].
  unfold finishAnalysis in E. unfold bind at 1 in E.
  pose proof (keeps_runOptionBAnalysis rt cfg analysisRuns (@keeps_runs_call W) txt parts st)
    as Hruns.
  destruct (runOptionBAnalysis rt cfg txt parts st) as [[e|res] st1] eqn:Eres;
    cbn in Hruns; [by injection E as <- <-|].
  apply runOptionBAnalysis_normalized in Eres as [v ->].
  unfold bind at 1, call at 1 in E. destruct (randomUUID rt (world st1)) as [w2 rid].
  unfold bind at 1, call at 1 in E. cbn in E. destruct (nowISO rt w2) as [w3 now].
  injection E as <- <-. exists rid, now, v. cbn. by rewrite Hruns.
Qed.

Lemma analyzeBody_effect reqBody st out st' :
  analyzeBody rt cfg reqBody st = (out, st') ->
  exists st1,
    (st1 = st
     \/ (enableOcrRecoveryOnAnalyze cfg = true
         /\ exists keys, recoverWeakPdfDocuments rt cfg keys st = (inr tt, st1)))
    /\ documents st' = documents st1
    /\ analysisRuns st1 = analysisRuns st
    /\ match out with
       | inl _ => analysisRuns st' = analysisRuns st
       | inr resp =>
           ((status resp = 400 \/ status resp = 404)
            /\ analysisRuns st' = analysisRuns st)
           \/ exists rid now v keys,
                keys <> []
                /\ Forall (fun k => is_Some (documents st !! k)) keys
                /\ resp = mkResponse 200
                            (AnalyzedBody rid (normalizeResult (toLowerCase rt) v)
                               (List.map maskDocument (lookupAll (documents st1) keys)))
                /\ analysisRuns st'
                   = <[rid := {| runId := rid;
                                 createdAt := now;
                                 documentIds :=
                                   List.map doc_id (lookupAll (documents st1) keys);
                                 documentNames :=
                                   List.map doc_name (lookupAll (documents st1) keys);
                                 result := normalizeResult (toLowerCase rt) v |}]>
                       (analysisRuns st)
       end.
Proof.
  intros E.
  destruct (prop "documentIds" reqBody) as [ids|] eqn:Hids;
    [|unfold analyzeBody in E; rewrite Hids in E; injection E as <- <-;
      exists st; split_and!; auto].
  destruct ids as [| | | |ids|];
    try (unfold analyzeBody in E; rewrite Hids in E; injection E as <- <-;
         exists st; split_and!; by auto).
  destruct ids as [|i ids];
    [unfold analyzeBody in E; rewrite Hids in E; injection E as <- <-;
     exists st; split_and!; by auto|].
  destruct (resolveIds (documents st) (i :: ids)) as [|k ks] eqn:Hkeys.
  { unfold analyzeBody in E. rewrite Hids in E. unfold bind at 1 in E.
    cbn [getState] in E. rewrite Hkeys in E. injection E as <- <-.
    exists st. split_and!; auto. }
  rewrite (analyzeBody_selected rt cfg reqBody (i :: ids) st Hids) in E
    by (rewrite Hkeys; done).
  rewrite Hkeys in E. cbn zeta in E.
  set (st1 := afterRecovery rt cfg (k :: ks) st) in *.
  set (selected := lookupAll (documents st1) (k :: ks)) in *.
  exists st1.
  assert (st1 = st
          \/ (enableOcrRecoveryOnAnalyze cfg = true
              /\ exists keys, recoverWeakPdfDocuments rt cfg keys st = (inr tt, st1)))
    as Hst1.
  { unfold st1, afterRecovery. destruct (enableOcrRecoveryOnAnalyze cfg); [|by left].
    right. split; [done|]. exists (k :: ks).
    destruct (recoverWeakPdfDocuments_spec rt cfg (k :: ks) st) as (st2 & -> & _). done. }
  split; [done|].
  assert (analysisRuns st1 = analysisRuns st) as Hr1 by apply afterRecovery_runs.
  unfold bind at 1 in E.
  assert (keeps documents
            (if belowAnalysisSignal cfg (extractedOnlyText selected)
             then buildDocumentParts rt cfg selected else ret [])) as Hpd.
  { destruct (belowAnalysisSignal cfg (extractedOnlyText selected));
      [apply keeps_buildDocumentParts, (@keeps_documents_call W)|apply keeps_ret]. }
  assert (keeps analysisRuns
            (if belowAnalysisSignal cfg (extractedOnlyText selected)
             then buildDocumentParts rt cfg selected else ret [])) as Hpr.
  { destruct (belowAnalysisSignal cfg (extractedOnlyText selected));
      [apply keeps_buildDocumentParts, (@keeps_runs_call W)|apply keeps_ret]. }
  specialize (Hpd st1). specialize (Hpr st1).
  destruct ((if belowAnalysisSignal cfg (extractedOnlyText selected)
             then buildDocumentParts rt cfg selected else ret []) st1)
    as [[e|parts] st2]; cbn in Hpd, Hpr.
  { injection E as <- <-. split_and!; [done..|congruence]. }
  assert (forall out st', finishAnalysis rt cfg selected (analysisTextFor cfg selected)
                            parts st2 = (out, st') ->
            documents st' = documents st1
            /\ match out with
               | inl _ => analysisRuns st' = analysisRuns st
               | inr resp =>
                   ((status resp = 400 \/ status resp = 404)
                    /\ analysisRuns st' = analysisRuns st)
                   \/ exists rid now v keys,
                        keys <> []
                        /\ Forall (fun k => is_Some (documents st !! k)) keys
                        /\ resp = mkResponse 200
                                    (AnalyzedBody rid (normalizeResult (toLowerCase rt) v)
                                       (List.map maskDocument
                                          (lookupAll (documents st1) keys)))
                        /\ analysisRuns st'
                           = <[rid := {| runId := rid;
                                         createdAt := now;
                                         documentIds :=
                                           List.map doc_id (lookupAll (documents st1) keys);
                                         documentNames :=
                                           List.map doc_name
                                             (lookupAll (documents st1) keys);
                                         result := normalizeResult (toLowerCase rt) v |}]>
                               (analysisRuns st)
               end) as Hfin.
  { intros out0 st0 E0. apply finishAnalysis_effect in E0 as [Hd Ho].
    split; [congruence|]. destruct out0 as [e|resp]; [congruence|].
    destruct Ho as (rid & now & v & -> & Hruns). right.
    exists rid, now, v, (k :: ks). split_and!; [done| |done|].
    - rewrite <- Hkeys. apply resolveIds_present.
    - rewrite Hruns. by rewrite Hpr, Hr1. }
  destruct (belowAnalysisSignal cfg (extractedOnlyText selected)), parts;
    try (apply Hfin in E as [? ?]; by split_and!).
  injection E as <- <-. split_and!; [done..|]. left. split; [by left|congruence].
Qed.

End AnalyzeEffect.

(** ** The shape of a normalised result *)

Lemma allowedOr_allowed allowed v dflt :
  In dflt allowed -> In (allowedOr allowed v dflt) allowed.
Proof.
  intros Hd. unfold allowedOr. destruct v as [[| | |s| |]|]; try done.
  destruct (existsb (str_eqb s) allowed) eqn:E; [|done].
  apply existsb_exists in E as (x & Hx & Heq). unfold str_eqb in Heq.
  by apply bool_decide_eq_true in Heq as ->.
Qed.

Lemma normalizeNullableString_clean (toLowerCase : jsstring -> jsstring) v :
  cleanNullable toLowerCase (normalizeNullableString toLowerCase v).
Proof.
  unfold normalizeNullableString. destruct v as [[| | |s| |]|]; try done.
  destruct (negb (nonEmpty (trim s))) eqn:E1; [done|]. cbn [orb].
  destruct (str_eqb (toLowerCase (trim s)) (lit "null")) eqn:E2; [done|]. cbn [orb].
  destruct (str_eqb (toLowerCase (trim s)) (lit "not mentioned")) eqn:E3; [done|].
  unfold str_eqb in *. apply bool_decide_eq_false in E2, E3.
  apply negb_false_iff in E1. split_and!; [split; [apply trim_idempotent|done]|done..].
Qed.

Lemma normalizeStringArray_clean v (max : nat) :
  cleanList max (normalizeStringArray v (Z.of_nat max)).
Proof.
  unfold normalizeStringArray. rewrite slice0_nonneg by lia. rewrite Nat2Z.id. split.
  - rewrite length_take. lia.
  - apply Forall_take, strings_cleaned.
Qed.

Lemma normalizeResult_wellFormed (toLowerCase : jsstring -> jsstring) v :
  wellFormedResult toLowerCase (normalizeResult toLowerCase v).
Proof.
  unfold wellFormedResult, normalizeResult.
  cbn [tone confidence tone_summary forward_guidance revenue margin capex tax_rate
       capacity_utilization_trends key_positives key_concerns growth_initiatives
       missing_sections evidence_quotes].
  split_and!; try apply normalizeNullableString_clean.
  - apply allowedOr_allowed. unfold toneAllowed. cbn. auto.
  - apply allowedOr_allowed. unfold confidenceAllowed. cbn. auto.
  - apply (normalizeStringArray_clean _ 6).
  - apply (normalizeStringArray_clean _ 6).
  - apply (normalizeStringArray_clean _ 6).
  - apply (normalizeStringArray_clean _ 12).
  - apply normalizeEvidence_clean.
  - destruct (normalizeEvidence_clean
                (prop "evidence_quotes" (Some v))) as (_ & _ & Hne).
    destruct (normalizeEvidence _); [done|cbn; lia].
  - apply normalizeEvidence_clean.
Qed.

(** X5: whatever value the model answers, the normalised result has a
    tone and a confidence of the allowed lists; nullable texts that are
    absent or trimmed, not empty and neither [null] nor [not mentioned] in
    any case; at most 6 key positives, 6 key concerns, 6 growth
    initiatives and 12 missing sections, each trimmed and not empty; and
    between 1 and 8 evidence entries with a trimmed quote of more than 10
    code units. *)
Theorem normalizeResult_schema (toLowerCase : jsstring -> jsstring) (v : json) :
  let r := normalizeResult toLowerCase v in
  let nullable (x : option jsstring) :=
    match x with
    | None => True
    | Some s =>
        trim s = s /\ s <> []
        /\ toLowerCase s <> lit "null" /\ toLowerCase s <> lit "not mentioned"
    end in
  let texts (max : nat) (l : list jsstring) :=
    length l <= max /\ Forall (fun s => trim s = s /\ s <> []) l in
  In (tone r)
    [lit "optimistic"; lit "cautious"; lit "defensive"; lit "neutral"; lit "pessimistic"]
  /\ In (confidence r) [lit "high"; lit "medium"; lit "low"]
  /\ nullable (tone_summary r)
  /\ nullable (revenue (forward_guidance r))
  /\ nullable (margin (forward_guidance r))
  /\ nullable (capex (forward_guidance r))
  /\ nullable (tax_rate (forward_guidance r))
  /\ nullable (capacity_utilization_trends r)
  /\ texts 6 (key_positives r)
  /\ texts 6 (key_concerns r)
  /\ texts 6 (growth_initiatives r)
  /\ texts 12 (missing_sections r)
  /\ 1 <= length (evidence_quotes r) <= 8
  /\ Forall (fun e => trim (quote e) = quote e /\ 10 < length (quote e)
                      /\ trim (section e) = section e) (evidence_quotes r).
Proof.
  cbn zeta.
  destruct (normalizeResult_wellFormed toLowerCase v)
    as (Ht & Hc & H1 & H2 & H3 & H4 & H5 & H6 & L1 & L2 & L3 & L4 & He & Hlen).
  assert (forall s, cleanString s -> trim s = s /\ s <> []) as Hclean.
  { intros s [? Hne]. split; [done|]. by destruct s. }
  assert (forall x, cleanNullable toLowerCase x ->
            match x with
            | None => True
            | Some s =>
                trim s = s /\ s <> []
                /\ toLowerCase s <> lit "null" /\ toLowerCase s <> lit "not mentioned"
            end) as Hnull.
  { intros [s|]; [|done]. intros (Hs & ? & ?). apply Hclean in Hs as [? ?]. done. }
  assert (forall max l, cleanList max l ->
            length l <= max /\ Forall (fun s => trim s = s /\ s <> []) l) as Hlist.
  { intros max l [? Hl]. split; [done|]. eapply Forall_impl; [exact Hl|]. apply Hclean. }
  exact (conj Ht (conj Hc (conj (Hnull _ H1) (conj (Hnull _ H2) (conj (Hnull _ H3)
           (conj (Hnull _ H4) (conj (Hnull _ H5) (conj (Hnull _ H6)
           (conj (Hlist _ _ L1) (conj (Hlist _ _ L2) (conj (Hlist _ _ L3)
           (conj (Hlist _ _ L4) (conj Hlen He))))))))))))).
Qed.

(** ** The invariant of the two stores *)

Lemma runInvariant_mono (toLowerCase : jsstring -> jsstring)
    (ds ds' : gmap jsstring Document) (k : jsstring) (r : Run) :
  (forall id, is_Some (ds !! id) -> is_Some (ds' !! id)) ->
  runInvariant toLowerCase ds k r -> runInvariant toLowerCase ds' k r.
Proof.
  intros Hsub (H1 & H2 & H3 & H4 & H5). split_and!; try done.
  eapply Forall_impl; [exact H4|]. intros id. apply Hsub.
Qed.

Section StoreInvariant.
Context {W : Type}.
Variable rt : Runtime W.
Variable cfg : Config.

Lemma upload_effect files st out st' :
  upload rt cfg files st = (out, st') ->
  analysisRuns st' = analysisRuns st
  /\ (forall k, is_Some (documents st !! k) -> is_Some (documents st' !! k))
  /\ (keyedDocuments (documents st) -> keyedDocuments (documents st')).
Proof.
  unfold upload, tryCatch. destruct files as [|file files].
  { cbn. intros [= <- <-]. done. }
  unfold bind.
  destruct (uploadLoop rt cfg (file :: files) [] st) as [[e|up] st1] eqn:E;
    cbn; intros [= <- <-]; apply uploadLoop_effect in E as (? & ? & ? & _); done.
Qed.

Lemma analyze_effect reqBody st out st' :
  analyze rt cfg reqBody st = (out, st') ->
  keyedDocuments (documents st) ->
  keyedDocuments (documents st')
  /\ (forall k, is_Some (documents st' !! k) <-> is_Some (documents st !! k))
  /\ (analysisRuns st' = analysisRuns st
      \/ exists rid run,
           analysisRuns st' = <[rid := run]> (analysisRuns st)
           /\ runInvariant (toLowerCase rt) (documents st') rid run).
Proof.
  unfold analyze, tryCatch. intros E Hkeyed.
  destruct (analyzeBody rt cfg reqBody st) as [out0 st0] eqn:E0.
  assert (st0 = st') as -> by (destruct out0; cbn in E; unfold ret in E; congruence).
  apply analyzeBody_effect in E0 as (st1 & Hst1 & Hd & Hr1 & Hout).
  assert (keyedDocuments (documents st1)
          /\ forall k, is_Some (documents st1 !! k) <-> is_Some (documents st !! k))
    as [Hk1 Hdom].
  { destruct Hst1 as [->|(_ & keys & Hrec)]; [done|].
    destruct (recoverWeakPdfDocuments_keyed rt cfg keys st Hkeyed)
      as (st2 & E2 & _ & Hk2 & Hs2).
    rewrite Hrec in E2. injection E2 as <-. split; [done|].
    intros k. specialize (Hs2 k). destruct (documents st !! k) as [d|].
    - destruct Hs2 as (d' & -> & _). split; eauto.
    - rewrite Hs2. done. }
  rewrite Hd. split; [done|]. split; [done|].
  destruct out0 as [e|resp]; [by left|].
  destruct Hout as [[_ Hruns]|(rid & now & v & keys & Hne & Hpres & _ & Hruns)];
    [by left|].
  right. eexists _, _. split; [exact Hruns|].
  assert (Forall2 (fun k doc => documents st1 !! k = Some doc) keys
            (lookupAll (documents st1) keys)) as Hsel.
  { apply lookupAll_present. eapply Forall_impl; [exact Hpres|].
    intros k. apply Hdom. }
  split_and!; cbn [runId documentIds documentNames result].
  - done.
  - intros Hnil. apply map_eq_nil in Hnil. rewrite Hnil in Hsel.
    inversion Hsel; by subst.
  - by rewrite !length_map.
  - apply Forall_map. clear -Hsel Hk1. induction Hsel as [|k doc ks docs Hkd _ IH];
      constructor; [|done]. cbn. rewrite (Hk1 _ _ Hkd). by rewrite Hkd.
  - apply normalizeResult_wellFormed.
Qed.

Lemma serve_serverInvariant req st :
  serverInvariant rt st -> serverInvariant rt (snd (serve rt cfg req st)).
Proof.
  intros [Hkeyed Hruns]. destruct req as [files|reqBody]; cbn [serve].
  - destruct (upload rt cfg files st) as [out st'] eqn:E. cbn.
    apply upload_effect in E as (Hr & Hdom & Hk). split; [auto|].
    rewrite Hr. eapply map_Forall_impl; [exact Hruns|].
    intros k r. by apply runInvariant_mono.
  - destruct (analyze rt cfg reqBody st) as [out st'] eqn:E. cbn.
    apply analyze_effect in E as (Hk & Hdom & Hr); [|done]. split; [done|].
    assert (map_Forall (runInvariant (toLowerCase rt) (documents st')) (analysisRuns st))
      as Hold.
    { eapply map_Forall_impl; [exact Hruns|]. intros k r.
      apply runInvariant_mono. intros id. apply Hdom. }
    destruct Hr as [->|(rid & run & -> & Hrun)]; [done|].
    by apply map_Forall_insert_2.
Qed.

Lemma serveAll_serverInvariant reqs : forall st,
  serverInvariant rt st -> serverInvariant rt (serveAll rt cfg reqs st).
Proof.
  induction reqs as [|req reqs IH]; intros st Hinv; cbn [serveAll]; [done|].
  by apply IH, serve_serverInvariant.
Qed.

Lemma serverInvariant_empty w : serverInvariant rt (mkState ∅ ∅ w).
Proof. split; cbn; apply map_Forall_empty. Qed.

End StoreInvariant.

(** X6: in every state the server reaches from empty stores, every
    document is filed under its own identifier, and an analysis, with or
    without OCR recovery, neither adds a document to the store nor removes
    one. *)
Theorem document_identifiers {W : Type} (rt : Runtime W) (cfg : Config)
    (w : W) (reqs : list Request) :
  let st := serveAll rt cfg reqs (mkState ∅ ∅ w) in
  (forall key doc, documents st !! key = Some doc -> doc_id doc = key)
  /\ (forall reqBody key,
        is_Some (documents (snd (analyze rt cfg reqBody st)) !! key)
        <-> is_Some (documents st !! key)).
Proof.
  cbn zeta.
  destruct (serveAll_serverInvariant rt cfg reqs _ (serverInvariant_empty rt w))
    as [Hkeyed _].
  split; [exact Hkeyed|]. intros reqBody key.
  destruct (analyze rt cfg reqBody _) as [out st'] eqn:E.
  apply analyze_effect in E as (_ & Hdom & _); [|done]. apply Hdom.
Qed.

(** X7: in every state the server reaches from empty stores, every run
    is filed under its own identifier, names at least one document and as
    many names as identifiers, refers only to documents that are in the
    store, and holds a normalised result. *)
Theorem run_store_invariant {W : Type} (rt : Runtime W) (cfg : Config)
    (w : W) (reqs : list Request) (key : jsstring) (run : Run) :
  let st := serveAll rt cfg reqs (mkState ∅ ∅ w) in
  analysisRuns st !! key = Some run ->
  runId run = key
  /\ documentIds run <> []
  /\ length (documentNames run) = length (documentIds run)
  /\ Forall (fun id => is_Some (documents st !! id)) (documentIds run)
  /\ wellFormedResult (toLowerCase rt) (result run).
Proof.
  cbn zeta. intros Hrun.
  destruct (serveAll_serverInvariant rt cfg reqs _ (serverInvariant_empty rt w))
    as [_ Hruns].
  exact (Hruns key run Hrun).
Qed.

Lemma run_store_invariant_witness :
  runId notesRun = lit "id-1"
  /\ documentIds notesRun <> []
  /\ length (documentNames notesRun) = length (documentIds notesRun)
  /\ Forall (fun id =>
               is_Some
                 (documents
                    (serveAll (scriptedRuntime readingModel offline) keyedConfig
                       [PostUpload [notesFile]; PostAnalyze (requestFor ["id-0"%string])]
                       (mkState ∅ ∅ world0)) !! id))
       (documentIds notesRun)
  /\ wellFormedResult toLowerCaseLatin1 (result notesRun).
Proof.
  apply (run_store_invariant (scriptedRuntime readingModel offline) keyedConfig world0
           [PostUpload [notesFile]; PostAnalyze (requestFor ["id-0"%string])]
           (lit "id-1") notesRun).
  vm_compute. reflexivity.
Defined.

(** ** The answers of the endpoints *)

Lemma analyzeCatch_status {W : Type} (rt : Runtime W) (e : jserror) :
  status (analyzeCatch rt e) = 429 \/ status (analyzeCatch rt e) = 500.
Proof. unfold analyzeCatch. destruct (parseGeminiQuotaError rt e); cbn; auto. Qed.

Lemma masked_ids (selected : list Document) :
  List.map m_id (List.map maskDocument selected) = List.map doc_id selected.
Proof. rewrite List.map_map. by apply List.map_ext. Qed.

Lemma masked_names (selected : list Document) :
  List.map m_name (List.map maskDocument selected) = List.map doc_name selected.
Proof. rewrite List.map_map. by apply List.map_ext. Qed.

(** X8: when an analysis answers with status 200, the run identifier of
    the answer names a stored run: the result download returns that run,
    which holds the result and the documents of the answer, and the CSV
    download returns its CSV export as an attachment named after the
    run. *)
Theorem analysis_result_downloadable {W : Type} (rt : Runtime W) (cfg : Config)
    (reqBody : option json) (st st' : State W)
    (rid : jsstring) (res : Result) (docs : list MaskedDocument) :
  analyze rt cfg reqBody st = (inr (mkResponse 200 (AnalyzedBody rid res docs)), st') ->
  exists run,
    getResult rid st' = (200, RunJson run)
    /\ getResultCsv rid st'
       = (200,
          CsvFile (lit "text/csv")
            (lit "attachment; filename=option-b-" ++ rid ++ lit ".csv")
            (buildResultCsv run))
    /\ runId run = rid
    /\ result run = res
    /\ documentIds run = List.map m_id docs
    /\ documentNames run = List.map m_name docs.
Proof.
  unfold analyze, tryCatch. intros E.
  destruct (analyzeBody rt cfg reqBody st) as [[e|resp] st0] eqn:E0.
  { unfold ret in E. injection E as E _.
    pose proof (analyzeCatch_status rt e) as Hs. rewrite E in Hs. cbn in Hs.
    destruct Hs; discriminate. }
  injection E as -> ->.
  apply analyzeBody_effect in E0 as (st1 & _ & _ & _ & Hout).
  destruct Hout as [[[Hs|Hs] _]|(rid0 & now & v & keys & _ & _ & Hresp & Hruns)];
    [discriminate Hs|discriminate Hs|].
  injection Hresp as -> -> ->.
  eexists. unfold getResult, getResultCsv. rewrite Hruns, lookup_insert_eq.
  cbn [runId result documentIds documentNames].
  by rewrite masked_ids, masked_names.
Qed.

(** X9: the analyze endpoint always answers, with one of the statuses
    200, 400, 404, 429 and 500; it stores a run only when it answers 200;
    it never removes a document, and leaves the documents as they are
    when OCR recovery on analysis is not enabled. *)
Theorem analyze_answers {W : Type} (rt : Runtime W) (cfg : Config)
    (reqBody : option json) (st : State W) :
  exists resp st',
    analyze rt cfg reqBody st = (inr resp, st')
    /\ In (status resp) [200; 400; 404; 429; 500]
    /\ (status resp <> 200 -> analysisRuns st' = analysisRuns st)
    /\ (forall k, is_Some (documents st !! k) -> is_Some (documents st' !! k))
    /\ (enableOcrRecoveryOnAnalyze cfg = false -> documents st' = documents st).
Proof.
  unfold analyze, tryCatch.
  destruct (analyzeBody rt cfg reqBody st) as [out st0] eqn:E0.
  apply analyzeBody_effect in E0 as (st1 & Hst1 & Hd & Hr1 & Hout).
  assert ((forall k, is_Some (documents st !! k) -> is_Some (documents st0 !! k))
          /\ (enableOcrRecoveryOnAnalyze cfg = false -> documents st0 = documents st))
    as [Hdom Hoff].
  { rewrite Hd. destruct Hst1 as [->|(Hon & keys & Hrec)]; [done|].
    split; [|congruence].
    destruct (recoverWeakPdfDocuments_spec rt cfg keys st) as (st2 & E2 & _ & Hk & _).
    rewrite Hrec in E2. by injection E2 as <-. }
  destruct out as [e|resp].
  - exists (analyzeCatch rt e), st0. split_and!; try done.
    destruct (analyzeCatch_status rt e) as [-> | ->]; cbn; auto 10.
  - exists resp, st0. split_and!; try done.
    + destruct Hout as [[[-> | ->] _]|(rid & now & v & keys & _ & _ & -> & _)];
        cbn; auto 10.
    + intros Hs.
      destruct Hout as [[_ Hruns]|(rid & now & v & keys & _ & _ & -> & _)]; done.
Qed.

(** X10: the upload endpoint always answers.  Without files it answers
    400 and changes nothing.  Otherwise it answers 201 with one entry per
    file, in the order of the files, each with the name, type and size of
    its file and the identifier of a stored document, or it answers 500
    with the message of the failure.  It never removes a document and
    never touches the runs. *)
Theorem upload_answers {W : Type} (rt : Runtime W) (cfg : Config)
    (files : list File) (st : State W) :
  exists resp st',
    upload rt cfg files st = (inr resp, st')
    /\ analysisRuns st' = analysisRuns st
    /\ (forall k, is_Some (documents st !! k) -> is_Some (documents st' !! k))
    /\ match files with
       | [] => resp = mkResponse 400 (ErrorBody (lit "No files provided")) /\ st' = st
       | _ :: _ =>
           (exists uploaded,
              resp = mkResponse 201 (UploadedBody uploaded)
              /\ Forall2 (uploadedAs (documents st')) files uploaded)
           \/ (exists msg, msg <> [] /\ resp = mkResponse 500 (ErrorBody msg))
       end.
Proof.
  unfold upload, tryCatch. destruct files as [|file files].
  { eexists _, _. cbn. by split_and!. }
  unfold bind.
  destruct (uploadLoop rt cfg (file :: files) [] st) as [[e|up] st1] eqn:E;
    apply uploadLoop_effect in E as (Hr & Hk & _ & Hup); eexists _, _;
    (split; [reflexivity|]); split_and!; try done.
  - right. eexists. split; [|done]. unfold orElse. destruct (message e); [|done].
    by vm_compute.
  - left. destruct (Hup up eq_refl) as (new & -> & Hnew). by exists new.
Qed.

Lemma analysis_result_downloadable_witness :
  exists run,
    getResult (lit "id-1")
      (snd (analyze (scriptedRuntime readingModel offline) keyedConfig
              (requestFor ["id-0"%string]) notesStore))
    = (200, RunJson run)
    /\ getResultCsv (lit "id-1")
         (snd (analyze (scriptedRuntime readingModel offline) keyedConfig
                 (requestFor ["id-0"%string]) notesStore))
       = (200,
          CsvFile (lit "text/csv")
            (lit "attachment; filename=option-b-" ++ lit "id-1" ++ lit ".csv")
            (buildResultCsv run))
    /\ runId run = lit "id-1"
    /\ result run = normalizeResult toLowerCaseLatin1 (JObject [])
    /\ documentIds run
       = List.map m_id
           (List.map maskDocument (lookupAll (documents notesStore) [lit "id-0"]))
    /\ documentNames run
       = List.map m_name
           (List.map maskDocument (lookupAll (documents notesStore) [lit "id-0"])).
Proof.
  apply (analysis_result_downloadable (scriptedRuntime readingModel offline) keyedConfig
           (requestFor ["id-0"%string]) notesStore).
  vm_compute. reflexivity.
Defined.

Lemma orElse_message (a b dflt : jsstring) :
  a <> [] -> orElse (a ++ b) dflt = a ++ b.
Proof. by destruct a. Qed.

(** X11: in an upload within the limits of the route (at most 10 files,
    each below the size limit), a file that is neither a text, a PDF nor a
    DOCX file, by its name and by its type, stops the upload: the endpoint
    answers 500 with the message that names the file, the files after it
    are not read, and the documents of the files before it stay in the
    store. *)
Theorem upload_stops_at_unsupported_file {W : Type} (rt : Runtime W) (cfg : Config)
    (maxFileSizeBytes : Z) (earlier : list File) (bad : File) (rest : list File)
    (st st1 : State W) (up : list MaskedDocument) :
  let name := toLowerCase rt (originalname bad) in
  let type := file_mimetype bad in
  withinUploadLimits maxFileSizeBytes (earlier ++ bad :: rest) = true ->
  endsWith (lit ".txt") name || includes (lit "text/plain") type = false ->
  endsWith (lit ".pdf") name || includes (lit "pdf") type = false ->
  endsWith (lit ".docx") name || includes (lit "wordprocessingml.document") type = false ->
  uploadLoop rt cfg earlier [] st = (inr up, st1) ->
  upload rt cfg (earlier ++ bad :: rest) st
  = (inr (mkResponse 500
            (ErrorBody (lit "Unsupported file type for " ++ originalname bad
                        ++ lit ". Use PDF, DOCX, or TXT."))),
     st1).
Proof.
  cbn zeta. intros _ Htxt Hpdf Hdocx Hearlier. unfold upload, tryCatch.
  destruct (earlier ++ bad :: rest) as [|f fs] eqn:Hfiles; [by destruct earlier|].
  rewrite <- Hfiles. unfold bind. rewrite uploadLoop_app, Hearlier.
  cbn [uploadLoop]. unfold bind at 1.
  unfold extractTextFromBuffer. rewrite Htxt, Hpdf, Hdocx.
  cbn [throw message ret]. rewrite orElse_message; [done|by vm_compute].
Qed.

Lemma upload_stops_at_unsupported_file_witness :
  upload (scriptedRuntime readingModel offline) keyedConfig
    ([notesFile] ++ spreadsheet :: [scannedPdf]) (mkState ∅ ∅ world0)
  = (inr (mkResponse 500
            (ErrorBody (lit "Unsupported file type for " ++ originalname spreadsheet
                        ++ lit ". Use PDF, DOCX, or TXT."))),
     notesStore).
Proof.
  apply (upload_stops_at_unsupported_file (scriptedRuntime readingModel offline)
           keyedConfig defaultMaxFileSizeBytes [notesFile] spreadsheet [scannedPdf]
           (mkState ∅ ∅ world0) notesStore
           (List.map maskDocument (lookupAll (documents notesStore) [lit "id-0"]))).
  - vm_compute. reflexivity.
  - vm_compute. reflexivity.
  - vm_compute. reflexivity.
  - vm_compute. reflexivity.
  - vm_compute. reflexivity.
Defined.

Lemma resolveIds_resolved (ds : gmap jsstring Document) (keys : list jsstring) :
  Forall (fun k => is_Some (ds !! k)) keys ->
  resolveIds ds (List.map JString keys) = keys.
Proof.
  induction 1 as [|k keys [d Hd] _ IH]; [done|].
  unfold resolveIds in *. csimpl. rewrite Hd. csimpl. by rewrite IH.
Qed.

(** X12: the identifiers of a request that name no stored document are
    ignored: when at least one identifier names a document, the analysis
    of a request is the analysis of the request that lists only the
    identifiers of stored documents, in the same order. *)
Theorem analyze_ignores_unknown_ids {W : Type} (rt : Runtime W) (cfg : Config)
    (reqBody reqBody' : option json) (ids : list json) (st : State W) :
  prop "documentIds" reqBody = Some (JArray ids) ->
  prop "documentIds" reqBody'
  = Some (JArray (List.map JString (resolveIds (documents st) ids))) ->
  resolveIds (documents st) ids <> [] ->
  analyze rt cfg reqBody st = analyze rt cfg reqBody' st.
Proof.
  intros Hids Hids' Hne. unfold analyze, tryCatch.
  assert (resolveIds (documents st) (List.map JString (resolveIds (documents st) ids))
          = resolveIds (documents st) ids) as Hsame
    by apply resolveIds_resolved, resolveIds_present.
  rewrite (analyzeBody_selected rt cfg reqBody ids st Hids Hne).
  rewrite (analyzeBody_selected rt cfg reqBody' _ st Hids') by by rewrite Hsame.
  cbn zeta. by rewrite Hsame.
Qed.

Lemma analyze_ignores_unknown_ids_witness :
  analyze (scriptedRuntime readingModel offline) keyedConfig
    (requestFor ["id-9"%string; "id-0"%string]) notesStore
  = analyze (scriptedRuntime readingModel offline) keyedConfig
      (requestFor ["id-0"%string]) notesStore.
Proof.
  apply (analyze_ignores_unknown_ids (scriptedRuntime readingModel offline) keyedConfig
           (requestFor ["id-9"%string; "id-0"%string]) (requestFor ["id-0"%string])
           [JString (lit "id-9"); JString (lit "id-0")] notesStore).
  - reflexivity.
  - vm_compute. reflexivity.
  - vm_compute. discriminate.
Defined.

Lemma storeOf_keyed (docs : list Document) : keyedDocuments (documents (storeOf docs)).
Proof.
  unfold storeOf. cbn [documents].
  induction docs as [|d docs IH]; cbn; [apply map_Forall_empty|].
  by apply map_Forall_insert_2.
Qed.

(** X13: on a store of documents filed under their identifiers, OCR
    recovery never fails and adds no run; it leaves every document in its
    place with its identifier, name, type, size, upload time, storage
    record and retained payload; and it changes a document only if it is
    a selected PDF with too little signal, whose text it replaces by a
    normalised text that is not empty, with its length as character
    count. *)
Theorem ocr_recovery_effect {W : Type} (rt : Runtime W) (cfg : Config)
    (selected : list jsstring) (st : State W) (key : jsstring) (doc : Document) :
  keyedDocuments (documents st) ->
  documents st !! key = Some doc ->
  exists st' doc',
    recoverWeakPdfDocuments rt cfg selected st = (inr tt, st')
    /\ analysisRuns st' = analysisRuns st
    /\ documents st' !! key = Some doc'
    /\ doc_id doc' = key
    /\ doc_name doc' = doc_name doc
    /\ doc_mimetype doc' = doc_mimetype doc
    /\ doc_size doc' = doc_size doc
    /\ uploadedAt doc' = uploadedAt doc
    /\ cloudinary doc' = cloudinary doc
    /\ sourceForAnalysis doc' = sourceForAnalysis doc
    /\ (doc' = doc
        \/ (In key selected
            /\ isWeakPdfDoc rt cfg doc = true
            /\ text doc' <> []
            /\ (exists ocr, text doc' = normalizeExtractedText ocr)
            /\ textChars doc' = length (text doc'))).
Proof.
  intros Hkeyed Hdoc.
  destruct (recoverWeakPdfDocuments_keyed rt cfg selected st Hkeyed)
    as (st' & E & Hruns & Hkeyed' & Hstore).
  specialize (Hstore key). rewrite Hdoc in Hstore.
  destruct Hstore as (doc' & Hdoc' & Hchange).
  exists st', doc'. split; [done|]. split; [done|]. split; [done|].
  split; [exact (Hkeyed' _ _ Hdoc')|].
  destruct Hchange as [->|(Hin & Hweak & ocr & Hne & ->)].
  - split_and!; auto.
  - cbn. split_and!; try done. right. split_and!; eauto.
Qed.

Lemma ocr_recovery_effect_witness :
  exists st' doc',
    recoverWeakPdfDocuments (scriptedRuntime readingModel offline) recoveringConfig
      [lit "c"; lit "b"] (storeOf [weakPdfWithBytes; transcript])
    = (inr tt, st')
    /\ analysisRuns st' = analysisRuns (storeOf [weakPdfWithBytes; transcript])
    /\ documents st' !! lit "c" = Some doc'
    /\ doc_id doc' = lit "c"
    /\ doc_name doc' = doc_name weakPdfWithBytes
    /\ doc_mimetype doc' = doc_mimetype weakPdfWithBytes
    /\ doc_size doc' = doc_size weakPdfWithBytes
    /\ uploadedAt doc' = uploadedAt weakPdfWithBytes
    /\ cloudinary doc' = cloudinary weakPdfWithBytes
    /\ sourceForAnalysis doc' = sourceForAnalysis weakPdfWithBytes
    /\ (doc' = weakPdfWithBytes
        \/ (In (lit "c") [lit "c"; lit "b"]
            /\ isWeakPdfDoc (scriptedRuntime readingModel offline) recoveringConfig
                 weakPdfWithBytes = true
            /\ text doc' <> []
            /\ (exists ocr, text doc' = normalizeExtractedText ocr)
            /\ textChars doc' = length (text doc'))).
Proof.
  apply (ocr_recovery_effect (scriptedRuntime readingModel offline) recoveringConfig
           [lit "c"; lit "b"] (storeOf [weakPdfWithBytes; transcript]) (lit "c")
           weakPdfWithBytes).
  - apply storeOf_keyed.
  - vm_compute. reflexivity.
Defined.

(** ** Text extraction *)

Lemma ocr_returns {W : Type} (rt : Runtime W) (cfg : Config) (buf : Buffer)
    (st : State W) :
  exists t st', extractTextFromPdfBufferWithGemini rt cfg buf st = (inr t, st').
Proof.
  unfold extractTextFromPdfBufferWithGemini.
  destruct (negb (hasApiKey cfg) || negb (nonEmpty buf)); [by eexists _, _|].
  unfold tryCatch, bind, call.
  destruct (generateContent rt (world st) _) as [w' [e|t]]; by eexists _, _.
Qed.

(** X14: the OCR fallback never fails and leaves the stores alone: it
    returns the text read by the model, and the empty text when the model
    call fails; without an API key or on an empty buffer it returns the
    empty text without calling the model. *)
Theorem ocr_fallback_never_fails {W : Type} (rt : Runtime W) (cfg : Config)
    (buf : Buffer) (st : State W) :
  exists t st',
    extractTextFromPdfBufferWithGemini rt cfg buf st = (inr t, st')
    /\ documents st' = documents st
    /\ analysisRuns st' = analysisRuns st
    /\ (hasApiKey cfg = false \/ buf = [] -> t = [] /\ st' = st)
    /\ (forall w' e,
          generateContent rt (world st)
            [TextPart ocrInstruction; InlineData (lit "application/pdf") buf]
          = (w', inl e) ->
          t = []).
Proof.
  unfold extractTextFromPdfBufferWithGemini.
  destruct (hasApiKey cfg) eqn:Hkey; cbn [negb orb].
  - destruct buf as [|b bs]; cbn [nonEmpty negb].
    + exists [], st. by split_and!.
    + unfold tryCatch, bind, call.
      destruct (generateContent rt (world st) _) as [w' [e|t]] eqn:Hgen; cbn.
      * eexists [], _. split_and!; try done. by intros [|].
      * eexists t, _. split_and!; try done. by intros [|].
  - exists [], st. by split_and!.
Qed.

(** X15: the extraction of a text file or of a PDF file never fails and
    leaves the stores alone.  A file that is a text file by its name or
    its type is decoded as UTF-8, whatever else its name or type says.  A
    PDF gives the text found by the PDF parser, or the empty text when the
    parser fails; only if that text is weak and OCR on upload is enabled
    is the OCR fallback run, and its text taken when it is not empty. *)
Theorem extraction_of_text_and_pdf_never_fails {W : Type} (rt : Runtime W)
    (cfg : Config) (file : File) (st : State W) :
  let name := toLowerCase rt (originalname file) in
  let type := file_mimetype file in
  let isText := endsWith (lit ".txt") name || includes (lit "text/plain") type in
  let isPdf := endsWith (lit ".pdf") name || includes (lit "pdf") type in
  let parsed := match pdfParse rt (buffer file) with inr t => t | inl _ => [] end in
  isText || isPdf = true ->
  exists t st',
    extractTextFromBuffer rt cfg file st = (inr t, st')
    /\ documents st' = documents st
    /\ analysisRuns st' = analysisRuns st
    /\ if isText then t = utf8Decode rt (buffer file) /\ st' = st
       else if isWeakText cfg parsed && enableOcrOnUpload cfg then
         exists ocr,
           extractTextFromPdfBufferWithGemini rt cfg (buffer file) st = (inr ocr, st')
           /\ t = match ocr with [] => parsed | _ :: _ => ocr end
       else t = parsed /\ st' = st.
Proof.
  cbn zeta. intros Hkind. unfold extractTextFromBuffer.
  destruct (endsWith (lit ".txt") _ || includes (lit "text/plain") _) eqn:Htxt.
  { exists (utf8Decode rt (buffer file)), st. by split_and!. }
  cbn [orb] in Hkind. rewrite Hkind.
  destruct (isWeakText cfg _ && enableOcrOnUpload cfg) eqn:Hocr.
  - unfold bind.
    destruct (ocr_returns rt cfg (buffer file) st) as (t & st' & E).
    pose proof (keeps_ocr rt cfg documents (@keeps_documents_call W) (buffer file) st)
      as Hd.
    pose proof (keeps_ocr rt cfg analysisRuns (@keeps_runs_call W) (buffer file) st)
      as Hr.
    rewrite E in Hd, Hr |- *. cbn in Hd, Hr.
    destruct t as [|c t]; eexists _, st'; (split; [reflexivity|]); split_and!; eauto.
  - eexists _, st. by split_and!.
Qed.

Lemma extraction_of_text_and_pdf_never_fails_witness :
  exists t st',
    extractTextFromBuffer (scriptedRuntime readingModel offline) recoveringConfig
      scannedPdf (mkState ∅ ∅ world0)
    = (inr t, st')
    /\ documents st' = ∅
    /\ analysisRuns st' = ∅
    /\ t = [] /\ st' = mkState ∅ ∅ world0.
Proof.
  exact (extraction_of_text_and_pdf_never_fails (scriptedRuntime readingModel offline)
           recoveringConfig scannedPdf (mkState ∅ ∅ world0) eq_refl).
Defined.

(** ** The requests sent to the model *)

Lemma generateStructuredJson_request (model : list Part -> jserror + jsstring)
    (net : jsstring -> jserror + FetchResponse) prompt parts st out st' :
  generateStructuredJson (scriptedRuntime model net) prompt parts st = (out, st') ->
  requests (world st') = requests (world st) ++ [TextPart prompt :: parts]
  /\ issued (world st') = issued (world st).
Proof.
  unfold generateStructuredJson, bind, call. cbn.
  destruct (model (TextPart prompt :: parts)) as [e|raw]; cbn; [by intros [= <- <-]|].
  destruct (parseJsonSafely _ raw); cbn; by intros [= <- <-].
Qed.

(** X16: an analysis sends the model at most two requests, and only one
    unless the retry on underfilled results is enabled.  The first request
    is the prompt built from the trimmed text, or from the placeholder when
    fewer than 10 code units are left, followed by the document parts; the
    second is the same with the reminder appended to the prompt.  Without
    an API key, or with too little text and no document part, no request is
    sent. *)
Theorem analysis_requests (model : list Part -> jserror + jsstring)
    (net : jsstring -> jserror + FetchResponse) (cfg : Config)
    (text : jsstring) (parts : list Part) (st : State World) :
  let st' := snd (runOptionBAnalysis (scriptedRuntime model net) cfg text parts st) in
  let cleaned := trim text in
  let hasText := 10 <=? length cleaned in
  let prompt :=
    buildPrompt (if hasText then cleaned else placeholderText)
      (negb hasText || (length cleaned <? 400))
      (match parts with [] => false | _ :: _ => true end) in
  let first := TextPart prompt :: parts in
  let second :=
    TextPart
      (prompt ++ [LF; LF]
       ++ lit "Important: Fill all sections with transcript-grounded facts and include citations when present.")
    :: parts in
  exists new,
    requests (world st') = requests (world st) ++ new
    /\ issued (world st') = issued (world st)
    /\ (new = [] \/ new = [first] \/ (retryUnderfilled cfg = true /\ new = [first; second]))
    /\ (hasApiKey cfg = false \/ hasText = false /\ parts = [] -> new = []).
Proof.
  cbn zeta.
  destruct (runOptionBAnalysis (scriptedRuntime model net) cfg text parts st)
    as [out st'] eqn:E.
  cbn [snd]. unfold runOptionBAnalysis in E.
  destruct (hasApiKey cfg) eqn:Hkey; cbn [negb] in E;
    [|injection E as <- <-; exists []; rewrite app_nil_r; split_and!; auto].
  destruct (negb (10 <=? length (trim text))
            && negb (match parts with [] => false | _ :: _ => true end)) eqn:Hguard.
  { injection E as <- <-. exists []. rewrite app_nil_r. split_and!; auto. }
  assert (~ ((10 <=? length (trim text)) = false /\ parts = [])) as Hsent.
  { intros [Ht ->]. rewrite Ht in Hguard. discriminate Hguard. }
  unfold bind at 1 in E.
  match type of E with
  | context [generateStructuredJson ?rt ?p parts st] =>
      destruct (generateStructuredJson rt p parts st) as [[e|parsed] st1] eqn:E1;
      apply generateStructuredJson_request in E1 as [Hreq Hiss]
  end.
  { injection E as <- <-. eexists [_]. split_and!; [exact Hreq|done|auto|].
    intros [|]; done. }
  destruct (retryUnderfilled cfg && isLikelyUnderfilled _) eqn:Hretry.
  - apply andb_true_iff in Hretry as [Hretry _]. unfold bind at 1 in E.
    match type of E with
    | context [generateStructuredJson ?rt ?p parts st1] =>
        destruct (generateStructuredJson rt p parts st1) as [[e|parsed2] st2] eqn:E2;
        apply generateStructuredJson_request in E2 as [Hreq2 Hiss2]
    end.
    all: injection E as <- <-; eexists [_; _]; rewrite Hreq2, Hreq, <- app_assoc.
    all: split_and!; [done|congruence|auto|intros [|]; done].
  - injection E as <- <-. eexists [_]. split_and!; [exact Hreq|done|auto|].
    intros [|]; done.
Qed.

(** ** From upload to multimodal analysis *)

(** X17: a file uploaded with a PDF type whose normalised text is below
    the analysis threshold keeps its bytes in the document, and a later
    multimodal analysis attaches these bytes, labelled with the name of
    the file, without fetching anything: the state, and so the outside
    world, is left as it is. *)
Theorem retained_pdf_is_attached {W : Type} (rt : Runtime W) (cfg : Config)
    (file : File) (txt : jsstring) (cloud : Cloudinary) (id now : jsstring)
    (st : State W) :
  includes (lit "pdf") (file_mimetype file) = true ->
  belowAnalysisSignal cfg txt = true ->
  buffer file <> [] ->
  (Z.of_nat (length (buffer file)) <= maxMultimodalBytes cfg)%Z ->
  (1 <= maxMultimodalDocs cfg)%Z ->
  buildDocumentParts rt cfg [newDocument cfg file txt cloud id now] st
  = (inr [TextPart (lit "Source Document: " ++ originalname file);
          InlineData (lit "application/pdf") (buffer file)],
     st).
Proof.
  intros Hpdf Hweak Hbuf Hsize Hmax. unfold buildDocumentParts.
  assert (isPdfDoc rt (newDocument cfg file txt cloud id now) = true) as Hdoc.
  { unfold isPdfDoc. cbn [doc_mimetype newDocument]. by rewrite Hpdf, orb_true_r. }
  cbn [List.filter]. rewrite Hdoc. rewrite slice0_nonneg by lia.
  replace (Z.to_nat (maxMultimodalDocs cfg)) with (S (Z.to_nat (maxMultimodalDocs cfg - 1)))
    by lia.
  cbn [take buildDocumentPartsLoop]. unfold bind, tryCatch, getDocumentBuffer.
  cbn [sourceForAnalysis newDocument]. rewrite Hpdf, Hweak. cbn [andb].
  destruct (buffer file) as [|b bs] eqn:Hb; [done|]. cbn [ret].
  replace (maxMultimodalBytes cfg <? Z.of_nat (length (b :: bs)))%Z with false
    by (symmetry; apply Z.ltb_ge; lia).
  by rewrite take_nil.
Qed.

Lemma retained_pdf_is_attached_witness :
  buildDocumentParts (scriptedRuntime silentModel offline) keyedConfig
    [newDocument keyedConfig scannedPdf [] (mkCloudinary [] [] []) (lit "id-0") []]
    (mkState ∅ ∅ world0)
  = (inr [TextPart (lit "Source Document: " ++ originalname scannedPdf);
          InlineData (lit "application/pdf") (buffer scannedPdf)],
     mkState ∅ ∅ world0).
Proof.
  apply (retained_pdf_is_attached (scriptedRuntime silentModel offline) keyedConfig
           scannedPdf [] (mkCloudinary [] [] []) (lit "id-0") [] (mkState ∅ ∅ world0)).
  - reflexivity.
  - reflexivity.
  - discriminate.
  - vm_compute. discriminate.
  - vm_compute. discriminate.
Defined.

(** ** The storage service *)

Lemma isDigit_publicIdUnit c : isDigit c = true -> isPublicIdUnit c = true.
Proof. unfold isPublicIdUnit. intros ->. by rewrite orb_true_r. Qed.

Lemma string_of_uint_digits (d : Decimal.uint) :
  forallb isDigit (lit (NilEmpty.string_of_uint d)) = true.
Proof. induction d; cbn; done. Qed.

Lemma decimal_digits (n : N) : forallb isDigit (decimal n) = true.
Proof. apply string_of_uint_digits. Qed.

Lemma forallb_app_list {A} (f : A -> bool) (l1 l2 : list A) :
  forallb f (l1 ++ l2) = forallb f l1 && forallb f l2.
Proof. apply forallb_app. Qed.

Lemma forallb_weaken {A} (f g : A -> bool) (l : list A) :
  (forall x, f x = true -> g x = true) -> forallb f l = true -> forallb g l = true.
Proof.
  intros H. induction l as [|x l IH]; [done|]. cbn. intros Hl.
  apply andb_true_iff in Hl as [Hx Hl]. by rewrite (H x Hx), IH.
Qed.

Lemma sanitize_map (toLowerCase : jsstring -> jsstring) (value : jsstring) :
  CloudinaryService.sanitize toLowerCase value
  = List.map (fun c => if isPublicIdUnit c then c else 45%N) (toLowerCase value).
Proof.
  unfold CloudinaryService.sanitize, re_unsafe. rewrite replace_all_Class.
  induction (toLowerCase value) as [|c t IH]; [done|].
  cbn [flat_map List.map]. rewrite IH. by destruct (isPublicIdUnit c).
Qed.

(** X18: the public identifier under which a file is stored is the
    time in decimal digits, a dash and the sanitised name: the lower-cased
    name in which every code unit other than [a-z], [0-9], [-] and [_] is
    replaced by a dash.  So it has the length of the lower-cased name plus
    that of the time and the dash, and it is made of these code units
    only. *)
Theorem public_id_is_safe (toLowerCase : jsstring -> jsstring) (env : StorageEnv)
    (now : N) (filename : jsstring) :
  let opts := CloudinaryService.uploadOptions toLowerCase env now filename in
  public_id opts
  = decimal now ++ lit "-"
    ++ List.map (fun c => if isPublicIdUnit c then c else 45%N) (toLowerCase filename)
  /\ forallb isPublicIdUnit (public_id opts) = true
  /\ length (CloudinaryService.sanitize toLowerCase filename)
     = length (toLowerCase filename).
Proof.
  cbn zeta. cbn [public_id CloudinaryService.uploadOptions]. rewrite sanitize_map.
  split_and!; [done| |by rewrite length_map].
  rewrite !forallb_app_list.
  rewrite (forallb_weaken _ _ _ isDigit_publicIdUnit (decimal_digits now)).
  cbn [andb]. change (forallb isPublicIdUnit (lit "-")) with true. cbn [andb].
  induction (toLowerCase filename) as [|c t IH]; [done|].
  cbn [List.map forallb]. rewrite IH, andb_true_r.
  by destruct (isPublicIdUnit c) eqn:E.
Qed.

Lemma splitOn_no_separator sep s : forall acc,
  existsb (fun c => (c =? sep)%N) s = false -> splitOn sep acc s = [acc ++ s].
Proof.
  induction s as [|c t IH]; intros acc H; cbn [splitOn]; [by rewrite app_nil_r|].
  cbn [existsb] in H. apply orb_false_iff in H as [Hc Ht].
  rewrite Hc, IH by done. by rewrite <- app_assoc.
Qed.

Lemma splitOn_last_piece sep ext base : forall acc,
  existsb (fun c => (c =? sep)%N) ext = false ->
  last (splitOn sep acc (base ++ sep :: ext)) = Some ext
  /\ 1 < length (splitOn sep acc (base ++ sep :: ext)).
Proof.
  intros acc Hext. revert acc.
  induction base as [|c t IH]; intros acc; cbn [app splitOn].
  - rewrite N.eqb_refl, (splitOn_no_separator _ _ [] Hext). cbn. split; [done|lia].
  - destruct (c =? sep)%N; [|apply IH].
    destruct (IH []) as [Hlast Hlen]. split; [|cbn [length]; lia].
    destruct (splitOn sep [] (t ++ sep :: ext)) as [|x l]; [cbn in Hlen; lia|].
    exact Hlast.
Qed.

(** X19: the extension of a file name is the lower-cased text after its
    last dot, which is the empty text for a name that ends with a dot, and
    a name without a dot has no extension. *)
Theorem getExtensionFromName_last_dot (toLowerCase : jsstring -> jsstring) :
  (forall name,
     existsb (fun c => (c =? 46)%N) name = false ->
     CloudinaryService.getExtensionFromName toLowerCase name = None)
  /\ (forall base ext,
        existsb (fun c => (c =? 46)%N) ext = false ->
        CloudinaryService.getExtensionFromName toLowerCase (base ++ lit "." ++ ext)
        = Some (toLowerCase ext)).
Proof.
  split.
  - intros name H. unfold CloudinaryService.getExtensionFromName.
    by rewrite (splitOn_no_separator _ _ [] H).
  - intros base ext H. unfold CloudinaryService.getExtensionFromName.
    change (lit "." ++ ext) with (46%N :: ext).
    destruct (splitOn_last_piece 46 ext base [] H) as [-> Hlen].
    by rewrite (proj2 (Nat.ltb_lt _ _) Hlen).
Qed.

(** X20: when one of the three storage credentials is missing, an
    upload within the limits of the route (at most 10 files, each below
    the size limit) whose first file can be read stores nothing: it
    answers 500 with the message about the credentials, reads no further
    file and leaves the documents and the runs as they were, without
    asking the time or the storage. *)
Theorem upload_without_credentials {W : Type} (rt : Runtime W) (cfg : Config)
    (env : StorageEnv) (dateNow : W -> W * N)
    (upload_stream : W -> UploadOptions -> Buffer -> W * (jserror + Cloudinary))
    (maxFileSizeBytes : Z) (file : File) (rest : list File) (st st1 : State W)
    (extracted : jsstring) :
  let service := withStorageService rt env dateNow upload_stream in
  withinUploadLimits maxFileSizeBytes (file :: rest) = true ->
  isSet (CLOUDINARY_CLOUD_NAME env) && isSet (CLOUDINARY_API_KEY env)
  && isSet (CLOUDINARY_API_SECRET env) = false ->
  extractTextFromBuffer service cfg file st = (inr extracted, st1) ->
  upload service cfg (file :: rest) st
  = (inr (mkResponse 500
            (ErrorBody
               (lit "Cloudinary credentials are missing in environment variables"))),
     st1)
  /\ documents st1 = documents st
  /\ analysisRuns st1 = analysisRuns st.
Proof.
  cbn zeta. intros _ Hcred Hext. split.
  - unfold upload, tryCatch, bind. cbn [uploadLoop]. unfold bind at 1.
    rewrite Hext. unfold bind at 1, call at 1.
    cbn [uploadBufferToCloudinary withStorageService].
    unfold CloudinaryService.uploadBufferToCloudinary.
    replace (negb (isSet (CLOUDINARY_CLOUD_NAME env))
             || negb (isSet (CLOUDINARY_API_KEY env))
             || negb (isSet (CLOUDINARY_API_SECRET env))) with true
      by (destruct (isSet (CLOUDINARY_CLOUD_NAME env)),
                   (isSet (CLOUDINARY_API_KEY env)),
                   (isSet (CLOUDINARY_API_SECRET env)); done).
    cbn. by destruct st1.
  - pose proof (keeps_extractTextFromBuffer (withStorageService rt env dateNow upload_stream)
                  cfg documents (@keeps_documents_call W) file st) as Hd.
    pose proof (keeps_extractTextFromBuffer (withStorageService rt env dateNow upload_stream)
                  cfg analysisRuns (@keeps_runs_call W) file st) as Hr.
    rewrite Hext in Hd, Hr. done.
Qed.

Lemma upload_without_credentials_witness :
  upload (withStorageService (scriptedRuntime readingModel offline) noCredentials
            fixedClock failingStream)
    keyedConfig (notesFile :: [scannedPdf]) (mkState ∅ ∅ world0)
  = (inr (mkResponse 500
            (ErrorBody
               (lit "Cloudinary credentials are missing in environment variables"))),
     mkState ∅ ∅ world0)
  /\ documents (mkState (W:=World) ∅ ∅ world0) = ∅
  /\ analysisRuns (mkState (W:=World) ∅ ∅ world0) = ∅.
Proof.
  apply (upload_without_credentials (scriptedRuntime readingModel offline) keyedConfig
           noCredentials fixedClock failingStream defaultMaxFileSizeBytes notesFile
           [scannedPdf] (mkState ∅ ∅ world0) (mkState ∅ ∅ world0) (buffer notesFile)).
  - vm_compute. reflexivity.
  - reflexivity.
  - vm_compute. reflexivity.
Defined.

(** ** The selection of documents in the frontend *)

Lemma str_eqb_true a b : str_eqb a b = true <-> a = b.
Proof. unfold str_eqb. apply bool_decide_eq_true. Qed.

Lemma str_eqb_false a b : str_eqb a b = false <-> a <> b.
Proof. unfold str_eqb. apply bool_decide_eq_false. Qed.

Lemma existsb_str_eqb x (l : list jsstring) : existsb (str_eqb x) l = true <-> In x l.
Proof.
  rewrite existsb_exists. split.
  - intros (y & Hy & E). by apply str_eqb_true in E as ->.
  - intros H. exists x. split; [done|]. by apply str_eqb_true.
Qed.

Lemma existsb_str_eqb_false x (l : list jsstring) :
  existsb (str_eqb x) l = false <-> ~ In x l.
Proof.
  rewrite <- existsb_str_eqb. by destruct (existsb (str_eqb x) l).
Qed.

Lemma NoDup_List_filter {A} (f : A -> bool) (l : list A) :
  NoDup l -> NoDup (List.filter f l).
Proof.
  induction 1 as [|x l Hx Hnd IH]; cbn; [constructor|].
  destruct (f x); [|done]. constructor; [|done].
  intros H. apply Hx. apply list_elem_of_In in H. apply filter_In in H as [H _].
  by apply list_elem_of_In.
Qed.

(** X21: toggling a document in the selection removes its identifier
    when it is selected and appends it when it is not; the other
    identifiers stay selected or not as they were, in their order; a
    selection without repetition stays without repetition, and toggling
    the same document twice gives back the same set of identifiers. *)
Theorem toggleDocument_flips (id : jsstring) (prev : list jsstring) :
  (forall v, In v (toggleDocument id prev)
             <-> (v <> id /\ In v prev) \/ (v = id /\ ~ In id prev))
  /\ List.filter (fun v => negb (str_eqb v id)) (toggleDocument id prev)
     = List.filter (fun v => negb (str_eqb v id)) prev
  /\ (NoDup prev -> NoDup (toggleDocument id prev))
  /\ (NoDup prev -> toggleDocument id (toggleDocument id prev) ≡ₚ prev).
Proof.
  assert (forall l, ~ In id l -> List.filter (fun v => negb (str_eqb v id)) l = l)
    as Hkeep.
  { intros l Hl. induction l as [|x l IH]; [done|]. cbn [List.filter].
    assert (str_eqb x id = false) as -> by (apply str_eqb_false; intros ->; apply Hl; by left).
    cbn [negb]. f_equal. apply IH. intros H. apply Hl. by right. }
  assert (~ In id (List.filter (fun v => negb (str_eqb v id)) prev)) as Hgone.
  { intros H. apply filter_In in H as [_ H]. apply negb_true_iff, str_eqb_false in H.
    done. }
  destruct (existsb (str_eqb id) prev) eqn:E; unfold toggleDocument; rewrite !E.
  - apply existsb_str_eqb in E. split_and!.
    + intros v. rewrite filter_In, negb_true_iff, str_eqb_false. tauto.
    + by rewrite Hkeep.
    + intros Hnd. by apply NoDup_List_filter.
    + intros Hnd. apply existsb_str_eqb_false in Hgone. rewrite Hgone.
      clear Hgone Hkeep. induction Hnd as [|x l Hx Hnd IH]; [done|].
      cbn [List.filter]. destruct (str_eqb x id) eqn:Ex; cbn [negb].
      * apply str_eqb_true in Ex as ->.
        assert (List.filter (fun v => negb (str_eqb v id)) l = l) as ->.
        { clear -Hx. induction l as [|y l IH]; [done|]. cbn [List.filter].
          assert (str_eqb y id = false) as ->
            by (apply str_eqb_false; intros ->; apply Hx; by left).
          cbn [negb]. f_equal. apply IH. intros H. apply Hx. by right. }
        symmetry. apply Permutation_cons_append.
      * cbn [app]. constructor. apply IH. destruct E as [->|E]; [|done].
        apply str_eqb_false in Ex. done.
  - apply existsb_str_eqb_false in E. split_and!.
    + intros v. rewrite in_app_iff. cbn [In]. split.
      * intros [H|[<-|[]]]; [left|right]; split; try done. by intros ->.
      * intros [[_ H]|[-> _]]; auto.
    + rewrite List.filter_app. cbn [List.filter].
      assert (str_eqb id id = true) as -> by by apply str_eqb_true.
      cbn [negb]. by rewrite app_nil_r.
    + intros Hnd. apply NoDup_app. split_and!; [done| |apply NoDup_singleton].
      intros x Hx Hx'. apply list_elem_of_In in Hx, Hx'. destruct Hx' as [<-|[]]. done.
    + intros Hnd.
      assert (existsb (str_eqb id) (prev ++ [id]) = true) as ->.
      { apply existsb_str_eqb, in_app_iff. right. by left. }
      rewrite List.filter_app, (Hkeep _ E). cbn [List.filter].
      assert (str_eqb id id = true) as -> by by apply str_eqb_true.
      cbn [negb]. by rewrite app_nil_r.
Qed.

Lemma setAdd_spec s x :
  (forall v, In v (setAdd s x) <-> In v s \/ v = x)
  /\ (NoDup s -> NoDup (setAdd s x))
  /\ exists new, setAdd s x = s ++ new.
Proof.
  unfold setAdd. destruct (existsb (str_eqb x) s) eqn:E.
  - apply existsb_str_eqb in E. split_and!.
    + intros v. split; [auto|]. by intros [H| ->].
    + done.
    + exists []. by rewrite app_nil_r.
  - apply existsb_str_eqb_false in E. split_and!.
    + intros v. rewrite in_app_iff. cbn. split; [|intros [|]; auto].
      intros [|[|[]]]; auto.
    + intros Hnd. apply NoDup_app. split_and!; [done| |apply NoDup_singleton].
      intros y Hy Hy'. apply list_elem_of_In in Hy, Hy'. destruct Hy' as [<-|[]]. done.
    + by exists [x].
Qed.

Lemma fold_setAdd_spec xs : forall s,
  (forall v, In v (fold_left setAdd xs s) <-> In v s \/ In v xs)
  /\ (NoDup s -> NoDup (fold_left setAdd xs s))
  /\ exists new, fold_left setAdd xs s = s ++ new.
Proof.
  induction xs as [|x xs IH]; intros s; cbn [fold_left].
  - split_and!; [intros v; cbn; tauto|done|exists []; by rewrite app_nil_r].
  - destruct (IH (setAdd s x)) as (Hin & Hnd & new & Hnew).
    destruct (setAdd_spec s x) as (Hin1 & Hnd1 & new1 & Hnew1). split_and!.
    + intros v. rewrite Hin, Hin1. cbn [In]. intuition.
    + auto.
    + exists (new1 ++ new). by rewrite Hnew, Hnew1, <- app_assoc.
Qed.

Lemma newSet_fixed s : NoDup s -> forall acc,
  (forall x, In x s -> ~ In x acc) -> fold_left setAdd s acc = acc ++ s.
Proof.
  induction 1 as [|x s Hx Hnd IH]; intros acc Hacc; cbn [fold_left];
    [by rewrite app_nil_r|].
  unfold setAdd at 2.
  assert (existsb (str_eqb x) acc = false) as ->.
  { apply existsb_str_eqb_false, Hacc. by left. }
  rewrite IH; [by rewrite <- app_assoc|].
  intros y Hy. rewrite in_app_iff. intros [H|[<-|[]]].
  - apply (Hacc y); [by right|done].
  - apply Hx. by apply list_elem_of_In.
Qed.

(** X22: after an upload the selection holds every identifier that was
    selected and every identifier of the uploaded documents, and no other;
    it has no repetition; and when the earlier selection had none it is
    that selection followed by the new identifiers. *)
Theorem selectUploaded_adds (docs : list MaskedDocument) (prev : list jsstring) :
  (forall v, In v (selectUploaded docs prev) <-> In v prev \/ In v (List.map m_id docs))
  /\ NoDup (selectUploaded docs prev)
  /\ (NoDup prev -> exists new, selectUploaded docs prev = prev ++ new).
Proof.
  unfold selectUploaded, newSet.
  destruct (fold_setAdd_spec (prev ++ List.map m_id docs) []) as (Hin & Hnd & _).
  split_and!.
  - intros v. rewrite Hin, in_app_iff. cbn. tauto.
  - apply Hnd. constructor.
  - intros Hprev. rewrite fold_left_app.
    rewrite (newSet_fixed prev Hprev []) by (intros x _ []).
    cbn [app]. destruct (fold_setAdd_spec (List.map m_id docs) prev) as (_ & _ & Hnew).
    exact Hnew.
Qed.

Lemma analysisRequest_ids (selectedIds : list jsstring) :
  prop "documentIds" (analysisRequest selectedIds)
  = Some (JArray (List.map JString selectedIds)).
Proof. by vm_compute. Qed.

(** X24: the frontend asks for an analysis only when a document is
    selected and nothing is in progress, and the server never answers such
    a request with the 400 of a request without identifiers: it looks the
    selected identifiers up, and answers 404, changing nothing, exactly
    when none of them names a stored document. *)
Theorem frontend_request_is_accepted {W : Type} (rt : Runtime W) (cfg : Config)
    (selectedIds : list jsstring) (isUploading isAnalyzing : bool) (st : State W) :
  canAnalyze selectedIds isUploading isAnalyzing = true ->
  exists resp st',
    analyze rt cfg (analysisRequest selectedIds) st = (inr resp, st')
    /\ resp <> mkResponse 400 (ErrorBody (lit "documentIds must be a non-empty array"))
    /\ (resp = mkResponse 404 (ErrorBody (lit "No matching documents found")) /\ st' = st
        <-> Forall (fun id => documents st !! id = None) selectedIds).
Proof.
  unfold canAnalyze. intros Hcan.
  apply andb_true_iff in Hcan as [Hcan _]. apply andb_true_iff in Hcan as [Hsel _].
  apply Nat.ltb_lt in Hsel.
  destruct selectedIds as [|i ids]; [cbn in Hsel; lia|].
  assert (resolveIds (documents st) (List.map JString (i :: ids)) = []
          <-> Forall (fun id => documents st !! id = None) (i :: ids)) as Hnone.
  { generalize (i :: ids). intros l. unfold resolveIds.
    induction l as [|k l IH]; csimpl; [split; [constructor|done]|].
    destruct (documents st !! k) as [d|] eqn:Hk; csimpl.
    - split; [done|]. intros H. inversion H; congruence.
    - rewrite IH. split; [by constructor|]. intros H. by inversion H. }
  unfold analyze, tryCatch.
  destruct (resolveIds (documents st) (List.map JString (i :: ids))) as [|k ks] eqn:Hkeys.
  { unfold analyzeBody. rewrite analysisRequest_ids. cbn [List.map].
    unfold bind at 1. cbn [getState]. cbn [List.map] in Hkeys. rewrite Hkeys.
    eexists _, _. split; [reflexivity|]. split; [done|]. split; [|done].
    intros _. by apply Hnone. }
  assert (~ Forall (fun id => documents st !! id = None) (i :: ids)) as Hsome.
  { intros H. by apply Hnone in H. }
  destruct (analyzeBody rt cfg (analysisRequest (i :: ids)) st) as [out st'] eqn:E.
  pose proof E as E'.
  apply analyzeBody_effect in E' as (st1 & _ & _ & _ & Hout).
  destruct out as [e|resp].
  - eexists _, _. split; [reflexivity|].
    destruct (analyzeCatch_status rt e) as [Hs|Hs]; split.
    + intros H. rewrite H in Hs. discriminate Hs.
    + split; [|done]. intros [H _]. rewrite H in Hs. discriminate Hs.
    + intros H. rewrite H in Hs. discriminate Hs.
    + split; [|done]. intros [H _]. rewrite H in Hs. discriminate Hs.
  - exists resp, st'. split; [done|].
    rewrite (analyzeBody_selected rt cfg _ _ st (analysisRequest_ids (i :: ids))) in E
      by by rewrite Hkeys.
    rewrite Hkeys in E. cbn zeta in E. unfold bind at 1 in E.
    match type of E with
    | context [(if ?b then ?m else ret []) ?s] =>
        destruct ((if b then m else ret []) s) as [[e|parts] st2]; [done|];
        destruct b, parts
    end.
    all: try (apply finishAnalysis_effect in E as [_ (rid & now & v & -> & _)];
              split; [done|]; split; [|done]; by intros [? _]).
    injection E as <- <-. split; [done|]. split; [|done]. by intros [? _].
Qed.

Lemma frontend_request_is_accepted_witness :
  exists resp st',
    analyze (scriptedRuntime readingModel offline) keyedConfig
      (analysisRequest [lit "id-0"]) notesStore
    = (inr resp, st')
    /\ resp <> mkResponse 400 (ErrorBody (lit "documentIds must be a non-empty array"))
    /\ (resp = mkResponse 404 (ErrorBody (lit "No matching documents found"))
        /\ st' = notesStore
        <-> Forall (fun id => documents notesStore !! id = None) [lit "id-0"]).
Proof.
  apply (frontend_request_is_accepted (scriptedRuntime readingModel offline) keyedConfig
           [lit "id-0"] false false notesStore).
  reflexivity.
Defined.

(** ** The word count of a document *)

Lemma split_from_pieces s : forall i,
  (forall p acc, p <= i -> split_from re_ws_run i p 0 acc s = pieces false acc s)
  /\ split_from re_ws_run i (i + runLength isWhiteSpace s)
       (runLength isWhiteSpace s) [] s
     = pieces true [] s.
Proof.
  induction s as [|c t IH]; intros i; [done|].
  cbn [runLength pieces]. destruct (isWhiteSpace c) eqn:Hc.
  - destruct (IH (S i)) as [_ IH2].
    replace (S i + runLength isWhiteSpace t) with (i + S (runLength isWhiteSpace t))
      in IH2 by lia.
    split.
    + intros p acc Hp. cbn [split_from]. rewrite match_at_ws_run, Hc. cbn [m_end].
      replace (S i + runLength isWhiteSpace t =? p) with false
        by (symmetry; apply Nat.eqb_neq; lia).
      replace (S i + runLength isWhiteSpace t =? i) with false
        by (symmetry; apply Nat.eqb_neq; lia).
      replace (S i + runLength isWhiteSpace t - i - 1) with (runLength isWhiteSpace t)
        by lia.
      replace (S i + runLength isWhiteSpace t) with (i + S (runLength isWhiteSpace t))
        by lia.
      by rewrite IH2.
    + cbn [split_from]. exact IH2.
  - assert (forall p acc, p <= i ->
              split_from re_ws_run i p 0 acc (c :: t) = pieces false (acc ++ [c]) t) as H.
    { intros p acc Hp. cbn [split_from]. rewrite match_at_ws_run, Hc.
      apply IH. lia. }
    split; [exact H|]. apply H. lia.
Qed.

Lemma split_pieces s : s <> [] -> split re_ws_run s = pieces false [] s.
Proof.
  destruct s as [|c t]; [done|]. intros _. unfold split.
  by apply (split_from_pieces (c :: t) 0).
Qed.

Lemma pieces_words s : forall acc,
  length (List.filter nonEmpty (pieces false acc s))
  = (if nonEmpty acc then 1 else 0) + wordsFrom (nonEmpty acc) s
  /\ length (List.filter nonEmpty (pieces true [] s)) = wordsFrom false s.
Proof.
  induction s as [|c t IH]; intros acc.
  - cbn. destruct (nonEmpty acc); cbn; split; lia.
  - cbn [pieces wordsFrom]. destruct (isWhiteSpace c) eqn:Hc.
    + destruct (IH []) as [_ IH2]. split; [|exact IH2].
      cbn [List.filter]. destruct (nonEmpty acc); cbn [length]; lia.
    + assert (nonEmpty (acc ++ [c]) = true) as Hne by by destruct acc.
      destruct (IH (acc ++ [c])) as [IH1 _]. rewrite Hne in IH1.
      split.
      * rewrite IH1. destruct (nonEmpty acc); lia.
      * destruct (IH ([] ++ [c])) as [IH3 _]. cbn [app nonEmpty] in IH3. exact IH3.
Qed.

Lemma pieces_all_words s : forall acc,
  (s = [] \/ exists u c, s = u ++ [c] /\ isWhiteSpace c = false) ->
  (nonEmpty acc = true ->
   Forall (fun x => nonEmpty x = true) (pieces false acc s))
  /\ (s <> [] -> Forall (fun x => nonEmpty x = true) (pieces true [] s)).
Proof.
  induction s as [|c t IH]; intros acc Hend.
  - split; [|done]. intros H. by repeat constructor.
  - assert (t = [] \/ exists u c', t = u ++ [c'] /\ isWhiteSpace c' = false) as Hend'.
    { destruct Hend as [|(u & c' & E & Hc')]; [done|].
      destruct u as [|x u]; [left; by injection E|right].
      injection E as _ ->. eauto. }
    assert (isWhiteSpace c = true -> t <> []) as Hne.
    { intros Hc ->. destruct Hend as [|(u & c' & E & Hc')]; [done|].
      destruct u as [|x [|]]; [|done..]. injection E as <-. congruence. }
    cbn [pieces]. destruct (isWhiteSpace c) eqn:Hc.
    + destruct (IH [] Hend') as [_ IH2]. split.
      * intros H. constructor; [done|]. by apply IH2, Hne.
      * intros _. by apply IH2, Hne.
    + split; intros _; apply (IH _ Hend'); by destruct acc.
Qed.

Lemma filter_all {A} (f : A -> bool) (l : list A) :
  Forall (fun x => f x = true) l -> List.filter f l = l.
Proof. induction 1 as [|x l Hx _ IH]; [done|]. cbn. by rewrite Hx, IH. Qed.

Lemma trim_last s :
  trim s = s -> s = [] \/ exists u c, s = u ++ [c] /\ isWhiteSpace c = false.
Proof.
  intros H. destruct (rev s) as [|c u] eqn:E.
  - left. apply (f_equal (@rev N)) in E. by rewrite rev_involutive in E.
  - right. exists (rev u), c.
    assert (s = rev u ++ [c]) as Hs.
    { apply (f_equal (@rev N)) in E. by rewrite rev_involutive in E. }
    split; [done|].
    destruct (isWhiteSpace c) eqn:Hc; [|done]. exfalso.
    assert (trimEnd s = s) as Hend.
    { rewrite <- H at 1. unfold trim. by rewrite trimEnd_idempotent. }
    unfold trimEnd in Hend. rewrite E in Hend. cbn [trimStart] in Hend.
    rewrite Hc in Hend. apply (f_equal length) in Hend.
    rewrite length_rev, Hs, length_app, length_rev in Hend. cbn in Hend.
    pose proof (trimStart_drop u) as Hd. rewrite Hd, length_drop in Hend. lia.
Qed.

(** The two ways in which the server counts the words of a text. *)
Lemma words_of_recovered s :
  length (List.filter nonEmpty (split re_ws_run s)) = wordCount s.
Proof.
  destruct s as [|c t]; [done|]. rewrite split_pieces by done.
  destruct (pieces_words (c :: t) []) as [H _]. exact H.
Qed.

Lemma words_of_uploaded s :
  trim s = s ->
  match s with [] => 0 | _ :: _ => length (split re_ws_run s) end = wordCount s.
Proof.
  intros Htrim. destruct s as [|c t] eqn:Hs; [done|]. rewrite <- Hs in *.
  rewrite <- words_of_recovered. rewrite split_pieces by (by rewrite Hs).
  rewrite filter_all; [done|].
  assert (isWhiteSpace c = false) as Hc.
  { apply (trim_head s c t). by rewrite Htrim. }
  rewrite Hs. cbn [pieces]. rewrite Hc.
  apply (pieces_all_words t [c]); [|done].
  destruct (trim_last s Htrim) as [E|(u & c' & E & Hc')]; [congruence|].
  rewrite Hs in E. destruct u as [|x u]; [left; by injection E|right].
  injection E as _ ->. eauto.
Qed.

Section DocumentInvariant.
Context {W : Type}.
Variable rt : Runtime W.
Variable cfg : Config.
Variable P : Document -> Prop.
Hypothesis P_new : forall file extracted cloud id now,
  P (newDocument cfg file (normalizeExtractedText extracted) cloud id now).
Hypothesis P_recovered : forall doc ocr,
  P doc -> normalizeExtractedText ocr <> [] ->
  P (withRecoveredText doc (normalizeExtractedText ocr)).

Lemma uploadLoop_documents files : forall uploaded st,
  map_Forall (fun _ => P) (documents st) ->
  map_Forall (fun _ => P) (documents (snd (uploadLoop rt cfg files uploaded st))).
Proof.
  induction files as [|file files IH]; intros uploaded st Hinv; simpl; [done|].
  unfold bind at 1.
  pose proof (keeps_extractTextFromBuffer rt cfg documents (@keeps_documents_call W) file st) as Hd1.
  destruct (extractTextFromBuffer rt cfg file st) as [[e|extracted] st1];
    simpl in Hd1; [cbn; by rewrite Hd1|].
  unfold bind at 1, call at 1.
  destruct (uploadBufferToCloudinary rt (world st1) file) as [w2 [e|cloud]]; cbn;
    [by rewrite Hd1|].
  unfold bind at 1, call at 1. cbn.
  destruct (randomUUID rt w2) as [w3 id].
  unfold bind at 1, call at 1. cbn.
  destruct (nowISO rt w3) as [w4 now].
  apply IH. cbn. apply map_Forall_insert_2; [apply P_new|].
  by rewrite Hd1.
Qed.

Lemma serve_documents req st :
  keyedDocuments (documents st) -> map_Forall (fun _ => P) (documents st) ->
  map_Forall (fun _ => P) (documents (snd (serve rt cfg req st))).
Proof.
  intros Hkeyed Hinv. destruct req as [files|reqBody]; cbn [serve].
  - unfold upload, tryCatch. destruct files as [|file files]; [done|].
    unfold bind.
    pose proof (uploadLoop_documents (file :: files) [] st Hinv) as H.
    by destruct (uploadLoop rt cfg (file :: files) [] st) as [[e|u] st1].
  - unfold analyze, tryCatch.
    destruct (analyzeBody rt cfg reqBody st) as [out st0] eqn:E0.
    assert (documents (snd match out with
                           | inl e => ret (analyzeCatch rt e) st0
                           | inr a => (inr a, st0)
                           end) = documents st0) as -> by by destruct out.
    apply analyzeBody_effect in E0 as (st1 & Hst1 & -> & _).
    destruct Hst1 as [->|(_ & keys & Hrec)]; [done|].
    destruct (recoverWeakPdfDocuments_keyed rt cfg keys st Hkeyed)
      as (st2 & E2 & _ & _ & Hs2).
    rewrite Hrec in E2. injection E2 as <-.
    intros k d' Hd'. specialize (Hs2 k).
    destruct (documents st !! k) as [d|] eqn:Hd; [|congruence].
    destruct Hs2 as (d2 & E2 & Hchange). rewrite Hd' in E2. injection E2 as <-.
    destruct Hchange as [->|(_ & _ & ocr & Hne & ->)]; [by apply (Hinv k)|].
    apply P_recovered; [by apply (Hinv k)|done].
Qed.

Lemma serveAll_documents reqs : forall st,
  serverInvariant rt st -> map_Forall (fun _ => P) (documents st) ->
  map_Forall (fun _ => P) (documents (serveAll rt cfg reqs st)).
Proof.
  induction reqs as [|req reqs IH]; intros st Hinv HP; cbn [serveAll]; [done|].
  apply IH; [by apply serve_serverInvariant|]. apply serve_documents; [apply Hinv|done].
Qed.

End DocumentInvariant.

(** X23: in every state the server reaches from empty stores, the text
    of every document is a normalised text, and the word count of the
    document is the number of words of its text, whether the text comes
    from the upload or from OCR recovery, which count the words in two
    different ways. *)
Theorem stored_text_invariant {W : Type} (rt : Runtime W) (cfg : Config)
    (w : W) (reqs : list Request) (key : jsstring) (doc : Document) :
  documents (serveAll rt cfg reqs (mkState ∅ ∅ w)) !! key = Some doc ->
  (exists raw, text doc = normalizeExtractedText raw)
  /\ textWords doc = wordCount (text doc).
Proof.
  intros Hdoc.
  pose proof (serveAll_documents rt cfg
                (fun d => (exists raw, text d = normalizeExtractedText raw)
                          /\ textWords d = wordCount (text d))) as H.
  refine (H _ _ reqs _ (serverInvariant_empty rt w) _ key doc Hdoc).
  - intros file extracted cloud id now. split; [by exists extracted|].
    cbn [textWords text newDocument]. apply words_of_uploaded, trim_idempotent.
  - intros d ocr _ _. split; [by exists ocr|].
    cbn [textWords text withRecoveredText]. apply words_of_recovered.
  - cbn. apply map_Forall_empty.
Qed.

Lemma stored_text_invariant_witness :
  (exists raw, text recoveredDocument = normalizeExtractedText raw)
  /\ textWords recoveredDocument = wordCount (text recoveredDocument).
Proof.
  apply (stored_text_invariant (scriptedRuntime readingModel offline)
           recoveringConfig world0
           [PostUpload [scannedPdf]; PostAnalyze (requestFor ["id-0"%string])]
           (lit "id-0") recoveredDocument).
  vm_compute. reflexivity.
Defined.
